(** * Entropy-based binning: a shallow embedding of [entropy_based_binning.py]

    The module searches exhaustively for the contiguous binning of an integer
    sequence that maximises the Shannon entropy of the bin occupancies and
    applies it.  The functions below follow the Python source one by one;
    the NumPy and itertools primitives the source calls are modelled in the
    first sections.

    Conventions of the embedding.
    - An array element is a finite number or one of the IEEE specials; finite
      numbers are exact rationals ([Q]) for the input arrays and ideal reals
      ([R]) for the entropies, so rounding of [log2] and of sums is not
      modelled.
      The statements about entropies are kept to what rounding cannot
      change: whether a score is NaN, zero or positive, and scores computed
      from the same counts.
    - Lists and integers are unbounded, and so are memory and time: the
      [OverflowError] CPython raises for a size past [sys.maxsize] is not
      modelled, and the statements that depend on it assume [range_fits] and
      [cuts_fit].
    - A Python exception is a value of [exn]; a call either returns ([Ok]) or
      raises ([Raise]).
    - The local variable [best_binning] of [bin_sequence] is an [option]:
      [None] is the unbound variable. *)

From Stdlib Require Import List Sorted Permutation Bool Arith ZArith QArith
  Qround Reals Lia Lra.
Import ListNotations.

Local Close Scope Q_scope.
Local Open Scope nat_scope.

(** ** Exceptions *)

Inductive exn : Set :=
| AssertionError
| ValueError
| OverflowError
| TypeError
| UnboundLocalError.

Inductive result (A : Type) : Type :=
| Ok (x : A)
| Raise (e : exn).

Arguments Ok {A} x.
Arguments Raise {A} e.

Definition bind {A B : Type} (m : result A) (k : A -> result B) : result B :=
  match m with
  | Ok x => k x
  | Raise e => Raise e
  end.

Notation "x <- m ;; k" := (bind m (fun x => k))
  (at level 61, m at next level, right associativity).

(** ** Array elements *)

(** A floating-point element over a carrier [A] of finite numbers:
    a finite number, plus or minus infinity, or not-a-number. *)
Inductive ext (A : Type) : Type :=
| Num (x : A)
| Inf (negative : bool)
| NaN.

Arguments Num {A} x.
Arguments Inf {A} negative.
Arguments NaN {A}.

(** Elements of the input array [a]. *)
Definition value : Type := ext Q.

(** Entropies and the intermediate arrays of [_get_h]. *)
Definition float : Type := ext R.

(** [np.isnan] on one element. *)
Definition isnan {A : Type} (x : ext A) : bool :=
  match x with
  | NaN => true
  | _ => false
  end.

(** [np.mod(x, 1)]: the fractional part [x - floor(x)] of a finite number,
    NaN for the specials. *)
Definition np_mod1 (x : value) : value :=
  match x with
  | Num q => Num (q - inject_Z (Qfloor q))%Q
  | _ => NaN
  end.

(** [np.equal(x, 0)]; a comparison with NaN is false. *)
Definition np_equal0 (x : value) : bool :=
  match x with
  | Num q => Qeq_bool q 0%Q
  | _ => false
  end.

(** [a == some_number] on one element, [some_number] a Python integer. *)
Definition np_eq (x : value) (some_number : Z) : bool :=
  match x with
  | Num q => Qeq_bool q (inject_Z some_number)
  | _ => false
  end.

(** The order of the elements; false as soon as one side is NaN. *)
Definition value_leb (x y : value) : bool :=
  match x, y with
  | Num p, Num q => Qle_bool p q
  | Inf true, (Num _ | Inf _) => true
  | (Num _ | Inf _), Inf false => true
  | _, _ => false
  end.

(** [np.fmin] and [np.fmax]: the other operand when one is NaN. *)
Definition fmin (x y : value) : value :=
  match x, y with
  | NaN, _ => y
  | _, NaN => x
  | _, _ => if value_leb x y then x else y
  end.

Definition fmax (x y : value) : value :=
  match x, y with
  | NaN, _ => y
  | _, NaN => x
  | _, _ => if value_leb x y then y else x
  end.

(** [np.nanmin] and [np.nanmax]: a reduction with [fmin] / [fmax]; an empty
    array raises [ValueError], an all-NaN array gives NaN (with a warning). *)
Definition nanmin (a : list value) : result value :=
  match a with
  | [] => Raise ValueError
  | x :: xs => Ok (fold_left fmin xs x)
  end.

Definition nanmax (a : list value) : result value :=
  match a with
  | [] => Raise ValueError
  | x :: xs => Ok (fold_left fmax xs x)
  end.

(** [np.int] is Python's [int]: truncation towards zero; NaN raises
    [ValueError] and an infinity raises [OverflowError]. *)
Definition np_int (x : value) : result Z :=
  match x with
  | Num q => Ok (Z.quot (Qnum q) (Zpos (Qden q)))
  | Inf _ => Raise OverflowError
  | NaN => Raise ValueError
  end.

(** ** Python built-ins *)

(** [range(lo, hi)]. *)
Definition py_range (lo hi : Z) : list Z :=
  map (fun i => (lo + Z.of_nat i)%Z) (seq 0 (Z.to_nat (hi - lo))).

(** [enumerate(l)]. *)
Definition enumerate {A : Type} (l : list A) : list (nat * A) :=
  combine (seq 0 (length l)) l.

(** The slice [base[lo:hi]]. *)
Definition slice {A : Type} (base : list A) (lo hi : nat) : list A :=
  firstn (hi - lo) (skipn lo base).

(** [itertools.combinations(pool, r)] for [r >= 0]: the [r]-element
    subsequences of [pool], those that contain the head first. *)
Fixpoint combinations {A : Type} (pool : list A) (r : nat) : list (list A) :=
  match r with
  | O => [[]]
  | S r' =>
      match pool with
      | [] => []
      | x :: pool' =>
          map (cons x) (combinations pool' r') ++ combinations pool' r
      end
  end.

(** [itertools.combinations] with a Python integer [r]: a negative [r]
    raises [ValueError]. *)
Definition py_combinations {A : Type} (pool : list A) (r : Z)
  : result (list (list A)) :=
  if (r <? 0)%Z then Raise ValueError
  else Ok (combinations pool (Z.to_nat r)).

(** ** Floating-point operations of [_get_h] *)

Definition Rsign_neg (x : R) : bool :=
  if Rlt_dec x 0 then true else false.

(** [np.log2]: minus infinity at zero, NaN below zero. *)
Definition np_log2 (x : float) : float :=
  match x with
  | Num r =>
      if Rlt_dec 0 r then Num (ln r / ln 2)%R
      else if Req_dec_T r 0 then Inf true
      else NaN
  | Inf false => Inf false
  | Inf true => NaN
  | NaN => NaN
  end.

(** Multiplication; zero times an infinity is NaN. *)
Definition fmul (x y : float) : float :=
  match x, y with
  | Num a, Num b => Num (a * b)%R
  | Num a, Inf s | Inf s, Num a =>
      if Req_dec_T a 0 then NaN else Inf (xorb (Rsign_neg a) s)
  | Inf s, Inf t => Inf (xorb s t)
  | _, _ => NaN
  end.

(** Addition; infinities of opposite sign add up to NaN. *)
Definition fadd (x y : float) : float :=
  match x, y with
  | Num a, Num b => Num (a + b)%R
  | Num _, Inf s | Inf s, Num _ => Inf s
  | Inf s, Inf t => if Bool.eqb s t then Inf s else NaN
  | _, _ => NaN
  end.

Definition fneg (x : float) : float :=
  match x with
  | Num a => Num (- a)%R
  | Inf s => Inf (negb s)
  | NaN => NaN
  end.

(** The comparison [x > y]; false as soon as one side is NaN. *)
Definition fgt (x y : float) : bool :=
  match x, y with
  | Num a, Num b => if Rlt_dec b a then true else false
  | Inf false, (Num _ | Inf true) => true
  | Num _, Inf true => true
  | _, _ => false
  end.

(** [np.sum] of a float array. *)
Definition np_sum (l : list float) : float :=
  fold_left fadd l (Num 0%R).

(** [np.ma.filled(x, fill_value)]: [x] is returned as it is when it is a
    plain array and not a masked one, which is the case in [_get_h], where
    the argument is the product of two plain arrays. *)
Definition ma_filled (x : list float) (fill_value : float) : list float := x.

(** [np.bincount]: the number of occurrences of every index from [0] to the
    largest one; the empty array for an empty input. *)
Definition bincount (l : list nat) : list nat :=
  match l with
  | [] => []
  | _ => map (count_occ Nat.eq_dec l) (seq 0 (S (list_max l)))
  end.

(** ** The functions of the module *)

(** The working array [b] of [_apply_binning] holds NaN ([None]) or a group
    index written from [enumerate] ([Some ii]). *)
Definition label : Type := option nat.

(** [np.full_like(a, np.nan, dtype=np.float)]. *)
Definition full_like_nan (a : list value) : list label :=
  repeat None (length a).

(** The masked assignment [b[mask] = ii]. *)
Definition assign_where (b : list label) (mask : list bool) (ii : nat)
  : list label :=
  map (fun mo : bool * label => if fst mo then Some ii else snd mo)
      (combine mask b).

Definition _isinteger (x : value) : bool :=
  np_equal0 (np_mod1 x).

Definition _generate_bins (sq : list Z) (nbins : Z)
  : result (list (list (list Z))) :=
  let base := sq in
  let nbase := length base in
  all_ixs <- py_combinations (seq 1 (nbase - 1)) (nbins - 1)%Z ;;
  Ok (map (fun ixs =>
             map (fun lh : nat * nat => slice base (fst lh) (snd lh))
                 (combine (0 :: ixs) (ixs ++ [nbase])))
          all_ixs).

Definition _apply_binning (a : list value) (binning : list (list Z))
  : list label :=
  fold_left
    (fun b (ib : nat * list Z) =>
       fold_left
         (fun b some_number =>
            assign_where b (map (fun x => np_eq x some_number) a) (fst ib))
         (snd ib) b)
    (enumerate binning)
    (full_like_nan a).

(** [b[~np.isnan(b)].astype(np.int)]. *)
Definition non_nan (b : list label) : list nat :=
  flat_map (fun x => match x with Some ii => [ii] | None => [] end) b.

Definition _get_h (b : list label) : float :=
  let counts := bincount (non_nan b) in
  let total := list_sum counts in
  let pdf := map (fun c => Num (INR c / INR total)%R) counts in
  let h := fneg (np_sum (ma_filled (map (fun p => fmul p (np_log2 p)) pdf)
                                   (Num 0%R))) in
  h.

Definition _evaluate_binning (a : list value) (binning : list (list Z))
  : float :=
  let b := _apply_binning a binning in
  let h := _get_h b in
  h.

(** One turn of the loop of [bin_sequence] on the pair
    [(best_h, best_binning)]. *)
Definition search_step (a : list value)
    (st : float * option (list (list Z))) (binning : list (list Z))
  : float * option (list (list Z)) :=
  let h := _evaluate_binning a binning in
  if fgt h (fst st) then (h, Some binning) else st.

Definition bin_sequence (a : list value) (nbins : Z) : result (list label) :=
  if negb (forallb (fun x => _isinteger x || isnan x) a)
  then Raise AssertionError
  else
    amin <- (v <- nanmin a ;; np_int v) ;;
    amax <- (v <- nanmax a ;; np_int v) ;;
    binnings <- _generate_bins (py_range amin (amax + 1)) nbins ;;
    match snd (fold_left (search_step a) binnings (Num 0%R, None)) with
    | Some best_binning => Ok (_apply_binning a best_binning)
    | None => Raise UnboundLocalError
    end.

(** Integer elements, as the examples of the documentation write them. *)
Definition int (z : Z) : value := Num (inject_Z z).

(** ** Derived notions used in the statements *)

(** The condition of the [assert] of [bin_sequence]. *)
Definition checked (a : list value) : bool :=
  forallb (fun x => _isinteger x || isnan x) a.

(** What the assignments of one group do to the label of one element. *)
Definition relabel (x : value) (l : label) (ib : nat * list Z) : label :=
  fold_left (fun l some_number => if np_eq x some_number then Some (fst ib) else l)
            (snd ib) l.

(** The label [_apply_binning] leaves on one element. *)
Definition label_of (binning : list (list Z)) (x : value) : label :=
  fold_left (relabel x) (enumerate binning) None.

(** The groups obtained by cutting [base] at the positions [ixs]: the list
    comprehension of [_generate_bins]. *)
Definition split_at (base : list Z) (ixs : list nat) : list (list Z) :=
  map (fun lh : nat * nat => slice base (fst lh) (snd lh))
      (combine (0 :: ixs) (ixs ++ [length base])).

(** The binomial coefficient [C(n, k)], by Pascal's rule. *)
Fixpoint binomial (n k : nat) : nat :=
  match k with
  | O => 1
  | S k' =>
      match n with
      | O => 0
      | S n' => binomial n' k' + binomial n' k
      end
  end.

(** The strict lexicographic order of tuples of cut positions. *)
Inductive lex_lt : list nat -> list nat -> Prop :=
| lex_nil (y : nat) (ys : list nat) : lex_lt [] (y :: ys)
| lex_head (x y : nat) (xs ys : list nat) : x < y -> lex_lt (x :: xs) (y :: ys)
| lex_tail (x : nat) (xs ys : list nat) :
    lex_lt xs ys -> lex_lt (x :: xs) (x :: ys).

(** A tuple of cut positions of a sequence of length [L]: [k] increasing
    positions among the [L - 1] inner boundaries [1 .. L - 1]. *)
Definition cut_tuple (L k : nat) (ixs : list nat) : Prop :=
  length ixs = k /\
  StronglySorted lt ixs /\
  Forall (fun i => 1 <= i < L) ixs.

(** A partition of [base] into [n] groups: [n] non-empty groups, each a run
    of consecutive integers, whose concatenation is [base]. *)
Definition partition_of (base : list Z) (n : nat) (p : list (list Z)) : Prop :=
  length p = n /\
  Forall (fun g => exists u v, (u < v)%Z /\ g = py_range u v) p /\
  concat p = base.

(** The integer an integral element stands for. *)
Definition int_of (x : value) : option Z :=
  match x with
  | Num q => Some (Qfloor q)
  | _ => None
  end.

(** The integers of an array, in order, its NaN left out. *)
Definition ints (a : list value) : list Z :=
  flat_map (fun x => match int_of x with Some z => [z] | None => [] end) a.

(** The loop of [bin_sequence]: the pair [(best_h, best_binning)] after all
    the candidates. *)
Definition search (a : list value) (binnings : list (list (list Z)))
  : float * option (list (list Z)) :=
  fold_left (search_step a) binnings (Num 0%R, None).

(** One term [p * log2(p)] of the entropy, over the reals. *)
Definition plogp (p : R) : R := (p * (ln p / ln 2))%R.

(** The entropy [- sum (p * log2 p)] of a list of occupancy counts, over the
    reals, the sum taken from the left as [np.sum] does. *)
Definition entropy_of_counts (counts : list nat) : R :=
  (- fold_left Rplus
       (map (fun c => plogp (INR c / INR (list_sum counts))) counts) 0)%R.

(** The input of the worked example: [[0,0,0,0,1,1,2,2,2,2]]. *)
Definition example_input : list value :=
  map int [0; 0; 0; 0; 1; 1; 2; 2; 2; 2]%Z.

(** ** Sizes

    CPython keeps the length of a tuple and the [r] of
    [itertools.combinations] in a C [ssize_t]: past [sys.maxsize],
    [tuple(seq)] and [combinations] raise [OverflowError].  The lists and
    integers of this development are unbounded, so [_generate_bins] has no
    such path; the statements that depend on it assume the sizes below. *)

(** [sys.maxsize] of a 64-bit build. *)
Definition sys_maxsize : Z := 2 ^ 63 - 1.


(** The number of cuts [nbins - 1] can be held in a [ssize_t]. *)
Definition cuts_fit (nbins : Z) : Prop :=
  (- sys_maxsize - 1 <= nbins - 1 <= sys_maxsize)%Z.

(** ** The arrays as objects of a store

    The functions above take and return the contents of the arrays.  To
    follow which array a statement writes to, the functions that create or
    fill arrays are given a second time over a store of objects: an array is
    a location, [np.full_like], [a == some_number] and [astype] allocate,
    and [b[mask] = ii] overwrites the object at the location of [b]. *)
Module Store.

Definition loc : Type := nat.

Inductive obj : Type :=
| Values (a : list value)
| Labels (b : list label)
| Mask (m : list bool).

Definition store : Type := list obj.

(** Computations on the store; the store survives an exception. *)
Definition M (A : Type) : Type := store -> result A * store.

Definition ret {A : Type} (x : A) : M A := fun s => (Ok x, s).

Definition raise {A : Type} (e : exn) : M A := fun s => (Raise e, s).

Definition lift {A : Type} (r : result A) : M A := fun s => (r, s).

Definition bindM {A B : Type} (m : M A) (k : A -> M B) : M B :=
  fun s =>
    match m s with
    | (Ok x, s') => k x s'
    | (Raise e, s') => (Raise e, s')
    end.

Notation "x <~ m ;; k" := (bindM m (fun x => k))
  (at level 61, m at next level, right associativity).

(** A new object, at the first free location. *)
Definition alloc (o : obj) : M loc := fun s => (Ok (length s), s ++ [o]).

Fixpoint update (s : store) (l : loc) (o : obj) : store :=
  match s, l with
  | [], _ => []
  | _ :: s', O => o :: s'
  | x :: s', S l' => x :: update s' l' o
  end.

Definition write (l : loc) (o : obj) : M unit := fun s => (Ok tt, update s l o).

(** Reading an array of the expected kind; anything else at the location is
    a [TypeError]. *)
Definition read_values (l : loc) : M (list value) :=
  fun s =>
    match nth_error s l with
    | Some (Values a) => (Ok a, s)
    | _ => (Raise TypeError, s)
    end.

Definition read_labels (l : loc) : M (list label) :=
  fun s =>
    match nth_error s l with
    | Some (Labels b) => (Ok b, s)
    | _ => (Raise TypeError, s)
    end.

Definition read_mask (l : loc) : M (list bool) :=
  fun s =>
    match nth_error s l with
    | Some (Mask m) => (Ok m, s)
    | _ => (Raise TypeError, s)
    end.

(** A [for] loop without and with a loop-carried state. *)
Fixpoint for_each {A : Type} (l : list A) (body : A -> M unit) : M unit :=
  match l with
  | [] => ret tt
  | x :: l' => _ <~ body x ;; for_each l' body
  end.

Fixpoint for_fold {A S : Type} (l : list A) (body : S -> A -> M S) (st : S)
  : M S :=
  match l with
  | [] => ret st
  | x :: l' => st' <~ body st x ;; for_fold l' body st'
  end.

(** The statement [b[a == some_number] = ii]: the comparison allocates the
    mask, the assignment overwrites [b] in place. *)
Definition setitem_eq (lb la : loc) (some_number : Z) (ii : nat) : M unit :=
  a <~ read_values la ;;
  lm <~ alloc (Mask (map (fun x => np_eq x some_number) a)) ;;
  m <~ read_mask lm ;;
  b <~ read_labels lb ;;
  write lb (Labels (assign_where b m ii)).

Definition _apply_binning (la : loc) (binning : list (list Z)) : M loc :=
  a <~ read_values la ;;
  lb <~ alloc (Labels (full_like_nan a)) ;;
  _ <~ for_each (enumerate binning)
         (fun ib : nat * list Z =>
            for_each (snd ib)
              (fun some_number => setitem_eq lb la some_number (fst ib))) ;;
  b <~ read_labels lb ;;
  alloc (Labels b).

Definition _evaluate_binning (la : loc) (binning : list (list Z)) : M float :=
  lb <~ _apply_binning la binning ;;
  b <~ read_labels lb ;;
  ret (_get_h b).

Definition bin_sequence (la : loc) (nbins : Z) : M loc :=
  a <~ read_values la ;;
  if negb (forallb (fun x => _isinteger x || isnan x) a)
  then raise AssertionError
  else
    amin <~ lift (v <- nanmin a ;; np_int v) ;;
    amax <~ lift (v <- nanmax a ;; np_int v) ;;
    binnings <~ lift (_generate_bins (py_range amin (amax + 1)) nbins) ;;
    st <~ for_fold binnings
            (fun (st : float * option (list (list Z))) binning =>
               h <~ _evaluate_binning la binning ;;
               ret (if fgt h (fst st) then (h, Some binning) else st))
            (Num 0%R, None) ;;
    match snd st with
    | Some best_binning => _apply_binning la best_binning
    | None => raise UnboundLocalError
    end.

End Store.

(** ** Cut positions of a list of groups *)

(** The positions at which a sequence must be cut to give the groups [p],
    the first of which starts at position [c]: the running sums of the
    lengths of the groups, the last group left out. *)
Fixpoint cut_positions (c : nat) (p : list (list Z)) : list nat :=
  match p with
  | [] => []
  | g :: p' =>
      match p' with
      | [] => []
      | _ :: _ => (c + length g) :: cut_positions (c + length g) p'
      end
  end.

(** ** Two-dimensional arrays and [bin_array]

    [bin_array] is documented for an [(N, M)] array.  Such an array is its
    shape and its elements in row-major order, the layout [ravel] and
    [reshape] work on. *)

Record array2 (T : Type) : Type := {
  nrows : nat;
  ncols : nat;
  elems : list T
}.

Arguments nrows {T} _.
Arguments ncols {T} _.
Arguments elems {T} _.

(** The elements fill the shape. *)
Definition well_shaped {T : Type} (A : array2 T) : Prop :=
  length (elems A) = nrows A * ncols A.

(** [A.ravel()]. *)
Definition ravel {T : Type} (A : array2 T) : list T := elems A.

(** [b.reshape(shape)] for a two-dimensional shape: [ValueError] when the
    number of elements is not the one of the shape. *)
Definition reshape {T : Type} (b : list T) (shape : nat * nat)
  : result (array2 T) :=
  if length b =? fst shape * snd shape
  then Ok {| nrows := fst shape; ncols := snd shape; elems := b |}
  else Raise ValueError.

(** The slices [A[i, :]] and [A[:, j]]. *)
Definition row {T : Type} (A : array2 T) (i : nat) : list T :=
  slice (elems A) (i * ncols A) (i * ncols A + ncols A).

Definition column {T : Type} (A : array2 T) (j : nat) : list T :=
  flat_map (fun i => slice (elems A) (i * ncols A + j) (i * ncols A + j + 1))
           (seq 0 (nrows A)).

Definition rows {T : Type} (A : array2 T) : list (list T) :=
  map (row A) (seq 0 (nrows A)).

Definition columns {T : Type} (A : array2 T) : list (list T) :=
  map (column A) (seq 0 (ncols A)).

(** [A.T]. *)
Definition transpose {T : Type} (A : array2 T) : array2 T :=
  {| nrows := ncols A; ncols := nrows A; elems := concat (columns A) |}.

(** The assignment [buff[ind] = res] of [np.apply_along_axis], the slot
    [buff[ind]] being of length [n]: [res] is stored as it is when it has
    this length, a single element is broadcast, and any other length is a
    [ValueError]. *)
Definition store_slice {U : Type} (n : nat) (res : list U) : result (list U) :=
  if length res =? n then Ok res
  else match res with
       | [x] => Ok (repeat x n)
       | _ => Raise ValueError
       end.

(** The loop of [np.apply_along_axis] over the slices after the first one:
    each result is stored before the next slice is evaluated. *)
Fixpoint apply_rest {T U : Type} (func1d : list T -> result (list U))
    (n : nat) (slices : list (list T)) : result (list (list U)) :=
  match slices with
  | [] => Ok []
  | s :: slices' =>
      res <- func1d s ;;
      r <- store_slice n res ;;
      rs <- apply_rest func1d n slices' ;;
      Ok (r :: rs)
  end.

(** [np.apply_along_axis(func1d, axis, arr)] on a two-dimensional array,
    [func1d] returning one-dimensional arrays.  An axis outside [-2 .. 1]
    raises [AxisError], a subclass of [ValueError], recorded as
    [ValueError]; so does an array without a slice to iterate over.  The
    first result fixes the length of the slots of the buffer. *)
Definition np_apply_along_axis {T U : Type}
    (func1d : list T -> result (list U)) (axis : Z) (arr : array2 T)
  : result (array2 U) :=
  if ((axis <? -2) || (2 <=? axis))%Z then Raise ValueError
  else
    let along_rows := ((axis =? 1) || (axis =? -1))%Z in
    let slices := if along_rows then rows arr else columns arr in
    match slices with
    | [] => Raise ValueError
    | s0 :: slices' =>
        res0 <- func1d s0 ;;
        rs <- apply_rest func1d (length res0) slices' ;;
        let buff := {| nrows := length slices;
                       ncols := length res0;
                       elems := concat (res0 :: rs) |} in
        Ok (if along_rows then buff else transpose buff)
    end.

Definition bin_array (A : array2 value) (nbins : Z) (axis : option Z)
  : result (array2 label) :=
  match axis with
  | None =>
      b <- bin_sequence (ravel A) nbins ;;
      reshape b (nrows A, ncols A)
  | Some axis => np_apply_along_axis (fun a => bin_sequence a nbins) axis A
  end.

(** The element that stands for a label: the integer [lo + k] for the label
    [k], NaN for NaN. *)
Definition value_of_label (lo : Z) (l : label) : value :=
  match l with
  | Some k => int (lo + Z.of_nat k)
  | None => NaN
  end.

(** [a + c] for a Python integer [c], on one element. *)
Definition shift (c : Z) (x : value) : value :=
  match x with
  | Num q => Num (q + inject_Z c)%Q
  | Inf s => Inf s
  | NaN => NaN
  end.

(** * Properties *)

(** ** Results of the error monad *)

Lemma bind_Ok {A B : Type} (m : result A) (k : A -> result B) (x : A) :
  m = Ok x -> bind m k = k x.
Proof. intros ->. reflexivity. Qed.

Lemma bind_Raise {A B : Type} (m : result A) (k : A -> result B) (e : exn) :
  m = Raise e -> bind m k = Raise e.
Proof. intros ->. reflexivity. Qed.

Lemma bind_inv {A B : Type} (m : result A) (k : A -> result B) (y : B) :
  bind m k = Ok y -> exists x, m = Ok x /\ k x = Ok y.
Proof. destruct m as [x|e]; simpl; [eauto | discriminate]. Qed.

(** ** The input check *)

Lemma bin_sequence_unchecked (a : list value) (nbins : Z) :
  checked a = false -> bin_sequence a nbins = Raise AssertionError.
Proof. unfold bin_sequence, checked. intros ->. reflexivity. Qed.

Lemma checked_false_iff (a : list value) :
  checked a = false <->
  exists x, In x a /\ isnan x = false /\ _isinteger x = false.
Proof.
  unfold checked. induction a as [|y a IH]; simpl.
  - split; [discriminate | intros (x & [] & _)].
  - rewrite andb_false_iff, orb_false_iff, IH. split.
    + intros [[Hi Hn] | (x & Hx & H)]; [exists y | exists x]; tauto.
    + intros (x & [-> | Hx] & Hn & Hi); [left; tauto | right; eauto].
Qed.

(** C7. As soon as one element of the input is neither NaN nor integral,
    [bin_sequence] raises the [AssertionError] of its first statement,
    whatever [nbins] is: the check comes before the range is computed and
    before any partition is generated or scored. *)
Theorem bin_sequence_rejects_non_integral (a : list value) (nbins : Z) :
  (exists x, In x a /\ isnan x = false /\ _isinteger x = false) ->
  bin_sequence a nbins = Raise AssertionError.
Proof.
  intros H. apply bin_sequence_unchecked, checked_false_iff, H.
Qed.

Lemma bin_sequence_rejects_non_integral_witness :
  (exists x, In x [Num (3 # 2)%Q; Num (2 # 1)%Q] /\
             isnan x = false /\ _isinteger x = false) /\
  bin_sequence [Num (3 # 2)%Q; Num (2 # 1)%Q] 2 = Raise AssertionError.
Proof.
  assert (H : exists x, In x [Num (3 # 2)%Q; Num (2 # 1)%Q] /\
                        isnan x = false /\ _isinteger x = false).
  { exists (Num (3 # 2)%Q). split; [left; reflexivity | split; reflexivity]. }
  split; [exact H | exact (bin_sequence_rejects_non_integral _ 2%Z H)].
Defined.

(** ** Inputs without a number *)

Lemma fold_fmin_all_nan (xs : list value) :
  (forall x, In x xs -> isnan x = true) -> fold_left fmin xs NaN = NaN.
Proof.
  induction xs as [|y xs IH]; simpl; intros H; [reflexivity|].
  assert (Hy : isnan y = true) by (apply H; left; reflexivity).
  destruct y; try discriminate. apply IH. intros x Hx. apply H. now right.
Qed.

Lemma checked_all_nan (a : list value) :
  (forall x, In x a -> isnan x = true) -> checked a = true.
Proof.
  intros H. apply forallb_forall. intros x Hx. rewrite (H x Hx).
  apply orb_true_r.
Qed.

(** Without a number in the input there is no range to search. *)
Lemma bin_sequence_no_number (a : list value) (nbins : Z) :
  (forall x, In x a -> isnan x = true) ->
  bin_sequence a nbins = Raise ValueError.
Proof.
  intros H. unfold bin_sequence. fold (checked a).
  rewrite (checked_all_nan a H). simpl negb. cbv iota.
  destruct a as [|y xs]; [reflexivity|].
  assert (Hy : isnan y = true) by (apply H; left; reflexivity).
  destruct y; try discriminate.
  unfold nanmin. rewrite fold_fmin_all_nan; [reflexivity|].
  intros x Hx. apply H. now right.
Qed.

(** C8. An input whose elements are all NaN (the empty input included) makes
    [bin_sequence] raise: [np.nanmin] has nothing to return, and the
    conversion of its NaN to an integer raises [ValueError]. *)
Theorem bin_sequence_all_missing (a : list value) (nbins : Z) :
  (forall x, In x a -> isnan x = true) ->
  bin_sequence a nbins = Raise ValueError.
Proof.
  intros H. unfold bin_sequence. fold (checked a).
  rewrite (checked_all_nan a H). simpl negb. cbv iota.
  destruct a as [|y xs]; [reflexivity|].
  assert (Hy : isnan y = true) by (apply H; left; reflexivity).
  destruct y; try discriminate.
  unfold nanmin. rewrite fold_fmin_all_nan; [reflexivity|].
  intros x Hx. apply H. now right.
Qed.

Lemma bin_sequence_all_missing_witness :
  (forall x : value, In x [NaN; NaN; NaN] -> isnan x = true) /\
  bin_sequence [NaN; NaN; NaN] 2 = Raise ValueError.
Proof.
  assert (H : forall x : value, In x [NaN; NaN; NaN] -> isnan x = true).
  { intros x [<- | [<- | [<- | []]]]; reflexivity. }
  split; [exact H | exact (bin_sequence_all_missing _ 2%Z H)].
Defined.

(** ** The applier, element by element *)

Lemma assign_where_map (f : value -> label) (a : list value)
    (some_number : Z) (ii : nat) :
  assign_where (map f a) (map (fun x => np_eq x some_number) a) ii =
  map (fun x => if np_eq x some_number then Some ii else f x) a.
Proof.
  unfold assign_where. induction a as [|x a IH]; simpl; [reflexivity|].
  now rewrite IH.
Qed.

Lemma apply_group_map (a : list value) (ii : nat) (some_bin : list Z) :
  forall f : value -> label,
    fold_left
      (fun b some_number =>
         assign_where b (map (fun x => np_eq x some_number) a) ii)
      some_bin (map f a) =
    map (fun x => relabel x (f x) (ii, some_bin)) a.
Proof.
  unfold relabel. simpl.
  induction some_bin as [|n some_bin IH]; intros f; simpl; [reflexivity|].
  rewrite assign_where_map. apply (IH (fun x => if np_eq x n then Some ii else f x)).
Qed.

Lemma apply_groups_map (a : list value) (ibs : list (nat * list Z)) :
  forall f : value -> label,
    fold_left
      (fun b (ib : nat * list Z) =>
         fold_left
           (fun b some_number =>
              assign_where b (map (fun x => np_eq x some_number) a) (fst ib))
           (snd ib) b)
      ibs (map f a) =
    map (fun x => fold_left (relabel x) ibs (f x)) a.
Proof.
  induction ibs as [|[ii some_bin] ibs IH]; intros f; simpl.
  - reflexivity.
  - rewrite apply_group_map. apply (IH (fun x => relabel x (f x) (ii, some_bin))).
Qed.

Lemma apply_binning_map (a : list value) (binning : list (list Z)) :
  _apply_binning a binning = map (label_of binning) a.
Proof.
  unfold _apply_binning, label_of, full_like_nan.
  replace (repeat None (length a)) with (map (fun _ : value => @None nat) a).
  - apply apply_groups_map.
  - induction a; simpl; congruence.
Qed.

Lemma apply_binning_length (a : list value) (binning : list (list Z)) :
  length (_apply_binning a binning) = length a.
Proof. rewrite apply_binning_map. apply length_map. Qed.

(** ** The partition generator *)

Lemma binomial_zero_gt (n k : nat) : n < k -> binomial n k = 0.
Proof.
  revert k. induction n as [|n IH]; intros [|k] H; simpl; try lia.
  rewrite !IH by lia. reflexivity.
Qed.

(** [binomial] is the usual quotient of factorials. *)
Lemma binomial_fact (n k : nat) :
  k <= n -> binomial n k * (fact k * fact (n - k)) = fact n.
Proof.
  revert k. induction n as [|n IH]; intros [|k] H.
  - reflexivity.
  - lia.
  - simpl binomial. rewrite Nat.sub_0_r. change (fact 0) with 1. lia.
  - change (binomial (S n) (S k)) with (binomial n k + binomial n (S k)).
    change (S n - S k) with (n - k).
    destruct (Nat.eq_dec k n) as [-> | Hne].
    + rewrite (binomial_zero_gt n (S n)) by lia.
      specialize (IH n (le_n n)). rewrite Nat.sub_diag in *.
      change (fact (S n)) with (S n * fact n). change (fact 0) with 1 in *.
      nia.
    + assert (H1 := IH k ltac:(lia)). assert (H2 := IH (S k) ltac:(lia)).
      replace (n - k) with (S (n - S k)) in * by lia.
      change (fact (S n)) with (S n * fact n).
      change (fact (S k)) with (S k * fact k) in *.
      change (fact (S (n - S k))) with (S (n - S k) * fact (n - S k)) in *.
      replace (S n) with (S k + S (n - S k)) at 2 by lia.
      nia.
Qed.

Lemma combinations_length {A : Type} (pool : list A) (r : nat) :
  length (combinations pool r) = binomial (length pool) r.
Proof.
  revert r. induction pool as [|x pool IH]; intros [|r]; simpl; try reflexivity.
  rewrite length_app, length_map, !IH. reflexivity.
Qed.

Lemma combinations_shape (pool : list nat) (r : nat) (ixs : list nat) :
  StronglySorted lt pool ->
  In ixs (combinations pool r) ->
  length ixs = r /\ StronglySorted lt ixs /\ incl ixs pool.
Proof.
  revert r ixs. induction pool as [|x pool IH]; intros [|r] ixs Hs Hin;
    simpl in Hin.
  - destruct Hin as [<- | []]. repeat split; [constructor | intros ? []].
  - destruct Hin.
  - destruct Hin as [<- | []]. repeat split; [constructor | intros ? []].
  - apply StronglySorted_inv in Hs as [Hs Hx].
    apply in_app_or in Hin as [Hin | Hin].
    + apply in_map_iff in Hin as (c & <- & Hc).
      destruct (IH r c Hs Hc) as (Hl & Hc1 & Hc2).
      repeat split.
      * simpl. now rewrite Hl.
      * constructor; [exact Hc1|].
        rewrite Forall_forall in *. intros y Hy. apply Hx, Hc2, Hy.
      * intros y [<- | Hy]; [now left | right; apply Hc2, Hy].
    + destruct (IH (S r) ixs Hs Hin) as (Hl & Hc1 & Hc2).
      repeat split; [exact Hl | exact Hc1 |].
      intros y Hy. right. apply Hc2, Hy.
Qed.

Lemma combinations_lex (pool : list nat) (r : nat) :
  StronglySorted lt pool -> StronglySorted lex_lt (combinations pool r).
Proof.
  revert r. induction pool as [|x pool IH]; intros [|r] Hs; simpl.
  - repeat constructor.
  - constructor.
  - repeat constructor.
  - pose proof Hs as Hs0.
    apply StronglySorted_inv in Hs as [Hs Hx].
    assert (Hleft : StronglySorted lex_lt (map (cons x) (combinations pool r))).
    { specialize (IH r Hs). induction IH as [|c cs Hcs IHcs Hc]; simpl.
      - constructor.
      - constructor; [exact IHcs|].
        rewrite Forall_forall in *. intros d Hd.
        apply in_map_iff in Hd as (d' & <- & Hd'). apply lex_tail, Hc, Hd'. }
    assert (Hcross : forall c d, In c (map (cons x) (combinations pool r)) ->
                                 In d (combinations pool (S r)) -> lex_lt c d).
    { intros c d Hc Hd. apply in_map_iff in Hc as (c' & <- & _).
      destruct (combinations_shape pool (S r) d Hs Hd) as (Hl & _ & Hincl).
      destruct d as [|y d]; [discriminate|].
      apply lex_head. rewrite Forall_forall in Hx. apply Hx, Hincl. now left. }
    revert Hleft Hcross. generalize (map (cons x) (combinations pool r)) as l.
    induction l as [|c l IHl]; intros Hleft Hcross; simpl.
    + apply IH, Hs.
    + apply StronglySorted_inv in Hleft as [Hl Hc].
      constructor.
      * apply IHl; [exact Hl|]. intros c' d Hc' Hd. apply Hcross; [now right | exact Hd].
      * apply Forall_app. split; [exact Hc|].
        apply Forall_forall. intros d Hd. apply Hcross; [now left | exact Hd].
Qed.

Lemma seq_sorted (start len : nat) : StronglySorted lt (seq start len).
Proof.
  revert start. induction len as [|len IH]; intros start; simpl; constructor.
  - apply IH.
  - apply Forall_forall. intros y Hy. apply in_seq in Hy. lia.
Qed.

Lemma py_range_length (lo hi : Z) :
  length (py_range lo hi) = Z.to_nat (hi - lo).
Proof. unfold py_range. now rewrite length_map, length_seq. Qed.

Lemma py_range_In (lo hi z : Z) :
  In z (py_range lo hi) <-> (lo <= z < hi)%Z.
Proof.
  unfold py_range. rewrite in_map_iff. split.
  - intros (i & <- & Hi). apply in_seq in Hi. lia.
  - intros H. exists (Z.to_nat (z - lo)). split; [lia|]. apply in_seq. lia.
Qed.

Lemma slice_all {A : Type} (base : list A) : slice base 0 (length base) = base.
Proof. unfold slice. rewrite Nat.sub_0_r. apply firstn_all. Qed.

Lemma firstn_plus {A : Type} (m n : nat) (l : list A) :
  firstn (m + n) l = firstn m l ++ firstn n (skipn m l).
Proof.
  revert l. induction m as [|m IH]; intros [|x l]; simpl;
    rewrite ?firstn_nil; try reflexivity.
  now rewrite IH.
Qed.

Lemma firstn_seq_le (n start len : nat) :
  n <= len -> firstn n (seq start len) = seq start n.
Proof.
  revert start len. induction n as [|n IH]; intros start [|len] H; simpl;
    try reflexivity; try lia.
  rewrite IH by lia. reflexivity.
Qed.

Lemma map_seq_from (f : nat -> Z) (i m : nat) :
  map f (seq i m) = map (fun k => f (i + k)) (seq 0 m).
Proof.
  rewrite <- (Nat.add_0_r i) at 1. generalize 0 as s.
  induction m as [|m IH]; intros s; simpl; [reflexivity|].
  f_equal. replace (S (i + s)) with (i + S s) by lia. apply IH.
Qed.

Lemma slice_app {A : Type} (base : list A) (i j k : nat) :
  i <= j <= k -> slice base i j ++ slice base j k = slice base i k.
Proof.
  intros H. unfold slice.
  replace (k - i) with ((j - i) + (k - j)) by lia.
  replace (skipn j base) with (skipn (j - i) (skipn i base)).
  - now rewrite firstn_plus.
  - rewrite skipn_skipn. f_equal. lia.
Qed.

Lemma slice_range (lo hi : Z) (i j : nat) :
  i <= j <= Z.to_nat (hi - lo) ->
  slice (py_range lo hi) i j =
  py_range (lo + Z.of_nat i) (lo + Z.of_nat j).
Proof.
  intros H. unfold slice, py_range.
  rewrite skipn_map, firstn_map, skipn_seq, firstn_seq_le by lia.
  replace (Z.to_nat (lo + Z.of_nat j - (lo + Z.of_nat i))) with (j - i) by lia.
  simpl. rewrite map_seq_from. apply map_ext. intros k. lia.
Qed.

(** Cutting from position [lo] on: the groups between consecutive cuts. *)
Lemma split_from (base : list Z) (n : nat) (ixs : list nat) :
  forall lo : nat,
    StronglySorted lt (lo :: ixs) ->
    Forall (fun i => i < n) (lo :: ixs) ->
    let p := map (fun lh : nat * nat => slice base (fst lh) (snd lh))
                 (combine (lo :: ixs) (ixs ++ [n])) in
    length p = S (length ixs) /\
    concat p = slice base lo n /\
    forall g, In g p -> exists i j, lo <= i < j /\ j <= n /\ g = slice base i j.
Proof.
  induction ixs as [|i ixs IH]; intros lo Hs Hn.
  - simpl. rewrite app_nil_r. repeat split.
    intros g [<- | []]. exists lo, n. apply Forall_inv in Hn. repeat split; lia.
  - apply StronglySorted_inv in Hs as [Hs Hlo].
    pose proof (Forall_inv Hlo) as Hloi. pose proof (Forall_inv Hn) as Hlon.
    apply Forall_inv_tail in Hn.
    destruct (IH i Hs Hn) as (Hlen & Hcat & Hg).
    pose proof (Forall_inv Hn) as Hin.
    cbn [combine app map length concat fst snd] in *.
    repeat split.
    + now rewrite Hlen.
    + rewrite Hcat. apply slice_app. lia.
    + intros g [<- | Hing].
      * exists lo, i. repeat split; lia.
      * destruct (Hg g Hing) as (u & v & Hu & Hv & ->).
        exists u, v. repeat split; lia.
Qed.

Lemma split_at_partition (lo hi : Z) (k : nat) (ixs : list nat) :
  (lo < hi)%Z ->
  cut_tuple (Z.to_nat (hi - lo)) k ixs ->
  partition_of (py_range lo hi) (S k) (split_at (py_range lo hi) ixs).
Proof.
  intros Hlh (Hk & Hs & Hb). unfold split_at. rewrite py_range_length.
  destruct (split_from (py_range lo hi) (Z.to_nat (hi - lo)) ixs 0)
    as (Hlen & Hcat & Hg).
  - constructor; [exact Hs|]. eapply Forall_impl; [|exact Hb].
    simpl. intros; lia.
  - constructor; [lia|]. eapply Forall_impl; [|exact Hb]. simpl. intros; lia.
  - cbn zeta in *. repeat split.
    + now rewrite Hlen, Hk.
    + apply Forall_forall. intros g Hin.
      destruct (Hg g Hin) as (i & j & Hi & Hj & ->).
      exists (lo + Z.of_nat i)%Z, (lo + Z.of_nat j)%Z. split; [lia|].
      apply slice_range. lia.
    + rewrite Hcat. rewrite <- (py_range_length lo hi). apply slice_all.
Qed.

Lemma combinations_complete (pool ixs : list nat) :
  StronglySorted lt pool ->
  StronglySorted lt ixs ->
  incl ixs pool ->
  In ixs (combinations pool (length ixs)).
Proof.
  revert ixs. induction pool as [|x pool IH]; intros [|y ys] Hp Hs Hi.
  - now left.
  - destruct (Hi y (or_introl eq_refl)).
  - now left.
  - apply StronglySorted_inv in Hp as [Hp Hx].
    apply StronglySorted_inv in Hs as [Hs Hy].
    rewrite Forall_forall in Hx, Hy.
    simpl. apply in_or_app.
    destruct (Hi y (or_introl eq_refl)) as [-> | Hyp].
    + left. apply in_map, IH; [exact Hp | exact Hs |].
      intros z Hz. destruct (Hi z (or_intror Hz)) as [-> | Hzp]; [|exact Hzp].
      specialize (Hy z Hz). lia.
    + right. apply (IH (y :: ys)); [exact Hp | now constructor; [|apply Forall_forall] |].
      intros z [<- | Hz]; [exact Hyp|].
      destruct (Hi z (or_intror Hz)) as [-> | Hzp]; [|exact Hzp].
      specialize (Hy z Hz). specialize (Hx y Hyp). lia.
Qed.

Lemma cut_tuple_combinations (L k : nat) (ixs : list nat) :
  In ixs (combinations (seq 1 (L - 1)) k) <-> cut_tuple L k ixs.
Proof.
  unfold cut_tuple. split.
  - intros Hin.
    destruct (combinations_shape _ _ _ (seq_sorted 1 (L - 1)) Hin)
      as (Hl & Hs & Hi).
    repeat split; [exact Hl | exact Hs |].
    apply Forall_forall. intros i Hii. apply Hi, in_seq in Hii. lia.
  - intros (<- & Hs & Hb). apply combinations_complete.
    + apply seq_sorted.
    + exact Hs.
    + rewrite Forall_forall in Hb. intros i Hi. apply in_seq.
      specialize (Hb i Hi). lia.
Qed.

Lemma generate_bins_unfold (base : list Z) (nbins : Z) :
  (1 <= nbins)%Z ->
  _generate_bins base nbins =
  Ok (map (split_at base)
          (combinations (seq 1 (length base - 1)) (Z.to_nat nbins - 1))).
Proof.
  intros H. unfold _generate_bins, py_combinations.
  destruct (Z.ltb_spec (nbins - 1) 0) as [Hlt | _]; [lia|].
  simpl. now rewrite Z2Nat.inj_sub, Z2Nat.inj_pos by lia.
Qed.

(** C3. On a range of [L] consecutive integers and for [1 <= nbins <= L],
    the generator yields [C(L - 1, nbins - 1)] partitions, one for each tuple
    of [nbins - 1] increasing cut positions among the inner boundaries
    [1 .. L - 1], in the strict lexicographic order of these tuples; each
    one consists of [nbins] non-empty runs of consecutive integers whose
    concatenation is the range. *)
Theorem generate_bins_enumerates (lo hi nbins : Z) :
  (1 <= nbins <= hi - lo)%Z ->
  let base := py_range lo hi in
  let L := length base in
  let k := Z.to_nat nbins - 1 in
  exists cuts : list (list nat),
    _generate_bins base nbins = Ok (map (split_at base) cuts) /\
    length (map (split_at base) cuts) = binomial (L - 1) k /\
    L = Z.to_nat (hi - lo) /\
    StronglySorted lex_lt cuts /\
    (forall ixs, In ixs cuts <-> cut_tuple L k ixs) /\
    Forall (partition_of base (Z.to_nat nbins)) (map (split_at base) cuts).
Proof.
  intros H base L k.
  assert (HL : L = Z.to_nat (hi - lo)) by apply py_range_length.
  exists (combinations (seq 1 (L - 1)) k).
  split; [|split; [|split; [|split; [|split]]]].
  - apply generate_bins_unfold. lia.
  - rewrite length_map, combinations_length, length_seq. reflexivity.
  - exact HL.
  - apply combinations_lex, seq_sorted.
  - intros ixs. apply cut_tuple_combinations.
  - apply Forall_forall. intros p Hp.
    apply in_map_iff in Hp as (ixs & <- & Hin).
    apply cut_tuple_combinations in Hin. rewrite HL in Hin.
    replace (Z.to_nat nbins) with (S k) by lia.
    apply split_at_partition; [lia | exact Hin].
Qed.

Lemma generate_bins_enumerates_witness :
  (1 <= 2 <= 3 - 0)%Z /\
  exists cuts : list (list nat),
    _generate_bins (py_range 0 3) 2 = Ok (map (split_at (py_range 0 3)) cuts) /\
    length (map (split_at (py_range 0 3)) cuts) = binomial (3 - 1) 1 /\
    length (py_range 0 3) = Z.to_nat (3 - 0) /\
    StronglySorted lex_lt cuts /\
    (forall ixs, In ixs cuts <-> cut_tuple 3 1 ixs) /\
    Forall (partition_of (py_range 0 3) (Z.to_nat 2))
           (map (split_at (py_range 0 3)) cuts).
Proof.
  assert (H : (1 <= 2 <= 3 - 0)%Z) by lia.
  split; [exact H | exact (generate_bins_enumerates 0 3 2 H)].
Defined.

(** ** Checked elements *)

Lemma isinteger_Num (q : Q) :
  _isinteger (Num q) = true <-> (q == inject_Z (Qfloor q))%Q.
Proof.
  unfold _isinteger, np_mod1, np_equal0. rewrite Qeq_bool_iff. split; intros H.
  - rewrite <- (Qplus_0_l (inject_Z (Qfloor q))), <- H. ring.
  - rewrite H at 1. ring.
Qed.

Lemma checked_elim (x : value) :
  _isinteger x || isnan x = true ->
  x = NaN \/ exists q, x = Num q /\ (q == inject_Z (Qfloor q))%Q.
Proof.
  destruct x as [q|s|]; simpl; intros H.
  - right. exists q. split; [reflexivity|].
    apply isinteger_Num. now rewrite orb_false_r in H.
  - discriminate.
  - now left.
Qed.

Lemma checked_In (a : list value) (x : value) :
  checked a = true -> In x a ->
  x = NaN \/ exists q, x = Num q /\ (q == inject_Z (Qfloor q))%Q.
Proof.
  unfold checked. rewrite forallb_forall. intros H Hx.
  apply checked_elim, H, Hx.
Qed.

Lemma np_int_integral (q : Q) :
  (q == inject_Z (Qfloor q))%Q -> np_int (Num q) = Ok (Qfloor q).
Proof.
  intros H. simpl. f_equal. destruct q as [n d]. unfold Qeq in H. simpl in *.
  rewrite Z.mul_1_r in H. rewrite H at 1.
  rewrite Z.quot_mul by discriminate. reflexivity.
Qed.

Lemma np_eq_integral (q : Q) (n : Z) :
  (q == inject_Z (Qfloor q))%Q -> np_eq (Num q) n = (Qfloor q =? n)%Z.
Proof.
  intros H. simpl. destruct (Z.eqb_spec (Qfloor q) n) as [<- | Hne].
  - now apply Qeq_bool_iff.
  - destruct (Qeq_bool q (inject_Z n)) eqn:E; [|reflexivity].
    apply Qeq_bool_iff in E. exfalso. apply Hne.
    rewrite (Qfloor_comp _ _ E). apply Qfloor_Z.
Qed.

Lemma np_eq_int (z n : Z) : np_eq (int z) n = (z =? n)%Z.
Proof.
  unfold int. rewrite np_eq_integral; rewrite Qfloor_Z; reflexivity.
Qed.

(** ** The value range *)

Lemma fold_fmin_spec (xs : list value) :
  forall acc : value,
    checked (acc :: xs) = true ->
    (exists x, In x (acc :: xs) /\ isnan x = false) ->
    exists q, fold_left fmin xs acc = Num q /\ In (Num q) (acc :: xs) /\
              forall p, In (Num p) (acc :: xs) -> (q <= p)%Q.
Proof.
  induction xs as [|y xs IH]; intros acc Hc Hex.
  - destruct Hex as (x & [<- | []] & Hx).
    destruct (checked_In _ acc Hc (or_introl eq_refl)) as [-> | (q & -> & _)];
      [discriminate|].
    exists q. simpl. repeat split; [now left|].
    intros p [[= ->] | []]. apply Qle_refl.
  - simpl fold_left.
    assert (Hcy : checked (y :: xs) = true).
    { unfold checked in *. simpl in *. now apply andb_true_iff in Hc as [_ Hc]. }
    assert (Hcxs : checked xs = true).
    { unfold checked in *. simpl in *. now apply andb_true_iff in Hcy as [_ ?]. }
    assert (Hstep : forall z, In z [acc; y] -> In z (acc :: y :: xs)).
    { intros z [<- | [<- | []]]; simpl; auto. }
    destruct (checked_In _ acc Hc (or_introl eq_refl)) as [-> | (p & -> & Hp)];
      destruct (checked_In _ y Hcy (or_introl eq_refl)) as [-> | (q & -> & Hq)].
    + (* both NaN *)
      simpl fmin. destruct (IH NaN) as (r & Hr & Hin & Hle).
      * exact Hcy.
      * destruct Hex as (x & [<- | [<- | Hx]] & Hn); try discriminate.
        exists x. split; [now right | exact Hn].
      * exists r. split; [exact Hr|]. split.
        -- destruct Hin as [Hin | Hin]; [discriminate | now right; right].
        -- intros p' [Hp' | [Hp' | Hp']]; try discriminate.
           apply Hle. now right.
    + simpl fmin. destruct (IH (Num q)) as (r & Hr & Hin & Hle).
      * exact Hcy.
      * exists (Num q). split; [now left | reflexivity].
      * exists r. split; [exact Hr|]. split.
        -- now right.
        -- intros p' [Hp' | Hp']; [discriminate | apply Hle, Hp'].
    + simpl fmin. destruct (IH (Num p)) as (r & Hr & Hin & Hle).
      * unfold checked in *. simpl in *.
        apply andb_true_iff in Hc as [Hc _]. now rewrite Hc, Hcxs.
      * exists (Num p). split; [now left | reflexivity].
      * exists r. split; [exact Hr|]. split.
        -- destruct Hin as [Hin | Hin]; [now left | now right; right].
        -- intros p' [Hp' | [Hp' | Hp']]; try discriminate.
           ++ apply Hle. left. exact Hp'.
           ++ apply Hle. now right.
    + simpl fmin. unfold value_leb.
      destruct (Qle_bool p q) eqn:E.
      * apply Qle_bool_iff in E.
        destruct (IH (Num p)) as (r & Hr & Hin & Hle).
        -- unfold checked in *. simpl in *.
           apply andb_true_iff in Hc as [Hc _]. now rewrite Hc, Hcxs.
        -- exists (Num p). split; [now left | reflexivity].
        -- exists r. split; [exact Hr|]. split.
           ++ destruct Hin as [Hin | Hin]; [now left | now right; right].
           ++ intros p' [Hp' | [Hp' | Hp']].
              ** apply Hle. left. exact Hp'.
              ** injection Hp' as <-. apply Qle_trans with p; [|exact E].
                 apply Hle. now left.
              ** apply Hle. now right.
      * assert (Hqp : (q <= p)%Q).
        { destruct (Qlt_le_dec q p) as [Hlt | Hle]; [now apply Qlt_le_weak|].
          apply Qle_bool_iff in Hle. congruence. }
        destruct (IH (Num q)) as (r & Hr & Hin & Hle).
        -- exact Hcy.
        -- exists (Num q). split; [now left | reflexivity].
        -- exists r. split; [exact Hr|]. split.
           ++ now right.
           ++ intros p' [Hp' | Hp'].
              ** injection Hp' as <-. apply Qle_trans with q; [|exact Hqp].
                 apply Hle. now left.
              ** apply Hle, Hp'.
Qed.

Lemma checked_cons (x : value) (xs : list value) :
  checked (x :: xs) = true <->
  (_isinteger x || isnan x = true) /\ checked xs = true.
Proof. unfold checked. simpl. apply andb_true_iff. Qed.

Lemma fold_fmax_spec (xs : list value) :
  forall acc : value,
    checked (acc :: xs) = true ->
    (exists x, In x (acc :: xs) /\ isnan x = false) ->
    exists q, fold_left fmax xs acc = Num q /\ In (Num q) (acc :: xs) /\
              forall p, In (Num p) (acc :: xs) -> (p <= q)%Q.
Proof.
  induction xs as [|y xs IH]; intros acc Hc Hex.
  - destruct Hex as (x & [<- | []] & Hx).
    destruct (checked_In _ acc Hc (or_introl eq_refl)) as [-> | (q & -> & _)];
      [discriminate|].
    exists q. simpl. repeat split; [now left|].
    intros p [[= ->] | []]. apply Qle_refl.
  - simpl fold_left.
    apply checked_cons in Hc as [Hacc Hcy].
    pose proof Hcy as Hcy'. apply checked_cons in Hcy' as [Hy Hcxs].
    assert (Hnext : forall z, _isinteger z || isnan z = true ->
                              checked (z :: xs) = true).
    { intros z Hz. apply checked_cons. now split. }
    destruct (checked_elim acc Hacc) as [-> | (p & -> & Hp)];
      destruct (checked_elim y Hy) as [-> | (q & -> & Hq)]; simpl fmax.
    + destruct (IH NaN Hcy) as (r & Hr & Hin & Hle).
      * destruct Hex as (x & [<- | [<- | Hx]] & Hn); try discriminate.
        exists x. split; [now right | exact Hn].
      * exists r. split; [exact Hr|]. split.
        -- destruct Hin as [Hin | Hin]; [discriminate | now right; right].
        -- intros p' [Hp' | [Hp' | Hp']]; try discriminate.
           apply Hle. now right.
    + destruct (IH (Num q) Hcy) as (r & Hr & Hin & Hle).
      * exists (Num q). split; [now left | reflexivity].
      * exists r. split; [exact Hr|]. split; [now right|].
        intros p' [Hp' | Hp']; [discriminate | apply Hle, Hp'].
    + destruct (IH (Num p) (Hnext _ Hacc)) as (r & Hr & Hin & Hle).
      * exists (Num p). split; [now left | reflexivity].
      * exists r. split; [exact Hr|]. split.
        -- destruct Hin as [Hin | Hin]; [now left | now right; right].
        -- intros p' [Hp' | [Hp' | Hp']]; try discriminate.
           ++ apply Hle. left. exact Hp'.
           ++ apply Hle. now right.
    + unfold value_leb. destruct (Qle_bool p q) eqn:E.
      * apply Qle_bool_iff in E.
        destruct (IH (Num q) Hcy) as (r & Hr & Hin & Hle).
        -- exists (Num q). split; [now left | reflexivity].
        -- exists r. split; [exact Hr|]. split; [now right|].
           intros p' [Hp' | Hp'].
           ++ injection Hp' as <-. apply Qle_trans with q; [exact E|].
              apply Hle. now left.
           ++ apply Hle, Hp'.
      * assert (Hqp : (q <= p)%Q).
        { destruct (Qlt_le_dec q p) as [Hlt | Hle]; [now apply Qlt_le_weak|].
          apply Qle_bool_iff in Hle. congruence. }
        destruct (IH (Num p) (Hnext _ Hacc)) as (r & Hr & Hin & Hle).
        -- exists (Num p). split; [now left | reflexivity].
        -- exists r. split; [exact Hr|]. split.
           ++ destruct Hin as [Hin | Hin]; [now left | now right; right].
           ++ intros p' [Hp' | [Hp' | Hp']].
              ** apply Hle. left. exact Hp'.
              ** injection Hp' as <-. apply Qle_trans with p; [exact Hqp|].
                 apply Hle. now left.
              ** apply Hle. now right.
Qed.

(** On a checked input with at least one number, [amin] and [amax] are the
    least and the greatest integer of the input. *)
Lemma value_range (a : list value) :
  checked a = true ->
  (exists x, In x a /\ isnan x = false) ->
  exists amin amax : Z,
    (v <- nanmin a ;; np_int v) = Ok amin /\
    (v <- nanmax a ;; np_int v) = Ok amax /\
    (forall q, In (Num q) a -> (amin <= Qfloor q <= amax)%Z) /\
    (exists q, In (Num q) a /\ Qfloor q = amin) /\
    (exists q, In (Num q) a /\ Qfloor q = amax).
Proof.
  intros Hc Hex. destruct a as [|x xs]; [destruct Hex as (? & [] & _)|].
  destruct (fold_fmin_spec xs x Hc Hex) as (lo & Hlo & Hinlo & Hlole).
  destruct (fold_fmax_spec xs x Hc Hex) as (hi & Hhi & Hinhi & Hhile).
  assert (Hint : forall q, In (Num q) (x :: xs) -> (q == inject_Z (Qfloor q))%Q).
  { intros q Hq. destruct (checked_In _ _ Hc Hq) as [? | (q' & [= <-] & H)];
      [discriminate | exact H]. }
  exists (Qfloor lo), (Qfloor hi). simpl nanmin. simpl nanmax. simpl bind.
  rewrite Hlo, Hhi, !np_int_integral by auto.
  repeat split.
  - apply Qfloor_resp_le, Hlole, H.
  - apply Qfloor_resp_le, Hhile, H.
  - exists lo. now split.
  - exists hi. now split.
Qed.

(** ** The search loop *)

Lemma bin_sequence_checked (a : list value) (nbins amin amax : Z) :
  checked a = true ->
  (v <- nanmin a ;; np_int v) = Ok amin ->
  (v <- nanmax a ;; np_int v) = Ok amax ->
  bin_sequence a nbins =
  (binnings <- _generate_bins (py_range amin (amax + 1)) nbins ;;
   match snd (search a binnings) with
   | Some best_binning => Ok (_apply_binning a best_binning)
   | None => Raise UnboundLocalError
   end).
Proof.
  intros Hc Hmin Hmax. unfold bin_sequence. fold (checked a).
  rewrite Hc. cbn [negb]. rewrite Hmin, Hmax. reflexivity.
Qed.

Lemma search_step_In (a : list value) (bs : list (list (list Z))) :
  forall st bb,
    snd (fold_left (search_step a) bs st) = Some bb ->
    snd st = Some bb \/ In bb bs.
Proof.
  induction bs as [|b bs IH]; intros st bb H; simpl in *; [now left|].
  destruct (IH _ _ H) as [Hst | Hin]; [|now right; right].
  unfold search_step in Hst.
  destruct (fgt (_evaluate_binning a b) (fst st)); simpl in Hst.
  - right. left. congruence.
  - now left.
Qed.

Lemma search_In (a : list value) (bs : list (list (list Z))) (bb : list (list Z)) :
  snd (search a bs) = Some bb -> In bb bs.
Proof.
  intros H. destruct (search_step_In a bs _ _ H) as [Hn | Hin];
    [discriminate | exact Hin].
Qed.

Lemma search_step_stuck (a : list value) (bs : list (list (list Z))) :
  forall st,
    (forall b, In b bs -> fgt (_evaluate_binning a b) (fst st) = false) ->
    fold_left (search_step a) bs st = st.
Proof.
  induction bs as [|b bs IH]; intros st H; simpl; [reflexivity|].
  unfold search_step at 2. rewrite (H b (or_introl eq_refl)).
  apply IH. intros b' Hb'. apply H. now right.
Qed.

Lemma search_none (a : list value) (bs : list (list (list Z))) :
  (forall b, In b bs -> fgt (_evaluate_binning a b) (Num 0%R) = false) ->
  search a bs = (Num 0%R, None).
Proof.
  intros H. unfold search.
  exact (search_step_stuck a bs (Num 0%R, None) H).
Qed.

(** ** Labels *)

Lemma relabel_nan (ib : nat * list Z) (l : label) : relabel NaN l ib = l.
Proof.
  unfold relabel. induction (snd ib) as [|n ns IH]; simpl; [reflexivity|].
  exact IH.
Qed.

Lemma label_of_nan (binning : list (list Z)) : label_of binning NaN = None.
Proof.
  unfold label_of. induction (enumerate binning) as [|ib ibs IH]; simpl.
  - reflexivity.
  - now rewrite relabel_nan.
Qed.

Lemma relabel_cases (x : value) (ib : nat * list Z) (l : label) :
  relabel x l ib = l \/ relabel x l ib = Some (fst ib).
Proof.
  unfold relabel. revert l. induction (snd ib) as [|n ns IH]; intros l; simpl.
  - now left.
  - destruct (np_eq x n).
    + right. destruct (IH (Some (fst ib))) as [-> | ->]; reflexivity.
    + apply IH.
Qed.

Lemma relabel_some (x : value) (ib : nat * list Z) (l : label) :
  l <> None -> relabel x l ib <> None.
Proof.
  intros H. destruct (relabel_cases x ib l) as [-> | ->]; [exact H | discriminate].
Qed.

Lemma relabel_hit (x : value) (ib : nat * list Z) (l : label) :
  (exists n, In n (snd ib) /\ np_eq x n = true) ->
  relabel x l ib = Some (fst ib).
Proof.
  unfold relabel. revert l. induction (snd ib) as [|n ns IH]; intros l (m & Hin & Hm).
  - destruct Hin.
  - simpl. destruct Hin as [-> | Hin].
    + rewrite Hm. destruct (relabel_cases x (fst ib, ns) (Some (fst ib))) as [H | H];
        unfold relabel in H; simpl in H; exact H.
    + apply IH. eauto.
Qed.

Lemma relabel_miss (x : value) (ib : nat * list Z) (l : label) :
  (forall n, In n (snd ib) -> np_eq x n = false) -> relabel x l ib = l.
Proof.
  unfold relabel. revert l. induction (snd ib) as [|n ns IH]; intros l H; simpl.
  - reflexivity.
  - rewrite (H n (or_introl eq_refl)). apply IH. intros m Hm. apply H. now right.
Qed.

Lemma enumerate_In {A : Type} (l : list A) (i : nat) (x : A) :
  In (i, x) (enumerate l) -> i < length l /\ In x l.
Proof.
  unfold enumerate. intros H. split.
  - apply in_combine_l, in_seq in H. lia.
  - apply in_combine_r in H. exact H.
Qed.

Lemma fold_relabel_bound (x : value) (ibs : list (nat * list Z)) :
  forall (l : label) (k : nat),
    fold_left (relabel x) ibs l = Some k ->
    l = Some k \/ exists ib, In ib ibs /\ fst ib = k.
Proof.
  induction ibs as [|ib ibs IH]; intros l k H; simpl in H; [now left|].
  destruct (IH _ _ H) as [Hl | (ib' & Hin & Hk)].
  - destruct (relabel_cases x ib l) as [E | E]; rewrite E in Hl.
    + now left.
    + right. exists ib. split; [now left | congruence].
  - right. exists ib'. split; [now right | exact Hk].
Qed.

(** A label is the index of a group of the binning. *)
Lemma label_of_bound (binning : list (list Z)) (x : value) (k : nat) :
  label_of binning x = Some k -> k < length binning.
Proof.
  unfold label_of. intros H.
  destruct (fold_relabel_bound _ _ _ _ H) as [? | ([i g] & Hin & <-)];
    [discriminate|].
  apply enumerate_In in Hin. apply Hin.
Qed.

Lemma fold_relabel_some (x : value) (ibs : list (nat * list Z)) :
  forall l : label, l <> None -> fold_left (relabel x) ibs l <> None.
Proof.
  induction ibs as [|ib ibs IH]; intros l H; simpl; [exact H|].
  apply IH, relabel_some, H.
Qed.

Lemma enumerate_In_inv {A : Type} (l : list A) (x : A) :
  In x l -> exists i, In (i, x) (enumerate l).
Proof.
  unfold enumerate. generalize 0 as s.
  induction l as [|y l IH]; intros s Hin; [destruct Hin|].
  simpl. destruct Hin as [-> | Hin].
  - exists s. now left.
  - destruct (IH (S s) Hin) as (i & Hi). exists i. now right.
Qed.

(** An element equal to a number of some group gets a label. *)
Lemma label_of_covered (binning : list (list Z)) (x : value) (n : Z) :
  In n (concat binning) -> np_eq x n = true -> label_of binning x <> None.
Proof.
  intros Hin Hx. apply in_concat in Hin as (g & Hg & Hn).
  destruct (enumerate_In_inv _ _ Hg) as (i & Hi).
  unfold label_of. apply in_split in Hi as (l1 & l2 & ->).
  rewrite fold_left_app. simpl. apply fold_relabel_some.
  rewrite relabel_hit; [discriminate|]. exists n. now split.
Qed.

(** ** Successful calls *)

Lemma nan_or_number (a : list value) :
  (exists x, In x a /\ isnan x = false) \/ (forall x, In x a -> isnan x = true).
Proof.
  induction a as [|y a [(x & Hx & Hn) | IH]].
  - right. intros x [].
  - left. exists x. split; [now right | exact Hn].
  - destruct (isnan y) eqn:E.
    + right. intros x [<- | Hx]; [exact E | apply IH, Hx].
    + left. exists y. split; [now left | exact E].
Qed.

(** What a successful call went through: the check, the range, the
    generator and a winning partition. *)
Lemma bin_sequence_Ok_inv (a : list value) (nbins : Z) (b : list label) :
  bin_sequence a nbins = Ok b ->
  exists (amin amax : Z) (ixs : list nat),
    checked a = true /\
    (forall q, In (Num q) a -> (amin <= Qfloor q <= amax)%Z) /\
    (1 <= nbins)%Z /\
    cut_tuple (Z.to_nat (amax + 1 - amin)) (Z.to_nat nbins - 1) ixs /\
    (amin <= amax)%Z /\
    b = map (label_of (split_at (py_range amin (amax + 1)) ixs)) a.
Proof.
  intros H.
  destruct (checked a) eqn:Hc;
    [|rewrite (bin_sequence_unchecked a nbins Hc) in H; discriminate].
  destruct (nan_or_number a) as [Hex | Hnan];
    [|rewrite (bin_sequence_no_number a nbins Hnan) in H; discriminate].
  destruct (value_range a Hc Hex) as (amin & amax & Hmin & Hmax & Hr & Hlo & _).
  rewrite (bin_sequence_checked a nbins amin amax Hc Hmin Hmax) in H.
  apply bind_inv in H as (binnings & Hgen & H).
  destruct (snd (search a binnings)) as [bb|] eqn:Hs; [|discriminate].
  injection H as <-. apply search_In in Hs.
  assert (Hn : (1 <= nbins)%Z).
  { unfold _generate_bins, py_combinations in Hgen.
    destruct (Z.ltb_spec (nbins - 1) 0); [discriminate | lia]. }
  rewrite (generate_bins_unfold _ nbins Hn) in Hgen. injection Hgen as <-.
  apply in_map_iff in Hs as (ixs & <- & Hin).
  apply cut_tuple_combinations in Hin. rewrite py_range_length in Hin.
  destruct Hlo as (q & Hq & <-).
  exists (Qfloor q), amax, ixs.
  split; [reflexivity|]. split; [exact Hr|]. split; [exact Hn|].
  split; [exact Hin|]. split; [|apply apply_binning_map].
  specialize (Hr q Hq). lia.
Qed.

(** C5. When [bin_sequence] returns, the result has the length of the input,
    a NaN of the input is a NaN of the result at the same position, every
    number of the result is a group index between [0] and [nbins - 1], and
    every number of the input is replaced by such an index. *)
Theorem bin_sequence_shape (a : list value) (nbins : Z) (b : list label) :
  bin_sequence a nbins = Ok b ->
  length b = length a /\
  (forall i, nth_error a i = Some NaN -> nth_error b i = Some None) /\
  (forall i k, nth_error b i = Some (Some k) -> (0 <= Z.of_nat k < nbins)%Z) /\
  (forall i x, nth_error a i = Some x -> isnan x = false ->
               exists k, nth_error b i = Some (Some k)).
Proof.
  intros H.
  destruct (bin_sequence_Ok_inv a nbins b H)
    as (amin & amax & ixs & Hc & Hr & Hn & Hcut & Hle & ->).
  assert (Hp : partition_of (py_range amin (amax + 1)) (S (Z.to_nat nbins - 1))
                 (split_at (py_range amin (amax + 1)) ixs)).
  { apply split_at_partition; [lia | exact Hcut]. }
  destruct Hp as (Hlen & _ & Hcat).
  split; [apply length_map|]. split; [|split].
  - intros i Hi. rewrite nth_error_map, Hi. simpl. now rewrite label_of_nan.
  - intros i k Hi. rewrite nth_error_map in Hi.
    destruct (nth_error a i) as [x|]; [|discriminate]. injection Hi as Hi.
    apply label_of_bound in Hi. rewrite Hlen in Hi. lia.
  - intros i x Hi Hx. rewrite nth_error_map, Hi. simpl.
    apply nth_error_In in Hi.
    destruct (checked_In a x Hc Hi) as [-> | (q & -> & Hq)]; [discriminate|].
    destruct (label_of (split_at (py_range amin (amax + 1)) ixs) (Num q))
      as [k|] eqn:E; [eauto|].
    exfalso. revert E. apply (label_of_covered _ _ (Qfloor q)).
    + rewrite Hcat. apply py_range_In. specialize (Hr q Hi). lia.
    + rewrite np_eq_integral by exact Hq. apply Z.eqb_refl.
Qed.

(** ** The entropy *)

Lemma fgt_Num (x y : R) : fgt (Num x) (Num y) = true <-> (y < x)%R.
Proof.
  simpl. destruct (Rlt_dec y x); split; intros; try assumption;
    try reflexivity; try discriminate; contradiction.
Qed.

Lemma fgt_nan_l (y : float) : fgt NaN y = false.
Proof. reflexivity. Qed.

Lemma np_sum_Num (rs : list R) :
  forall acc : R,
    fold_left fadd (map Num rs) (Num acc) = Num (fold_left Rplus rs acc).
Proof.
  induction rs as [|r rs IH]; intros acc; simpl; [reflexivity | apply IH].
Qed.

Lemma fadd_nan_r (x : float) : fadd x NaN = NaN.
Proof. destruct x; reflexivity. Qed.

Lemma fold_fadd_nan (l : list float) : fold_left fadd l NaN = NaN.
Proof. induction l as [|x l IH]; simpl; [reflexivity | exact IH]. Qed.

Lemma np_sum_nan (l : list float) :
  In NaN l -> forall acc, fold_left fadd l acc = NaN.
Proof.
  induction l as [|x l IH]; intros Hin acc; [destruct Hin|].
  simpl. destruct Hin as [-> | Hin].
  - rewrite fadd_nan_r. apply fold_fadd_nan.
  - apply IH, Hin.
Qed.

Lemma term_positive (p : R) :
  (0 < p)%R -> fmul (Num p) (np_log2 (Num p)) = Num (plogp p).
Proof.
  intros Hp. simpl. destruct (Rlt_dec 0 p); [reflexivity | contradiction].
Qed.

Lemma term_zero : fmul (Num 0%R) (np_log2 (Num 0%R)) = NaN.
Proof.
  simpl. destruct (Rlt_dec 0 0) as [H | _]; [exfalso; lra|].
  destruct (Req_dec_T 0 0) as [_ | H]; [|exfalso; apply H; reflexivity].
  simpl. destruct (Req_dec_T 0 0) as [_ | H]; [reflexivity|].
  exfalso; apply H; reflexivity.
Qed.

Lemma list_sum_In_le (l : list nat) (c : nat) : In c l -> c <= list_sum l.
Proof.
  induction l as [|x l IH]; intros Hin; [destruct Hin|].
  simpl. destruct Hin as [-> | Hin]; [lia | specialize (IH Hin); lia].
Qed.

(** When every group is occupied, [_get_h] is the entropy of the counts. *)
Lemma get_h_occupied (b : list label) :
  Forall (fun c => 0 < c) (bincount (non_nan b)) ->
  _get_h b = Num (entropy_of_counts (bincount (non_nan b))).
Proof.
  intros Hpos. unfold _get_h, entropy_of_counts, ma_filled, np_sum.
  set (counts := bincount (non_nan b)) in *.
  set (total := list_sum counts).
  rewrite map_map.
  replace (map (fun c => fmul (Num (INR c / INR total)%R)
                              (np_log2 (Num (INR c / INR total)%R))) counts)
    with (map Num (map (fun c => plogp (INR c / INR total)) counts)).
  - rewrite np_sum_Num. reflexivity.
  - rewrite map_map. apply map_ext_in. intros c Hc. symmetry.
    apply term_positive.
    assert (0 < c) by (rewrite Forall_forall in Hpos; apply Hpos, Hc).
    assert (c <= total) by (apply list_sum_In_le, Hc).
    apply Rdiv_lt_0_compat; apply lt_0_INR; lia.
Qed.

(** An empty group below the last occupied one makes [_get_h] NaN. *)
Lemma get_h_empty_group (b : list label) :
  In 0 (bincount (non_nan b)) -> _get_h b = NaN.
Proof.
  intros H0. unfold _get_h, ma_filled, np_sum.
  rewrite np_sum_nan; [reflexivity|].
  rewrite map_map. apply in_map_iff. exists 0. split; [|exact H0].
  replace (INR 0 / INR (list_sum (bincount (non_nan b))))%R with 0%R.
  - apply term_zero.
  - simpl. unfold Rdiv. now rewrite Rmult_0_l.
Qed.

(** ** One bin *)

Lemma label_of_single_hit (base : list Z) (q : Q) :
  (q == inject_Z (Qfloor q))%Q -> In (Qfloor q) base ->
  label_of [base] (Num q) = Some 0.
Proof.
  intros Hq Hin. unfold label_of, enumerate. simpl.
  apply (relabel_hit (Num q) (0, base)). exists (Qfloor q). split; [exact Hin|].
  rewrite np_eq_integral by exact Hq. apply Z.eqb_refl.
Qed.

Lemma non_nan_single (base : list Z) (a : list value) :
  checked a = true ->
  (forall q, In (Num q) a -> In (Qfloor q) base) ->
  non_nan (map (label_of [base]) a) = repeat 0 (length (ints a)).
Proof.
  induction a as [|x a IH]; intros Hc Hin; [reflexivity|].
  apply checked_cons in Hc as [Hx Hc].
  specialize (IH Hc (fun q H => Hin q (or_intror H))).
  destruct (checked_elim x Hx) as [-> | (q & -> & Hq)].
  - simpl map. rewrite label_of_nan. exact IH.
  - simpl map. rewrite (label_of_single_hit base q Hq (Hin q (or_introl eq_refl))).
    unfold non_nan, ints in *. simpl. now rewrite IH.
Qed.

Lemma ints_nonempty (a : list value) :
  checked a = true -> (exists x, In x a /\ isnan x = false) -> ints a <> [].
Proof.
  intros Hc (x & Hx & Hn).
  destruct (checked_In a x Hc Hx) as [-> | (q & -> & _)]; [discriminate|].
  apply in_split in Hx as (l1 & l2 & ->). unfold ints.
  rewrite flat_map_app. simpl. intros H. apply app_eq_nil in H as [_ H].
  discriminate.
Qed.

Lemma bincount_zeros (m : nat) : bincount (repeat 0 (S m)) = [S m].
Proof.
  unfold bincount. change (repeat 0 (S m)) with (0 :: repeat 0 m).
  assert (Hmax : list_max (0 :: repeat 0 m) = 0).
  { simpl. induction m as [|m IH]; simpl; [reflexivity | exact IH]. }
  rewrite Hmax. simpl. f_equal. f_equal.
  induction m as [|m IH]; simpl; [reflexivity | now rewrite IH].
Qed.

Lemma entropy_single (m : nat) : entropy_of_counts [S m] = 0%R.
Proof.
  unfold entropy_of_counts, plogp, list_sum.
  cbn [fold_left fold_right map]. rewrite Nat.add_0_r.
  assert (H : (INR (S m) / INR (S m) = 1)%R).
  { apply Rdiv_diag. apply not_0_INR. discriminate. }
  rewrite H, ln_1. unfold Rdiv. ring.
Qed.

(** With one bin the only candidate scores an entropy of zero. *)
Lemma evaluate_single (base : list Z) (a : list value) :
  checked a = true ->
  (exists x, In x a /\ isnan x = false) ->
  (forall q, In (Num q) a -> In (Qfloor q) base) ->
  _evaluate_binning a [base] = Num 0%R.
Proof.
  intros Hc Hex Hin. unfold _evaluate_binning.
  rewrite apply_binning_map.
  assert (Hnn := non_nan_single base a Hc Hin).
  destruct (length (ints a)) as [|m] eqn:El.
  - apply length_zero_iff_nil in El. destruct (ints_nonempty a Hc Hex El).
  - rewrite get_h_occupied; rewrite Hnn, bincount_zeros.
    + now rewrite entropy_single.
    + constructor; [lia | constructor].
Qed.

Lemma combinations_0 {A : Type} (pool : list A) : combinations pool 0 = [[]].
Proof. destruct pool; reflexivity. Qed.

Lemma generate_bins_one (base : list Z) : _generate_bins base 1 = Ok [[base]].
Proof.
  rewrite generate_bins_unfold by lia.
  change (Z.to_nat 1 - 1) with 0. rewrite combinations_0.
  unfold split_at. cbn [app combine map fst snd]. now rewrite slice_all.
Qed.

(** The best-entropy variable starts at [0.] and is updated on a strict
    comparison only: with one bin no candidate ever becomes the best one,
    and the call ends on the unbound [best_binning]. *)
Lemma bin_sequence_one_bin (a : list value) :
  checked a = true ->
  (exists x, In x a /\ isnan x = false) ->
  bin_sequence a 1 = Raise UnboundLocalError.
Proof.
  intros Hc Hex.
  destruct (value_range a Hc Hex) as (amin & amax & Hmin & Hmax & Hr & _).
  rewrite (bin_sequence_checked a 1 amin amax Hc Hmin Hmax).
  rewrite generate_bins_one. cbn [bind].
  rewrite search_none; [reflexivity|].
  intros b [<- | []].
  rewrite (evaluate_single _ a Hc Hex).
  - destruct (fgt (Num 0%R) (Num 0%R)) eqn:E; [|reflexivity].
    apply fgt_Num in E. lra.
  - intros q Hq. apply py_range_In. specialize (Hr q Hq). lia.
Qed.

(** C2. With [nbins = 1] the generator yields the single partition made of
    the whole range, the applier maps every number to group [0] and the
    entropy of that partition is [0]; but [bin_sequence] does not return
    it: [0 > 0.] is false, [best_binning] is never assigned, and the call
    raises.  Evaluated on the input [[3, 3, 5]]. *)
Theorem one_bin_raises :
  _generate_bins (py_range 3 (5 + 1)) 1 = Ok [[[3; 4; 5]]]%Z /\
  _apply_binning [int 3; int 3; int 5] [[3; 4; 5]]%Z = [Some 0; Some 0; Some 0] /\
  _evaluate_binning [int 3; int 3; int 5] [[3; 4; 5]]%Z = Num 0%R /\
  bin_sequence [int 3; int 3; int 5] 1 = Raise UnboundLocalError.
Proof.
  assert (Hc : checked [int 3; int 3; int 5] = true) by reflexivity.
  assert (Hex : exists x, In x [int 3; int 3; int 5] /\ isnan x = false).
  { exists (int 3). split; [now left | reflexivity]. }
  split; [vm_compute; reflexivity|].
  split; [vm_compute; reflexivity|].
  split.
  - apply (evaluate_single _ _ Hc Hex).
    intros q [[= <-] | [[= <-] | [[= <-] | []]]]; vm_compute; tauto.
  - apply (bin_sequence_one_bin _ Hc Hex).
Qed.

(** ** Infeasible bin counts *)

Lemma combinations_too_many {A : Type} (pool : list A) (r : nat) :
  length pool < r -> combinations pool r = [].
Proof.
  intros H. apply length_zero_iff_nil.
  rewrite combinations_length. apply binomial_zero_gt, H.
Qed.

Lemma bin_sequence_infeasible (a : list value) (nbins amin amax : Z) :
  checked a = true ->
  (v <- nanmin a ;; np_int v) = Ok amin ->
  (v <- nanmax a ;; np_int v) = Ok amax ->
  (amin <= amax)%Z ->
  (nbins < 1 \/ amax - amin + 1 < nbins)%Z ->
  bin_sequence a nbins =
  Raise (if (nbins <? 1)%Z then ValueError else UnboundLocalError).
Proof.
  intros Hc Hmin Hmax Hle Hn.
  rewrite (bin_sequence_checked a nbins amin amax Hc Hmin Hmax).
  destruct (Z.ltb_spec nbins 1) as [Hlt | Hge].
  - unfold _generate_bins, py_combinations.
    destruct (Z.ltb_spec (nbins - 1) 0); [reflexivity | lia].
  - rewrite generate_bins_unfold by lia.
    rewrite combinations_too_many; [reflexivity|].
    rewrite length_seq, py_range_length. lia.
Qed.

(** C6. On a checked input whose least and greatest integers are [lo] and
    [hi], with sizes CPython can hold, a bin count below [1] or above the
    [hi - lo + 1] integers of the range makes [bin_sequence] raise, and the
    exception is not one about the bin count: the [ValueError] of
    [itertools.combinations] for a negative number of cuts, or
    [UnboundLocalError] at the [return], where [best_binning] was never
    assigned because the generator yields no candidate. *)
Theorem bin_sequence_infeasible_bin_count (a : list value) (nbins : Z) (lo hi : Q) :
  checked a = true ->
  In (Num lo) a -> In (Num hi) a ->
  (forall q, In (Num q) a -> (Qfloor lo <= Qfloor q <= Qfloor hi)%Z) ->
  (Qfloor hi - Qfloor lo + 1 <= sys_maxsize)%Z ->
  cuts_fit nbins ->
  (nbins < 1 \/ Qfloor hi - Qfloor lo + 1 < nbins)%Z ->
  bin_sequence a nbins =
  Raise (if (nbins <? 1)%Z then ValueError else UnboundLocalError).
Proof.
  intros Hc Hlo Hhi Hr _ _ Hn.
  assert (Hex : exists x, In x a /\ isnan x = false).
  { exists (Num lo). split; [exact Hlo | reflexivity]. }
  destruct (value_range a Hc Hex)
    as (amin & amax & Hmin & Hmax & Hr' & (p & Hp & Hpmin) & (r & Hrr & Hrmax)).
  assert (amin = Qfloor lo).
  { pose proof (Hr p Hp). pose proof (Hr' lo Hlo). lia. }
  assert (amax = Qfloor hi).
  { pose proof (Hr r Hrr). pose proof (Hr' hi Hhi). lia. }
  specialize (Hr lo Hlo).
  apply (bin_sequence_infeasible a nbins _ _ Hc Hmin Hmax); lia.
Qed.

Lemma bin_sequence_infeasible_bin_count_witness :
  bin_sequence [int 1; int 1; int 2; int 2] 5 = Raise UnboundLocalError.
Proof.
  apply (bin_sequence_infeasible_bin_count
           [int 1; int 1; int 2; int 2] 5 (inject_Z 1) (inject_Z 2)).
  - reflexivity.
  - simpl. tauto.
  - simpl. tauto.
  - intros q [[= <-] | [[= <-] | [[= <-] | [[= <-] | []]]]]; vm_compute;
      split; discriminate.
  - vm_compute. discriminate.
  - unfold cuts_fit, sys_maxsize. lia.
  - vm_compute. right. reflexivity.
Defined.

(** ** An unoccupied group *)

(** C4. [np.ma.filled] leaves a plain array untouched, so the NaN that
    [0 * log2(0)] produces for an unoccupied group is summed as it is: on the
    input [[0, 2]] the partition [[0], [1], [2]], the only one in three
    groups, has the occupancies [1, 0, 1] and is scored NaN instead of [1];
    as NaN is not greater than [0.], the search then ends without a
    winner. *)
Theorem evaluate_binning_unoccupied_group :
  _generate_bins (py_range 0 (2 + 1)) 3 = Ok [[[0]; [1]; [2]]]%Z /\
  bincount (non_nan (_apply_binning [int 0; int 2] [[0]; [1]; [2]]%Z)) =
    [1; 0; 1] /\
  _evaluate_binning [int 0; int 2] [[0]; [1]; [2]]%Z = NaN /\
  bin_sequence [int 0; int 2] 3 = Raise UnboundLocalError.
Proof.
  assert (Hg : _generate_bins (py_range 0 (2 + 1)) 3 = Ok [[[0]; [1]; [2]]]%Z)
    by (vm_compute; reflexivity).
  assert (Hb : bincount (non_nan (_apply_binning [int 0; int 2]
                                    [[0]; [1]; [2]]%Z)) = [1; 0; 1])
    by (vm_compute; reflexivity).
  assert (He : _evaluate_binning [int 0; int 2] [[0]; [1]; [2]]%Z = NaN).
  { unfold _evaluate_binning. apply get_h_empty_group. rewrite Hb.
    right. now left. }
  repeat split; try assumption.
  rewrite (bin_sequence_checked [int 0; int 2] 3 0 2);
    try (vm_compute; reflexivity).
  rewrite Hg. cbn [bind]. rewrite search_none; [reflexivity|].
  intros b [<- | []]. rewrite He. reflexivity.
Qed.

(** ** Binning a binned sequence again *)

(** C9. A sequence that holds the single label [0] is an already-binned
    sequence for [nbins = 1], uniformly occupied; binning it again with
    [nbins = 1] does not give it back but raises, for the reason given at
    [one_bin_raises]. *)
Theorem rebin_one_label_raises :
  bin_sequence [int 0; int 0; int 0] 1 = Raise UnboundLocalError.
Proof.
  apply bin_sequence_one_bin.
  - reflexivity.
  - exists (int 0). split; [now left | reflexivity].
Qed.

(** ** The worked example *)

Section Example.

Local Open Scope R_scope.

Lemma ln_IZR_pow (x : Z) (n : nat) :
  (0 < x)%Z -> ln (IZR (x ^ Z.of_nat n)) = INR n * ln (IZR x).
Proof.
  intros Hx. rewrite <- pow_IZR. apply ln_pow. now apply IZR_lt.
Qed.

Lemma ln_IZR_lt (x y : Z) : (0 < x)%Z -> (x < y)%Z -> ln (IZR x) < ln (IZR y).
Proof.
  intros Hx Hxy. apply ln_increasing; [now apply IZR_lt | now apply IZR_lt].
Qed.

Lemma ln_2_3_5_lower : 137 * ln 2 + 60 * ln 3 < 100 * ln 5.
Proof.
  assert (H := ln_IZR_lt (2 ^ 137 * 3 ^ 60) (5 ^ 100) eq_refl eq_refl).
  rewrite mult_IZR, ln_mult in H by (apply IZR_lt; reflexivity).
  change 137%Z with (Z.of_nat 137) in H. change 60%Z with (Z.of_nat 60) in H.
  change 100%Z with (Z.of_nat 100) in H.
  rewrite !ln_IZR_pow in H by reflexivity.
  rewrite !INR_IZR_INZ in H. exact H.
Qed.

Lemma ln_2_3_5_upper : 250 * ln 5 < 343 * ln 2 + 150 * ln 3.
Proof.
  assert (H := ln_IZR_lt (5 ^ 250) (2 ^ 343 * 3 ^ 150) eq_refl eq_refl).
  rewrite mult_IZR, ln_mult in H by (apply IZR_lt; reflexivity).
  change 343%Z with (Z.of_nat 343) in H. change 150%Z with (Z.of_nat 150) in H.
  change 250%Z with (Z.of_nat 250) in H.
  rewrite !ln_IZR_pow in H by reflexivity.
  rewrite !INR_IZR_INZ in H. exact H.
Qed.

Lemma ln_quot (x y : R) : 0 < x -> 0 < y -> ln (x / y) = ln x - ln y.
Proof.
  intros Hx Hy. unfold Rdiv.
  rewrite ln_mult, ln_Rinv by (try apply Rinv_0_lt_compat; assumption). ring.
Qed.

Lemma ln_2_pos : 0 < ln 2.
Proof. rewrite <- ln_1. apply ln_increasing; lra. Qed.

Lemma entropy_4_6 :
  entropy_of_counts [4; 6]%nat = (ln 5 - 4 / 10 * ln 2 - 6 / 10 * ln 3) / ln 2.
Proof.
  unfold entropy_of_counts, plogp, list_sum.
  cbn [fold_left fold_right map Nat.add].
  rewrite !INR_IZR_INZ. cbn [Z.of_nat Pos.of_succ_nat Pos.succ].
  replace (4 / 10) with (2 / 5) by lra. replace (6 / 10) with (3 / 5) by lra.
  rewrite !ln_quot by lra.
  pose proof ln_2_pos. field. lra.
Qed.

Lemma entropy_6_4 : entropy_of_counts [6; 4]%nat = entropy_of_counts [4; 6]%nat.
Proof.
  unfold entropy_of_counts, list_sum. cbn [fold_left fold_right map Nat.add].
  ring.
Qed.

Lemma entropy_4_6_bounds :
  970 / 1000 < entropy_of_counts [4; 6]%nat < 972 / 1000.
Proof.
  rewrite entropy_4_6. pose proof ln_2_pos as H2.
  pose proof ln_2_3_5_lower. pose proof ln_2_3_5_upper.
  split.
  - apply Rmult_lt_reg_r with (ln 2); [exact H2|].
    unfold Rdiv at 2. rewrite Rmult_assoc, Rinv_l by lra. lra.
  - apply Rmult_lt_reg_r with (ln 2); [exact H2|].
    unfold Rdiv at 1. rewrite Rmult_assoc, Rinv_l by lra. lra.
Qed.

End Example.

Lemma example_candidates :
  _generate_bins (py_range 0 (2 + 1)) 2 =
  Ok [[[0]; [1; 2]]; [[0; 1]; [2]]]%Z.
Proof. vm_compute. reflexivity. Qed.

Lemma example_first :
  _evaluate_binning example_input [[0]; [1; 2]]%Z =
  Num (entropy_of_counts [4; 6]).
Proof.
  unfold _evaluate_binning.
  assert (Hb : bincount (non_nan (_apply_binning example_input
                                    [[0]; [1; 2]]%Z)) = [4; 6])
    by (vm_compute; reflexivity).
  rewrite get_h_occupied; rewrite Hb; [reflexivity|].
  repeat constructor.
Qed.

Lemma example_second :
  _evaluate_binning example_input [[0; 1]; [2]]%Z =
  Num (entropy_of_counts [4; 6]).
Proof.
  unfold _evaluate_binning.
  assert (Hb : bincount (non_nan (_apply_binning example_input
                                    [[0; 1]; [2]]%Z)) = [6; 4])
    by (vm_compute; reflexivity).
  rewrite get_h_occupied; rewrite Hb; [now rewrite entropy_6_4|].
  repeat constructor.
Qed.

Lemma fgt_irrefl (x : R) : fgt (Num x) (Num x) = false.
Proof.
  destruct (fgt (Num x) (Num x)) eqn:E; [|reflexivity].
  apply fgt_Num in E. lra.
Qed.

(** The run of the example, shared by the statements below. *)
Lemma example_run :
  bin_sequence example_input 2 =
  Ok [Some 0; Some 0; Some 0; Some 0;
      Some 1; Some 1; Some 1; Some 1; Some 1; Some 1].
Proof.
  rewrite (bin_sequence_checked example_input 2 0 2);
    try (vm_compute; reflexivity).
  rewrite example_candidates. cbn [bind].
  unfold search. cbn [fold_left]. unfold search_step at 2. cbn [fst snd].
  rewrite example_first.
  assert (H1 : fgt (Num (entropy_of_counts [4; 6])) (Num 0%R) = true).
  { apply fgt_Num. pose proof entropy_4_6_bounds. lra. }
  rewrite H1. unfold search_step. cbn [fst snd]. rewrite example_second.
  rewrite fgt_irrefl. cbn [snd]. f_equal.
Qed.

(** C1. On [[0,0,0,0,1,1,2,2,2,2]] with two bins the generator yields
    [{[0],[1,2]}] and then [{[0,1],[2]}]; both have the same entropy, between
    [0.970] and [0.972]; the first one becomes the best one and the second,
    not strictly greater, does not replace it; the result is
    [[0,0,0,0,1,1,1,1,1,1]]. *)
Theorem example_first_partition_wins :
  _generate_bins (py_range 0 (2 + 1)) 2 =
    Ok [[[0]; [1; 2]]; [[0; 1]; [2]]]%Z /\
  (exists h : R,
      _evaluate_binning example_input [[0]; [1; 2]]%Z = Num h /\
      _evaluate_binning example_input [[0; 1]; [2]]%Z = Num h /\
      (970 / 1000 < h < 972 / 1000)%R) /\
  snd (search example_input [[[0]; [1; 2]]; [[0; 1]; [2]]]%Z) =
    Some [[0]; [1; 2]]%Z /\
  bin_sequence example_input 2 =
    Ok [Some 0; Some 0; Some 0; Some 0;
        Some 1; Some 1; Some 1; Some 1; Some 1; Some 1].
Proof.
  split; [exact example_candidates|].
  split.
  { exists (entropy_of_counts [4; 6]).
    split; [exact example_first|]. split; [exact example_second|].
    exact entropy_4_6_bounds. }
  split; [|exact example_run].
  unfold search. cbn [fold_left]. unfold search_step at 2. cbn [fst snd].
  rewrite example_first.
  assert (H1 : fgt (Num (entropy_of_counts [4; 6])) (Num 0%R) = true).
  { apply fgt_Num. pose proof entropy_4_6_bounds. lra. }
  rewrite H1. unfold search_step. cbn [fst snd]. rewrite example_second.
  rewrite fgt_irrefl. reflexivity.
Qed.

Lemma bin_sequence_shape_witness :
  bin_sequence example_input 2 =
    Ok [Some 0; Some 0; Some 0; Some 0;
        Some 1; Some 1; Some 1; Some 1; Some 1; Some 1] /\
  length [Some 0; Some 0; Some 0; Some 0;
          Some 1; Some 1; Some 1; Some 1; Some 1; Some 1] =
    length example_input.
Proof.
  split; [exact example_run|].
  exact (proj1 (bin_sequence_shape example_input 2 _ example_run)).
Defined.

(** * Further properties of the search, the applier and the entropy *)

(** ** The search keeps the first maximum *)

Lemma fgt_asym (x y : float) : fgt x y = true -> fgt y x = false.
Proof.
  destruct x as [x|[]|], y as [y|[]|]; simpl; try reflexivity; try discriminate.
  destruct (Rlt_dec y x), (Rlt_dec x y); try reflexivity; try discriminate.
  lra.
Qed.

Lemma fgt_irrefl_float (x : float) : fgt x x = false.
Proof.
  destruct x as [x|[]|]; simpl; try reflexivity.
  destruct (Rlt_dec x x); [lra | reflexivity].
Qed.

Lemma fgt_trans (x y z : float) :
  fgt x y = true -> fgt y z = true -> fgt x z = true.
Proof.
  destruct x as [x|[]|], y as [y|[]|], z as [z|[]|]; simpl;
    try reflexivity; try discriminate.
  destruct (Rlt_dec y x), (Rlt_dec z y), (Rlt_dec z x);
    try reflexivity; try discriminate.
  lra.
Qed.

(** Not above [y], and [z] above [y]: not above [z]. *)
Lemma fgt_below (x y z : float) :
  fgt x y = false -> fgt z y = true -> fgt x z = false.
Proof.
  destruct x as [x|[]|], y as [y|[]|], z as [z|[]|]; simpl;
    try reflexivity; try discriminate.
  destruct (Rlt_dec y x), (Rlt_dec y z), (Rlt_dec z x);
    try reflexivity; try discriminate.
  lra.
Qed.

(** The state after the loop: no candidate is above [best_h], [best_h] never
    decreases, and a binning that replaced the initial one is the first
    candidate with its entropy. *)
Lemma search_fold_spec (a : list value) (bs : list (list (list Z))) :
  forall st : float * option (list (list Z)),
    let fin := fold_left (search_step a) bs st in
    (forall c, In c bs -> fgt (_evaluate_binning a c) (fst fin) = false) /\
    (fst fin = fst st \/ fgt (fst fin) (fst st) = true) /\
    (fin = st \/
     exists pre best post,
       bs = pre ++ best :: post /\
       fin = (_evaluate_binning a best, Some best) /\
       fgt (_evaluate_binning a best) (fst st) = true /\
       forall c, In c pre -> _evaluate_binning a c <> _evaluate_binning a best).
Proof.
  induction bs as [|c0 bs IH]; intros st; cbn [fold_left].
  - split; [intros c []|]. split; [now left | now left].
  - specialize (IH (search_step a st c0)).
    cbv zeta in IH. destruct IH as (Hall & Hmono & Hbest).
    set (fin := fold_left (search_step a) bs (search_step a st c0)) in *.
    cbv zeta.
    assert (Hc0 : fgt (_evaluate_binning a c0) (fst (search_step a st c0)) = false).
    { unfold search_step. cbv zeta.
      destruct (fgt (_evaluate_binning a c0) (fst st)) eqn:E.
      - cbn [fst]. apply fgt_irrefl_float.
      - exact E. }
    assert (Hst : fst (search_step a st c0) = fst st \/
                  fgt (fst (search_step a st c0)) (fst st) = true).
    { unfold search_step. cbv zeta.
      destruct (fgt (_evaluate_binning a c0) (fst st)) eqn:E.
      - right. exact E.
      - now left. }
    split; [|split].
    + intros c [<- | Hc]; [|apply Hall, Hc].
      destruct Hmono as [-> | Hgt]; [exact Hc0|].
      exact (fgt_below _ _ _ Hc0 Hgt).
    + destruct Hmono as [-> | Hgt]; [exact Hst|].
      destruct Hst as [<- | Hgt']; [now right|].
      right. exact (fgt_trans _ _ _ Hgt Hgt').
    + destruct Hbest as [-> | (pre & best & post & -> & Hfin & Hgt & Hpre)].
      * unfold search_step. cbv zeta.
        destruct (fgt (_evaluate_binning a c0) (fst st)) eqn:E.
        -- right. exists [], c0, bs. split; [reflexivity|].
           split; [reflexivity|]. split; [exact E|]. intros c [].
        -- now left.
      * right. exists (c0 :: pre), best, post.
        split; [reflexivity|]. split; [exact Hfin|]. split.
        -- destruct Hst as [<- | Hgt']; [exact Hgt|].
           exact (fgt_trans _ _ _ Hgt Hgt').
        -- intros c [<- | Hc]; [|apply Hpre, Hc].
           intros Heq. rewrite Heq in Hc0. congruence.
Qed.

Lemma zero_or_positive (l : list nat) : In 0 l \/ Forall (fun c => 0 < c) l.
Proof.
  induction l as [|c l [IH | IH]].
  - right. constructor.
  - left. now right.
  - destruct c as [|c]; [left; now left|].
    right. constructor; [lia | exact IH].
Qed.

(** The entropy is a real number or NaN, never an infinity. *)
Lemma get_h_cases (b : list label) :
  _get_h b = NaN \/ _get_h b = Num (entropy_of_counts (bincount (non_nan b))).
Proof.
  destruct (zero_or_positive (bincount (non_nan b))) as [H | H].
  - left. apply get_h_empty_group, H.
  - right. apply get_h_occupied, H.
Qed.

(** ** The applier: the last group that holds a number gives the label *)

Lemma nth_error_lt {A : Type} (l : list A) (n : nat) (x : A) :
  nth_error l n = Some x -> n < length l.
Proof. intros H. apply nth_error_Some. congruence. Qed.

Lemma combine_snoc {A B : Type} (l : list A) (l' : list B) (x : A) (y : B) :
  length l = length l' ->
  combine (l ++ [x]) (l' ++ [y]) = combine l l' ++ [(x, y)].
Proof.
  revert l'. induction l as [|u l IH]; intros [|v l'] H; try discriminate.
  - reflexivity.
  - cbn [app combine]. rewrite IH; [reflexivity | now injection H].
Qed.

Lemma enumerate_snoc {A : Type} (l : list A) (x : A) :
  enumerate (l ++ [x]) = enumerate l ++ [(length l, x)].
Proof.
  unfold enumerate. rewrite length_app, seq_app. cbn [length seq Nat.add].
  apply combine_snoc, length_seq.
Qed.

Lemma label_of_snoc (binning : list (list Z)) (g : list Z) (x : value) :
  label_of (binning ++ [g]) x =
  relabel x (label_of binning x) (length binning, g).
Proof.
  unfold label_of. rewrite enumerate_snoc, fold_left_app. reflexivity.
Qed.

Lemma group_hit_dec (x : value) (g : list Z) :
  (exists n, In n g /\ np_eq x n = true) \/
  (forall n, In n g -> np_eq x n = false).
Proof.
  destruct (existsb (np_eq x) g) eqn:E.
  - left. apply existsb_exists in E. exact E.
  - right. intros n Hn. destruct (np_eq x n) eqn:En; [|reflexivity].
    assert (existsb (np_eq x) g = true) by (apply existsb_exists; eauto).
    congruence.
Qed.

Lemma label_of_none (binning : list (list Z)) (x : value) :
  label_of binning x = None <->
  forall g n, In g binning -> In n g -> np_eq x n = false.
Proof.
  induction binning as [|g binning IH] using rev_ind.
  - split; [intros _ g n [] | reflexivity].
  - rewrite label_of_snoc.
    destruct (group_hit_dec x g) as [(n & Hn & E) | Hmiss].
    + rewrite relabel_hit by (cbn [snd]; eauto). split; [discriminate|].
      intros H. rewrite (H g n) in E; [discriminate | | exact Hn].
      apply in_or_app. right. now left.
    + rewrite relabel_miss by exact Hmiss. rewrite IH. split.
      * intros H g' n Hg Hn. apply in_app_or in Hg as [Hg | [<- | []]].
        -- exact (H g' n Hg Hn).
        -- exact (Hmiss n Hn).
      * intros H g' n Hg. apply H, in_or_app. now left.
Qed.

Lemma label_of_some (binning : list (list Z)) (x : value) (k : nat) :
  label_of binning x = Some k <->
  (exists g n, nth_error binning k = Some g /\ In n g /\ np_eq x n = true) /\
  (forall j g n, k < j -> nth_error binning j = Some g -> In n g ->
                 np_eq x n = false).
Proof.
  revert k. induction binning as [|g binning IH] using rev_ind; intros k.
  - split; [discriminate|]. intros [(g & n & H & _) _].
    destruct k; discriminate.
  - rewrite label_of_snoc.
    destruct (group_hit_dec x g) as [(n & Hn & E) | Hmiss].
    + rewrite relabel_hit by (cbn [snd]; eauto). cbn [fst]. split.
      * intros [= <-]. split.
        -- exists g, n. rewrite nth_error_app2, Nat.sub_diag by lia.
           repeat split; assumption.
        -- intros j g' n' Hj Hg. apply nth_error_lt in Hg.
           rewrite length_app in Hg. cbn [length] in Hg. lia.
      * intros [(g' & n' & Hg & _) Hlast].
        assert (Hk : k < length (binning ++ [g])).
        { apply nth_error_Some. congruence. }
        rewrite length_app in Hk. cbn [length] in Hk.
        destruct (Nat.eq_dec k (length binning)) as [-> | Hne]; [reflexivity|].
        rewrite (Hlast (length binning) g n) in E; [discriminate | lia | | exact Hn].
        rewrite nth_error_app2, Nat.sub_diag by lia. reflexivity.
    + rewrite relabel_miss by exact Hmiss. rewrite IH. split.
      * intros [(g' & n & Hg & Hn & E) Hlast]. split.
        -- exists g', n. split; [|split; assumption].
           rewrite nth_error_app1; [exact Hg|].
           apply nth_error_Some. congruence.
        -- intros j g'' n' Hj Hg' Hn'.
           destruct (Nat.lt_ge_cases j (length binning)) as [Hlt | Hge].
           ++ rewrite nth_error_app1 in Hg' by exact Hlt.
              exact (Hlast j g'' n' Hj Hg' Hn').
           ++ rewrite nth_error_app2 in Hg' by exact Hge.
              destruct (j - length binning) as [|[|m]]; try discriminate.
              injection Hg' as <-. exact (Hmiss n' Hn').
      * intros [(g' & n & Hg & Hn & E) Hlast].
        assert (Hk : k < length binning).
        { assert (Hk : k < length (binning ++ [g])).
          { apply nth_error_Some. congruence. }
          rewrite length_app in Hk. cbn [length] in Hk.
          destruct (Nat.eq_dec k (length binning)) as [-> | Hne]; [|lia].
          rewrite nth_error_app2, Nat.sub_diag in Hg by lia.
          injection Hg as <-. rewrite (Hmiss n Hn) in E. discriminate. }
        rewrite nth_error_app1 in Hg by exact Hk. split.
        -- exists g', n. repeat split; assumption.
        -- intros j g'' n' Hj Hg' Hn'.
           destruct (Nat.lt_ge_cases j (length binning)) as [Hlt | Hge].
           ++ apply (Hlast j g'' n' Hj); [|exact Hn'].
              rewrite nth_error_app1 by exact Hlt. exact Hg'.
           ++ apply nth_error_lt in Hg'. lia.
Qed.

(** X2. The label [_apply_binning] writes at a position is the index of the last
    group of the binning that holds a number equal to the element there: a
    later group overwrites an earlier one.  It stays NaN exactly when no
    group holds such a number. *)
Theorem apply_binning_last_group (a : list value) (binning : list (list Z))
    (i : nat) (x : value) :
  nth_error a i = Some x ->
  (forall k,
      nth_error (_apply_binning a binning) i = Some (Some k) <->
      (exists g n, nth_error binning k = Some g /\ In n g /\
                   np_eq x n = true) /\
      (forall j g n, k < j -> nth_error binning j = Some g -> In n g ->
                     np_eq x n = false)) /\
  (nth_error (_apply_binning a binning) i = Some None <->
   forall g n, In g binning -> In n g -> np_eq x n = false).
Proof.
  intros Hi. rewrite apply_binning_map, nth_error_map, Hi. cbn [option_map].
  split.
  - intros k. rewrite <- label_of_some.
    split; [intros [= ->] | intros ->]; reflexivity.
  - rewrite <- label_of_none.
    split; [intros [= ->] | intros ->]; reflexivity.
Qed.

Lemma apply_binning_last_group_witness :
  nth_error (_apply_binning [int 4; int 7] [[4; 5]; [4]; [6]]%Z) 0 =
    Some (Some 1) /\
  nth_error (_apply_binning [int 4; int 7] [[4; 5]; [4]; [6]]%Z) 1 =
    Some None.
Proof.
  assert (H0 : nth_error [int 4; int 7] 0 = Some (int 4)) by reflexivity.
  assert (H1 : nth_error [int 4; int 7] 1 = Some (int 7)) by reflexivity.
  split.
  - apply (proj1 (apply_binning_last_group _ [[4; 5]; [4]; [6]]%Z 0 _ H0)).
    split.
    + exists [4]%Z, 4%Z.
      split; [reflexivity | split; [now left | reflexivity]].
    + intros j g n Hj Hg Hn.
      destruct j as [|[|[|[|j]]]]; try lia; try discriminate.
      injection Hg as <-. destruct Hn as [<- | []]. reflexivity.
  - apply (proj2 (apply_binning_last_group _ [[4; 5]; [4]; [6]]%Z 1 _ H1)).
    intros g n [<- | [<- | [<- | []]]] Hn; cbn [In] in Hn;
      repeat (destruct Hn as [<- | Hn]; [reflexivity|]); destruct Hn.
Defined.

(** ** The label under a contiguous partition of the range *)

Lemma combine_nth_error {A B : Type} (l : list A) (l' : list B) (d : A) (d' : B) :
  forall j, j < length l -> length l = length l' ->
            nth_error (combine l l') j = Some (nth j l d, nth j l' d').
Proof.
  revert l'. induction l as [|x l IH]; intros [|y l'] j Hj Hlen;
    cbn [length] in *; try lia.
  destruct j as [|j]; [reflexivity|].
  cbn [combine nth_error nth]. apply IH; lia.
Qed.

(** Group [j] of the partition cut at [ixs] runs from bound [j] to bound
    [j + 1] of [0, ixs, len(base)]. *)
Lemma split_at_nth (base : list Z) (ixs : list nat) (j : nat) :
  j <= length ixs ->
  nth_error (split_at base ixs) j =
  Some (slice base (nth j (0 :: ixs) 0) (nth j (ixs ++ [length base]) 0)).
Proof.
  intros Hj. unfold split_at. rewrite nth_error_map.
  rewrite (combine_nth_error (0 :: ixs) (ixs ++ [length base]) 0 0).
  - reflexivity.
  - cbn [length]. lia.
  - rewrite length_app. cbn [length]. lia.
Qed.

Lemma split_at_length (base : list Z) (ixs : list nat) :
  length (split_at base ixs) = S (length ixs).
Proof.
  unfold split_at. rewrite length_map, length_combine, length_app.
  cbn [length]. lia.
Qed.

Lemma sorted_snoc (l : list nat) (L : nat) :
  StronglySorted lt l -> Forall (fun i => i < L) l ->
  StronglySorted lt (l ++ [L]).
Proof.
  induction 1 as [|x l Hs IH Hx]; intros HL; cbn [app].
  - constructor; constructor.
  - inversion HL as [|? ? HxL HlL]; subst. constructor; [apply IH, HlL|].
    apply Forall_app. split; [exact Hx|]. constructor; [exact HxL | constructor].
Qed.

(** The bounds [0, ixs, L] of a tuple of cut positions increase. *)
Lemma cut_tuple_bounds (L k : nat) (ixs : list nat) :
  0 < L -> cut_tuple L k ixs -> StronglySorted lt (0 :: ixs ++ [L]).
Proof.
  intros HL (_ & Hs & Hb). constructor.
  - apply sorted_snoc; [exact Hs|].
    eapply Forall_impl; [|exact Hb]. intros i Hi. cbv beta in Hi. lia.
  - apply Forall_app. split.
    + eapply Forall_impl; [|exact Hb]. intros i Hi. cbv beta in Hi. lia.
    + constructor; [exact HL | constructor].
Qed.

Lemma sorted_nth_le (l : list nat) :
  StronglySorted lt l ->
  forall i j, i <= j < length l -> nth i l 0 <= nth j l 0.
Proof.
  induction 1 as [|x l Hs IH Hx]; intros i j Hij; cbn [length] in Hij; [lia|].
  destruct i as [|i], j as [|j]; cbn [nth]; try lia.
  - assert (Hin : In (nth j l 0) l) by (apply nth_In; lia).
    rewrite Forall_forall in Hx. specialize (Hx _ Hin). lia.
  - apply IH. lia.
Qed.

Lemma filter_le_above (m : nat) (l : list nat) :
  Forall (fun i => m < i) l -> filter (fun i => i <=? m) l = [].
Proof.
  induction 1 as [|x l Hx _ IH]; [reflexivity|].
  cbn [filter]. destruct (Nat.leb_spec x m); [lia | exact IH].
Qed.

(** The number of bounds not above [m] points at the interval of [m]. *)
Lemma count_le_interval (m L : nat) (ixs : list nat) :
  forall c,
    StronglySorted lt (c :: ixs ++ [L]) -> c <= m < L ->
    let j := length (filter (fun i => i <=? m) ixs) in
    nth j (c :: ixs) 0 <= m < nth j (ixs ++ [L]) 0.
Proof.
  induction ixs as [|i ixs IH]; intros c Hs Hm; cbv zeta.
  - cbn [filter length nth app]. exact Hm.
  - inversion Hs as [|? ? Hs' Hc]; subst. cbn [app] in Hs'.
    cbn [filter]. destruct (Nat.leb_spec i m) as [Hle | Hgt].
    + cbn [length]. cbn [nth app].
      apply (IH i Hs'). lia.
    + rewrite filter_le_above.
      * cbn [length nth app]. lia.
      * inversion Hs' as [|? ? _ Hi]; subst.
        apply Forall_app in Hi as [Hi _].
        eapply Forall_impl; [|exact Hi]. intros x Hx. cbv beta in Hx. lia.
Qed.

Lemma filter_le_length (m : nat) (l : list nat) :
  length (filter (fun i => i <=? m) l) <= length l.
Proof.
  induction l as [|x l IH]; [reflexivity|].
  cbn [filter]. destruct (x <=? m); cbn [length]; lia.
Qed.

Lemma filter_le_mono (m m' : nat) (l : list nat) :
  m <= m' ->
  length (filter (fun i => i <=? m) l) <= length (filter (fun i => i <=? m') l).
Proof.
  intros H. induction l as [|x l IH]; [reflexivity|].
  cbn [filter].
  destruct (Nat.leb_spec x m), (Nat.leb_spec x m'); cbn [length]; lia.
Qed.

(** Under the partition of [range(lo, hi)] cut at [ixs], the label of an
    integer of the range is the number of cut positions that do not exceed
    its offset from [lo]. *)
Lemma label_of_split (lo hi : Z) (k : nat) (ixs : list nat) (q : Q) :
  cut_tuple (Z.to_nat (hi - lo)) k ixs ->
  (q == inject_Z (Qfloor q))%Q ->
  (lo <= Qfloor q < hi)%Z ->
  label_of (split_at (py_range lo hi) ixs) (Num q) =
  Some (length (filter (fun i => i <=? Z.to_nat (Qfloor q - lo)) ixs)).
Proof.
  intros Hcut Hq Hr.
  set (L := Z.to_nat (hi - lo)) in *. set (m := Z.to_nat (Qfloor q - lo)).
  assert (HmL : 0 <= m < L) by (unfold m, L; lia).
  assert (HmZ : Z.of_nat m = (Qfloor q - lo)%Z) by (unfold m; lia).
  assert (Hs : StronglySorted lt (0 :: ixs ++ [L])).
  { apply (cut_tuple_bounds L k); [lia | exact Hcut]. }
  pose proof (count_le_interval m L ixs 0 Hs HmL) as Hj. cbv zeta in Hj.
  set (j := length (filter (fun i => i <=? m) ixs)) in *.
  assert (HjL : j <= length ixs) by apply filter_le_length.
  assert (Hlen : length (py_range lo hi) = L) by apply py_range_length.
  assert (Hnth : forall i, i <= length ixs ->
                           nth i (0 :: ixs) 0 <= nth i (ixs ++ [L]) 0 <= L).
  { intros i Hi.
    assert (Hl : length (0 :: ixs ++ [L]) = S (S (length ixs))).
    { cbn [length]. rewrite length_app. cbn [length]. lia. }
    split.
    - change (nth i (ixs ++ [L]) 0) with (nth (S i) (0 :: ixs ++ [L]) 0).
      replace (nth i (0 :: ixs) 0) with (nth i (0 :: ixs ++ [L]) 0).
      + apply (sorted_nth_le _ Hs). lia.
      + change (0 :: ixs ++ [L]) with ((0 :: ixs) ++ [L]).
        apply app_nth1. cbn [length]. lia.
    - replace L with (nth (S (length ixs)) (0 :: ixs ++ [L]) 0) at 2.
      + change (nth i (ixs ++ [L]) 0) with (nth (S i) (0 :: ixs ++ [L]) 0).
        apply (sorted_nth_le _ Hs). lia.
      + cbn [nth]. rewrite app_nth2, Nat.sub_diag by lia. reflexivity. }
  apply label_of_some. split.
  - exists (slice (py_range lo hi) (nth j (0 :: ixs) 0) (nth j (ixs ++ [L]) 0)),
           (Qfloor q).
    split; [rewrite <- Hlen; apply split_at_nth, HjL|].
    split; [|rewrite np_eq_integral by exact Hq; apply Z.eqb_refl].
    rewrite slice_range by (fold L; apply Hnth, HjL).
    apply py_range_In. lia.
  - intros j' g n Hj' Hg Hn.
    assert (Hj'L : j' <= length ixs).
    { apply nth_error_lt in Hg. rewrite split_at_length in Hg. lia. }
    rewrite split_at_nth in Hg by exact Hj'L. injection Hg as <-.
    rewrite Hlen in Hn.
    rewrite slice_range in Hn by (fold L; apply Hnth, Hj'L).
    apply py_range_In in Hn.
    rewrite np_eq_integral by exact Hq. apply Z.eqb_neq.
    destruct j' as [|j']; [lia|]. cbn [nth] in Hn.
    assert (Hb : nth j (ixs ++ [L]) 0 <= nth j' ixs 0).
    { replace (nth j' ixs 0) with (nth j' (ixs ++ [L]) 0)
        by (apply app_nth1; lia).
      inversion Hs as [|? ? Hs' _]; subst.
      apply (sorted_nth_le _ Hs'). rewrite length_app. cbn [length]. lia. }
    lia.
Qed.

(** ** What a successful call returns *)

(** What a successful call went through, with the winning partition and its
    entropy. *)
Lemma bin_sequence_Ok_best (a : list value) (nbins : Z) (b : list label) :
  bin_sequence a nbins = Ok b ->
  exists (amin amax : Z) (ixs : list nat) (h : R),
    checked a = true /\
    (forall q, In (Num q) a -> (amin <= Qfloor q <= amax)%Z) /\
    (exists q, In (Num q) a /\ Qfloor q = amin) /\
    (exists q, In (Num q) a /\ Qfloor q = amax) /\
    (1 <= nbins)%Z /\
    cut_tuple (Z.to_nat (amax + 1 - amin)) (Z.to_nat nbins - 1) ixs /\
    b = map (label_of (split_at (py_range amin (amax + 1)) ixs)) a /\
    _get_h b = Num h /\ (0 < h)%R.
Proof.
  intros H.
  destruct (checked a) eqn:Hc;
    [|rewrite (bin_sequence_unchecked a nbins Hc) in H; discriminate].
  destruct (nan_or_number a) as [Hex | Hnan];
    [|rewrite (bin_sequence_no_number a nbins Hnan) in H; discriminate].
  destruct (value_range a Hc Hex)
    as (amin & amax & Hmin & Hmax & Hr & Hlo & Hhi).
  rewrite (bin_sequence_checked a nbins amin amax Hc Hmin Hmax) in H.
  apply bind_inv in H as (binnings & Hgen & H).
  destruct (snd (search a binnings)) as [bb|] eqn:Hs; [|discriminate].
  injection H as <-.
  destruct (search_fold_spec a binnings (Num 0%R, None))
    as (_ & _ & [Hfin | (pre & best & post & Hbs & Hfin & Hgt & _)]).
  { unfold search in Hs. rewrite Hfin in Hs. discriminate. }
  unfold search in Hs. rewrite Hfin in Hs. cbn [fst snd] in Hs, Hgt.
  injection Hs as <-.
  assert (Hin : In best binnings).
  { rewrite Hbs. apply in_or_app. right. now left. }
  assert (Hn : (1 <= nbins)%Z).
  { unfold _generate_bins, py_combinations in Hgen.
    destruct (Z.ltb_spec (nbins - 1) 0); [discriminate | lia]. }
  rewrite (generate_bins_unfold _ nbins Hn) in Hgen. injection Hgen as <-.
  apply in_map_iff in Hin as (ixs & <- & Hin).
  apply cut_tuple_combinations in Hin. rewrite py_range_length in Hin.
  destruct (get_h_cases (_apply_binning a (split_at (py_range amin (amax + 1)) ixs)))
    as [E | E].
  { unfold _evaluate_binning in Hgt. cbv zeta in Hgt. rewrite E in Hgt.
    discriminate. }
  exists amin, amax, ixs. eexists.
  split; [reflexivity|]. split; [exact Hr|]. split; [exact Hlo|].
  split; [exact Hhi|]. split; [exact Hn|]. split; [exact Hin|].
  split; [apply apply_binning_map|]. split; [exact E|].
  unfold _evaluate_binning in Hgt. cbv zeta in Hgt. rewrite E in Hgt.
  apply fgt_Num, Hgt.
Qed.

(** X3. The binning keeps the order of the values: of two numbers of the input,
    the smaller one never gets the larger label. *)
Theorem bin_sequence_monotone (a : list value) (nbins : Z) (b : list label)
    (i j : nat) (p q : Q) :
  bin_sequence a nbins = Ok b ->
  nth_error a i = Some (Num p) ->
  nth_error a j = Some (Num q) ->
  (p <= q)%Q ->
  exists ki kj,
    nth_error b i = Some (Some ki) /\
    nth_error b j = Some (Some kj) /\
    ki <= kj.
Proof.
  intros H Hi Hj Hpq.
  destruct (bin_sequence_Ok_best a nbins b H)
    as (amin & amax & ixs & h & Hc & Hr & _ & _ & _ & Hcut & -> & _).
  assert (Hp : (p == inject_Z (Qfloor p))%Q).
  { destruct (checked_In a _ Hc (nth_error_In _ _ Hi)) as [E | (p' & E & Hp)];
      [discriminate | now injection E as <-]. }
  assert (Hq : (q == inject_Z (Qfloor q))%Q).
  { destruct (checked_In a _ Hc (nth_error_In _ _ Hj)) as [E | (q' & E & Hq)];
      [discriminate | now injection E as <-]. }
  pose proof (Hr p (nth_error_In _ _ Hi)) as Hrp.
  pose proof (Hr q (nth_error_In _ _ Hj)) as Hrq.
  rewrite !nth_error_map, Hi, Hj. cbn [option_map].
  rewrite (label_of_split amin (amax + 1) _ ixs p Hcut Hp) by lia.
  rewrite (label_of_split amin (amax + 1) _ ixs q Hcut Hq) by lia.
  eexists. eexists. split; [reflexivity|]. split; [reflexivity|].
  apply filter_le_mono.
  assert (Hfl : (Qfloor p <= Qfloor q)%Z) by (apply Qfloor_resp_le, Hpq).
  lia.
Qed.

Lemma bin_sequence_monotone_witness :
  exists ki kj,
    nth_error [Some 0; Some 0; Some 0; Some 0;
               Some 1; Some 1; Some 1; Some 1; Some 1; Some 1] 3 =
      Some (Some ki) /\
    nth_error [Some 0; Some 0; Some 0; Some 0;
               Some 1; Some 1; Some 1; Some 1; Some 1; Some 1] 4 =
      Some (Some kj) /\
    ki <= kj.
Proof.
  apply (bin_sequence_monotone example_input 2 _ 3 4 (inject_Z 0) (inject_Z 1)
           example_run); [reflexivity | reflexivity | discriminate].
Defined.

Lemma filter_le_all (m : nat) (l : list nat) :
  Forall (fun i => i <= m) l -> filter (fun i => i <=? m) l = l.
Proof.
  induction 1 as [|x l Hx _ IH]; [reflexivity|].
  cbn [filter]. destruct (Nat.leb_spec x m); [now rewrite IH | lia].
Qed.

Lemma non_nan_In (b : list label) (k : nat) :
  In k (non_nan b) <-> In (Some k) b.
Proof.
  unfold non_nan. rewrite in_flat_map. split.
  - intros ([k'|] & Hin & Hk); [|destruct Hk].
    destruct Hk as [<- | []]. exact Hin.
  - intros H. exists (Some k). split; [exact H | now left].
Qed.

Lemma list_max_In (l : list nat) (k : nat) : In k l -> k <= list_max l.
Proof.
  intros H. assert (Hle : list_max l <= list_max l) by lia.
  apply list_max_le in Hle. rewrite Forall_forall in Hle. apply Hle, H.
Qed.

(** An entropy that is a number has counted every label up to the largest. *)
Lemma get_h_Num_In (b : list label) (h : R) (k : nat) :
  _get_h b = Num h -> k <= list_max (non_nan b) -> non_nan b <> [] ->
  In (Some k) b.
Proof.
  intros Hh Hk Hne. apply non_nan_In.
  destruct (count_occ Nat.eq_dec (non_nan b) k) as [|c] eqn:E.
  - exfalso.
    assert (Hin : In 0 (bincount (non_nan b))).
    { unfold bincount. destruct (non_nan b) as [|x l] eqn:El; [congruence|].
      rewrite <- El in *. rewrite <- E. apply in_map, in_seq. lia. }
    rewrite (get_h_empty_group b Hin) in Hh. discriminate.
  - apply (count_occ_In Nat.eq_dec). lia.
Qed.

(** The largest number of the input gets the last label, and the entropy of
    the result is a number. *)
Lemma last_bin_occurs (a : list value) (nbins : Z) (b : list label) :
  bin_sequence a nbins = Ok b ->
  In (Some (Z.to_nat nbins - 1)) b /\ exists h, _get_h b = Num h.
Proof.
  intros H.
  destruct (bin_sequence_Ok_best a nbins b H)
    as (amin & amax & ixs & h & Hc & Hr & _ & (q & Hq & Hamax) & Hn & Hcut
        & Hb & Hh & _).
  assert (Hqi : (q == inject_Z (Qfloor q))%Q).
  { destruct (checked_In a _ Hc Hq) as [E | (q' & E & Hq')];
      [discriminate | now injection E as <-]. }
  assert (Hlast : In (Some (Z.to_nat nbins - 1)) b).
  { rewrite Hb. apply in_map_iff. exists (Num q). split; [|exact Hq].
    rewrite (label_of_split amin (amax + 1) _ ixs q Hcut Hqi)
      by (specialize (Hr q Hq); lia).
    destruct Hcut as (Hlen & _ & Hbound). rewrite filter_le_all.
    - now rewrite Hlen.
    - eapply Forall_impl; [|exact Hbound]. intros i Hi. cbv beta in Hi. lia. }
  split; [exact Hlast | now exists h].
Qed.

(** X4. A successful call leaves no bin empty: every label from [0] to
    [nbins - 1] occurs in the result. *)
Theorem bin_sequence_uses_every_bin (a : list value) (nbins : Z)
    (b : list label) (k : nat) :
  bin_sequence a nbins = Ok b ->
  (Z.of_nat k < nbins)%Z ->
  In (Some k) b.
Proof.
  intros H Hk. destruct (last_bin_occurs a nbins b H) as (Hlast & h & Hh).
  apply non_nan_In in Hlast.
  apply (get_h_Num_In b h k Hh).
  - apply list_max_In in Hlast. lia.
  - intros E. rewrite E in Hlast. destruct Hlast.
Qed.

Lemma bin_sequence_uses_every_bin_witness :
  In (Some 1) [Some 0; Some 0; Some 0; Some 0;
               Some 1; Some 1; Some 1; Some 1; Some 1; Some 1].
Proof.
  apply (bin_sequence_uses_every_bin example_input 2 _ 1 example_run).
  reflexivity.
Defined.

(** ** Sums of entropy terms *)

Section EntropySums.

Local Open Scope R_scope.

Lemma fold_left_Rplus (l : list R) :
  forall acc, fold_left Rplus l acc = acc + fold_right Rplus 0 l.
Proof.
  induction l as [|x l IH]; intros acc; cbn [fold_left fold_right].
  - lra.
  - rewrite IH. lra.
Qed.

Lemma entropy_of_counts_sum (counts : list nat) :
  entropy_of_counts counts =
  - fold_right Rplus 0
      (map (fun c => plogp (INR c / INR (list_sum counts))) counts).
Proof. unfold entropy_of_counts. rewrite fold_left_Rplus. lra. Qed.

Lemma sum_map_le {A : Type} (f g : A -> R) (l : list A) :
  (forall x, In x l -> f x <= g x) ->
  fold_right Rplus 0 (map f l) <= fold_right Rplus 0 (map g l).
Proof.
  induction l as [|x l IH]; intros H; cbn [map fold_right]; [lra|].
  assert (f x <= g x) by (apply H; now left).
  assert (fold_right Rplus 0 (map f l) <= fold_right Rplus 0 (map g l)).
  { apply IH. intros y Hy. apply H. now right. }
  lra.
Qed.

Lemma ln_2_gt_0 : 0 < ln 2.
Proof. rewrite <- ln_1. apply ln_increasing; lra. Qed.

End EntropySums.

Lemma bincount_nonempty (l : list nat) :
  l <> [] ->
  bincount l = map (count_occ Nat.eq_dec l) (seq 0 (S (list_max l))).
Proof. destruct l; [congruence | reflexivity]. Qed.

Lemma list_max_attained (l : list nat) : l <> [] -> In (list_max l) l.
Proof.
  induction l as [|x l IH]; [congruence|]. intros _.
  change (list_max (x :: l)) with (Nat.max x (list_max l)).
  destruct l as [|y l].
  - left. cbn. lia.
  - destruct (Nat.max_spec x (list_max (y :: l))) as [[_ ->] | [_ ->]].
    + right. apply IH. discriminate.
    + now left.
Qed.

Lemma bincount_length (l : list nat) :
  l <> [] -> length (bincount l) = S (list_max l).
Proof.
  intros H. rewrite bincount_nonempty by exact H.
  now rewrite length_map, length_seq.
Qed.

(** No occupancy is [0] when every label up to the largest one occurs. *)
Lemma bincount_occupied (b : list label) :
  non_nan b <> [] ->
  (forall k, k <= list_max (non_nan b) -> In (Some k) b) ->
  Forall (fun c => 0 < c) (bincount (non_nan b)).
Proof.
  intros Hne Hall. rewrite bincount_nonempty by exact Hne.
  apply Forall_forall. intros c Hc. apply in_map_iff in Hc as (k & <- & Hk).
  apply in_seq in Hk. apply (count_occ_In Nat.eq_dec), non_nan_In, Hall. lia.
Qed.

(** X6. The entropy is NaN exactly when a label below the largest one does not
    occur: its occupancy is [0], and [0 * log2(0)] is summed as it is. *)
Theorem get_h_nan_iff (b : list label) :
  _get_h b = NaN <->
  exists k, k < list_max (non_nan b) /\ ~ In (Some k) b.
Proof.
  split.
  - intros H.
    destruct (zero_or_positive (bincount (non_nan b))) as [H0 | Hpos];
      [|rewrite (get_h_occupied b Hpos) in H; discriminate].
    destruct (non_nan b) as [|x l] eqn:E; [destruct H0|].
    rewrite <- E in *.
    assert (Hne : non_nan b <> []) by (rewrite E; discriminate).
    rewrite bincount_nonempty in H0 by exact Hne.
    apply in_map_iff in H0 as (k & Hk & Hin). apply in_seq in Hin.
    apply (count_occ_not_In Nat.eq_dec) in Hk.
    exists k. split.
    + destruct (Nat.eq_dec k (list_max (non_nan b))) as [-> | Hn]; [|lia].
      exfalso. apply Hk, list_max_attained, Hne.
    + intros Hs. apply Hk, non_nan_In, Hs.
  - intros (k & Hk & Hn). apply get_h_empty_group.
    assert (Hne : non_nan b <> []).
    { intros E. rewrite E in Hk. cbn in Hk. lia. }
    rewrite bincount_nonempty by exact Hne.
    apply in_map_iff. exists k. split; [|apply in_seq; lia].
    apply (count_occ_not_In Nat.eq_dec). intros Hin. apply Hn, non_nan_In, Hin.
Qed.

(** ** As many bins as values *)

Section EntropyPositive.

Local Open Scope R_scope.

Lemma sum_map_lt {A : Type} (f g : A -> R) (l : list A) :
  l <> [] ->
  (forall x, In x l -> f x < g x) ->
  fold_right Rplus 0 (map f l) < fold_right Rplus 0 (map g l).
Proof.
  intros Hne H.
  destruct l as [|x l]; [congruence|]. cbn [map fold_right].
  assert (f x < g x) by (apply H; now left).
  assert (fold_right Rplus 0 (map f l) <= fold_right Rplus 0 (map g l)).
  { apply sum_map_le. intros y Hy. left. apply H. now right. }
  lra.
Qed.

Lemma plogp_neg (p : R) : 0 < p < 1 -> plogp p < 0.
Proof.
  intros [H0 H1]. unfold plogp.
  assert (Hln : ln p < 0) by (rewrite <- ln_1; apply ln_increasing; lra).
  pose proof ln_2_gt_0 as H2.
  assert (Hi : 0 < / ln 2) by apply Rinv_0_lt_compat, H2.
  assert (Hq : ln p / ln 2 < 0).
  { unfold Rdiv. rewrite <- (Rmult_0_l (/ ln 2)).
    apply Rmult_lt_compat_r; lra. }
  rewrite <- (Rmult_0_r p). apply Rmult_lt_compat_l; lra.
Qed.

Lemma list_sum_positive (l : list nat) :
  Forall (fun c => (0 < c)%nat) l -> (length l <= list_sum l)%nat.
Proof.
  induction 1 as [|c l Hc _ IH]; [reflexivity|].
  cbn [length list_sum fold_right]. fold (list_sum l). lia.
Qed.

Lemma list_sum_In_lt (l : list nat) (c : nat) :
  Forall (fun c => (0 < c)%nat) l -> (2 <= length l)%nat -> In c l ->
  (c < list_sum l)%nat.
Proof.
  intros Hpos Hlen Hc. apply in_split in Hc as (l1 & l2 & ->).
  apply Forall_app in Hpos as [H1 H2]. inversion H2 as [|? ? _ H2']; subst.
  apply list_sum_positive in H1, H2'.
  rewrite length_app in Hlen. cbn [length] in Hlen.
  rewrite list_sum_app. cbn [list_sum fold_right]. fold (list_sum l2). lia.
Qed.

(** With two or more occupied groups the entropy is positive. *)
Lemma entropy_of_counts_pos (counts : list nat) :
  (2 <= length counts)%nat ->
  Forall (fun c => (0 < c)%nat) counts ->
  0 < entropy_of_counts counts.
Proof.
  intros Hlen Hpos. rewrite entropy_of_counts_sum.
  set (T := INR (list_sum counts)).
  assert (Hne : counts <> []).
  { intros ->. cbn [length] in Hlen. lia. }
  assert (H : fold_right Rplus 0 (map (fun c => plogp (INR c / T)) counts)
              < fold_right Rplus 0 (map (fun _ : nat => 0) counts)).
  { apply sum_map_lt; [exact Hne|]. intros c Hc. apply plogp_neg.
    pose proof (list_sum_In_lt counts c Hpos Hlen Hc) as Hlt.
    rewrite Forall_forall in Hpos.
    assert (H0 : 0 < INR c) by (apply lt_0_INR, Hpos, Hc).
    assert (H1 : INR c < T) by (apply lt_INR, Hlt).
    split.
    - apply Rdiv_lt_0_compat; lra.
    - apply (Rmult_lt_reg_r T); [lra|].
      unfold Rdiv. rewrite Rmult_assoc, Rinv_l by lra. lra. }
  assert (H0 : fold_right Rplus 0 (map (fun _ : nat => 0) counts) = 0).
  { clear. induction counts as [|c l IH]; cbn [map fold_right]; lra. }
  lra.
Qed.

End EntropyPositive.

(** X5. When every label up to the largest one occurs and the largest one
    is not [0], the entropy is a positive number. *)
Theorem get_h_positive (b : list label) :
  1 <= list_max (non_nan b) ->
  (forall k, k <= list_max (non_nan b) -> In (Some k) b) ->
  exists h : R, _get_h b = Num h /\ (0 < h)%R.
Proof.
  intros Hmax Hall.
  assert (Hne : non_nan b <> []).
  { intros E. rewrite E in Hmax. cbn in Hmax. lia. }
  pose proof (bincount_occupied b Hne Hall) as Hpos.
  exists (entropy_of_counts (bincount (non_nan b))).
  split; [apply get_h_occupied, Hpos|].
  apply entropy_of_counts_pos; [|exact Hpos].
  rewrite (bincount_length _ Hne). lia.
Qed.

Lemma get_h_positive_witness :
  exists h : R, _get_h [Some 1; None; Some 0; Some 1] = Num h /\ (0 < h)%R.
Proof.
  apply (get_h_positive [Some 1; None; Some 0; Some 1]).
  - cbn. lia.
  - intros k Hk. cbn in Hk.
    destruct k as [|[|k]]; [right; right; now left | now left | lia].
Defined.

(** X7. A call that returns was given at least two bins, and the entropy of
    its result is a positive number. *)
Theorem bin_sequence_entropy_positive (a : list value) (nbins : Z)
    (b : list label) :
  bin_sequence a nbins = Ok b ->
  (2 <= nbins)%Z /\ exists h : R, _get_h b = Num h /\ (0 < h)%R.
Proof.
  intros H.
  destruct (bin_sequence_Ok_best a nbins b H)
    as (amin & amax & ixs & h & Hc & _ & (q & Hq & _) & _ & Hn & _ & _
        & Hh & Hpos).
  split; [|exists h; split; assumption].
  destruct (Z.eq_dec nbins 1) as [-> | Hne]; [|lia].
  rewrite bin_sequence_one_bin in H; [discriminate | exact Hc|].
  exists (Num q). split; [exact Hq | reflexivity].
Qed.

Lemma bin_sequence_entropy_positive_witness :
  (2 <= 2)%Z /\
  exists h : R,
    _get_h [Some 0; Some 0; Some 0; Some 0;
            Some 1; Some 1; Some 1; Some 1; Some 1; Some 1] = Num h /\
    (0 < h)%R.
Proof.
  exact (bin_sequence_entropy_positive example_input 2 _ example_run).
Defined.

Lemma combinations_full {A : Type} (pool : list A) :
  combinations pool (length pool) = [pool].
Proof.
  induction pool as [|x pool IH]; [reflexivity|].
  cbn [length combinations]. rewrite IH.
  rewrite combinations_too_many by lia. reflexivity.
Qed.

Lemma filter_le_seq (k m : nat) :
  k <= m -> filter (fun i => i <=? k) (seq 1 m) = seq 1 k.
Proof.
  induction m as [|m IH]; intros Hk.
  - now replace k with 0 by lia.
  - rewrite seq_S, filter_app. cbn [filter Nat.add].
    destruct (Nat.leb_spec (S m) k) as [Hle | Hgt].
    + replace k with (S m) by lia. rewrite filter_le_all.
      * now rewrite seq_S.
      * apply Forall_forall. intros i Hi. apply in_seq in Hi. lia.
    + rewrite IH by lia. apply app_nil_r.
Qed.

Lemma isinteger_int (z : Z) : _isinteger (int z) = true.
Proof.
  unfold int. apply isinteger_Num. now rewrite Qfloor_Z.
Qed.


(** Labels read as values are binned into themselves, when each of
    [0 .. nbins - 1] occurs and [nbins >= 2]. *)
Lemma labels_one_bin_per_value (lo : Z) (labels : list label) (nbins : Z) :
  (2 <= nbins)%Z ->
  (forall k, In (Some k) labels -> (Z.of_nat k < nbins)%Z) ->
  (forall k, (Z.of_nat k < nbins)%Z -> In (Some k) labels) ->
  bin_sequence (map (value_of_label lo) labels) nbins = Ok labels.
Proof.
  intros Hn Hin Hall.
  set (a := map (value_of_label lo) labels).
  set (n := Z.to_nat nbins).
  assert (Hc : checked a = true).
  { unfold checked, a. apply forallb_forall. intros x Hx.
    apply in_map_iff in Hx as ([k|] & <- & _); cbn [value_of_label].
    - now rewrite isinteger_int.
    - apply orb_true_r. }
  assert (Ha : forall q, In (Num q) a ->
                         exists k, In (Some k) labels /\
                                   Qfloor q = (lo + Z.of_nat k)%Z).
  { intros q Hq. unfold a in Hq.
    apply in_map_iff in Hq as ([k|] & E & Hk); [|discriminate].
    exists k. split; [exact Hk|]. injection E as <-. apply Qfloor_Z. }
  assert (Hk : forall k, (Z.of_nat k < nbins)%Z ->
                         In (Num (inject_Z (lo + Z.of_nat k))) a).
  { intros k Hlt. unfold a. apply in_map_iff. exists (Some k).
    split; [reflexivity | apply Hall, Hlt]. }
  assert (Hex : exists x, In x a /\ isnan x = false).
  { exists (Num (inject_Z (lo + Z.of_nat 0))).
    split; [apply Hk; lia | reflexivity]. }
  destruct (value_range a Hc Hex)
    as (amin & amax & Hmin & Hmax & Hr & (q0 & Hq0 & Hlo) & (q1 & Hq1 & Hhi)).
  assert (Emin : amin = lo).
  { destruct (Ha q0 Hq0) as (k & _ & E).
    pose proof (Hr _ (Hk 0 ltac:(lia))) as H0. rewrite Qfloor_Z in H0. lia. }
  assert (Emax : amax = (lo + nbins - 1)%Z).
  { destruct (Ha q1 Hq1) as (k & Hkin & E). apply Hin in Hkin.
    pose proof (Hr _ (Hk (n - 1) ltac:(unfold n; lia))) as H1.
    rewrite Qfloor_Z in H1. unfold n in H1. lia. }
  clear Hlo Hhi Hq0 Hq1. subst amin amax.
  rewrite (bin_sequence_checked a nbins _ _ Hc Hmin Hmax).
  rewrite generate_bins_unfold by lia. rewrite py_range_length.
  replace (Z.to_nat (lo + nbins - 1 + 1 - lo)) with n by (unfold n; lia).
  fold n.
  pose proof (combinations_full (seq 1 (n - 1))) as Hfull.
  rewrite length_seq in Hfull. rewrite Hfull.
  cbn [map bind].
  set (c := split_at (py_range lo (lo + nbins - 1 + 1)) (seq 1 (n - 1))).
  assert (Hcut : cut_tuple (Z.to_nat (lo + nbins - 1 + 1 - lo)) (n - 1)
                   (seq 1 (n - 1))).
  { replace (Z.to_nat (lo + nbins - 1 + 1 - lo)) with n by (unfold n; lia).
    apply cut_tuple_combinations. rewrite Hfull. now left. }
  assert (Hb : _apply_binning a c = labels).
  { rewrite apply_binning_map. unfold a. rewrite map_map.
    rewrite <- (map_id labels) at 2.
    apply map_ext_in. intros [k|] Hkin; cbn [value_of_label];
      [|apply label_of_nan].
    unfold int, c.
    rewrite (label_of_split lo (lo + nbins - 1 + 1) _ _ _ Hcut);
      rewrite ?Qfloor_Z; [|reflexivity | apply Hin in Hkin; lia].
    f_equal. rewrite filter_le_seq, length_seq.
    - lia.
    - apply Hin in Hkin. unfold n. lia. }
  assert (Hmaxk : list_max (non_nan labels) = n - 1).
  { apply Nat.le_antisymm.
    - apply list_max_le, Forall_forall. intros k Hkin.
      apply non_nan_In, Hin in Hkin. unfold n. lia.
    - apply list_max_In, non_nan_In, Hall. unfold n. lia. }
  assert (Hne : non_nan labels <> []).
  { intros E. specialize (Hall 0 ltac:(lia)). apply non_nan_In in Hall.
    rewrite E in Hall. destruct Hall. }
  assert (Hpos : Forall (fun c => 0 < c) (bincount (non_nan labels))).
  { apply (bincount_occupied labels Hne). intros k Hkm. apply Hall.
    unfold n in Hmaxk. lia. }
  assert (Hh : _evaluate_binning a c =
               Num (entropy_of_counts (bincount (non_nan labels)))).
  { unfold _evaluate_binning. cbv zeta. rewrite Hb.
    apply get_h_occupied, Hpos. }
  assert (Hgt : fgt (_evaluate_binning a c) (Num 0%R) = true).
  { rewrite Hh. apply fgt_Num, entropy_of_counts_pos; [|exact Hpos].
    rewrite (bincount_length _ Hne), Hmaxk. unfold n. lia. }
  unfold search. cbn [fold_left]. unfold search_step. cbv zeta.
  cbn [fst]. rewrite Hgt. cbn [snd]. now rewrite Hb.
Qed.

(** X8. When the numbers of the input are exactly [nbins >= 2] consecutive
    integers [lo .. lo + nbins - 1], every one of them gets a bin of its
    own: the label of a number is its offset from [lo].  In particular a
    sequence of labels in which each of [0 .. nbins - 1] occurs is returned
    as it is ([lo = 0]). *)
Theorem bin_sequence_one_bin_per_value (lo : Z) (ks : list nat) (nbins : Z) :
  (2 <= nbins)%Z ->
  (forall k, In k ks -> (Z.of_nat k < nbins)%Z) ->
  (forall k, (Z.of_nat k < nbins)%Z -> In k ks) ->
  bin_sequence (map (fun k => int (lo + Z.of_nat k)) ks) nbins =
  Ok (map Some ks).
Proof.
  intros Hn Hin Hall.
  replace (map (fun k => int (lo + Z.of_nat k)) ks)
    with (map (value_of_label lo) (map Some ks))
    by (rewrite map_map; reflexivity).
  apply labels_one_bin_per_value; [exact Hn | |].
  - intros k Hk. apply in_map_iff in Hk as (k' & [= ->] & Hk').
    apply Hin, Hk'.
  - intros k Hk. apply in_map, Hall, Hk.
Qed.

Lemma bin_sequence_one_bin_per_value_witness :
  bin_sequence (map (fun k => int (0 + Z.of_nat k)) [0; 1; 2; 0; 1; 2]) 3 =
  Ok (map Some [0; 1; 2; 0; 1; 2]).
Proof.
  apply (bin_sequence_one_bin_per_value 0 [0; 1; 2; 0; 1; 2] 3).
  - lia.
  - intros k Hk. cbn [In] in Hk.
    repeat (destruct Hk as [<- | Hk]; [reflexivity|]). destruct Hk.
  - intros k Hk. destruct k as [|[|[|k]]]; cbn [In]; auto.
    exfalso. lia.
Defined.

(** ** The check and the errors of [bin_sequence] *)

(** X9. [_isinteger] holds of the finite numbers with an integral value, such
    as [2.0], and of nothing else: not of NaN, not of an infinity. *)
Theorem isinteger_iff (x : value) :
  _isinteger x = true <-> exists q z, x = Num q /\ (q == inject_Z z)%Q.
Proof.
  split.
  - destruct x as [q| |]; try discriminate. intros H.
    exists q, (Qfloor q). split; [reflexivity | apply isinteger_Num, H].
  - intros (q & z & -> & Hq). apply isinteger_Num.
    rewrite Hq at 1. now rewrite Hq, Qfloor_Z.
Qed.




(** ** The generator on an arbitrary sequence *)

Lemma slice_length {A : Type} (base : list A) (i j : nat) :
  j <= length base -> length (slice base i j) = j - i.
Proof.
  intros H. unfold slice. rewrite length_firstn, length_skipn. lia.
Qed.

Lemma slice_prefix {A : Type} (pre g rest : list A) :
  slice (pre ++ g ++ rest) (length pre) (length pre + length g) = g.
Proof.
  unfold slice. rewrite skipn_app, skipn_all, Nat.sub_diag. cbn [skipn app].
  replace (length pre + length g - length pre) with (length g + 0) by lia.
  rewrite firstn_app_2. cbn [firstn]. apply app_nil_r.
Qed.

(** Cutting at the cut positions of [p] gives [p] back. *)
Lemma split_cut_positions (p : list (list Z)) :
  forall (pre : list Z),
    p <> [] ->
    map (fun lh : nat * nat => slice (pre ++ concat p) (fst lh) (snd lh))
        (combine (length pre :: cut_positions (length pre) p)
                 (cut_positions (length pre) p ++
                  [length pre + length (concat p)])) = p.
Proof.
  induction p as [|g p IH]; intros pre Hne; [congruence|].
  destruct p as [|g' p].
  - cbn [cut_positions app combine map fst snd concat].
    rewrite app_nil_r at 2. rewrite slice_prefix. reflexivity.
  - change (cut_positions (length pre) (g :: g' :: p))
      with ((length pre + length g) ::
            cut_positions (length pre + length g) (g' :: p)).
    cbn [app combine map fst snd]. f_equal.
    + change (concat (g :: g' :: p)) with (g ++ concat (g' :: p)).
      apply slice_prefix.
    + specialize (IH (pre ++ g) ltac:(discriminate)).
      rewrite length_app in IH.
      change (concat (g :: g' :: p)) with (g ++ concat (g' :: p)).
      rewrite length_app, Nat.add_assoc.
      rewrite <- app_assoc in IH. exact IH.
Qed.

Lemma cut_positions_tuple (p : list (list Z)) :
  forall c,
    p <> [] ->
    Forall (fun g => g <> []) p ->
    length (cut_positions c p) = length p - 1 /\
    StronglySorted lt (cut_positions c p) /\
    Forall (fun i => c < i < c + length (concat p)) (cut_positions c p).
Proof.
  induction p as [|g p IH]; intros c Hne Hg; [congruence|].
  inversion Hg as [|? ? Hg1 Hg2]; subst.
  assert (Hlg : 0 < length g) by (destruct g; [congruence | cbn; lia]).
  destruct p as [|g' p].
  - cbn [cut_positions length]. repeat constructor.
  - change (cut_positions c (g :: g' :: p))
      with ((c + length g) :: cut_positions (c + length g) (g' :: p)).
    destruct (IH (c + length g) ltac:(discriminate) Hg2) as (Hl & Hs & Hb).
    change (concat (g :: g' :: p)) with (g ++ concat (g' :: p)).
    rewrite length_app.
    inversion Hg2 as [|? ? Hg' _]; subst.
    assert (Hlg' : 0 < length (concat (g' :: p))).
    { cbn [concat]. rewrite length_app.
      destruct g'; [congruence | cbn [length]; lia]. }
    split; [cbn [length] in *; lia|]. split.
    + constructor; [exact Hs|].
      eapply Forall_impl; [|exact Hb]. intros i Hi. cbv beta in Hi. lia.
    + constructor; [lia|].
      eapply Forall_impl; [|exact Hb]. intros i Hi. cbv beta in Hi. lia.
Qed.

(** The cut positions of the groups cut at [ixs] are [ixs]. *)
Lemma cut_positions_split (base : list Z) (L : nat) (ixs : list nat) :
  forall c,
    L <= length base ->
    StronglySorted lt (c :: ixs ++ [L]) ->
    cut_positions c
      (map (fun lh : nat * nat => slice base (fst lh) (snd lh))
           (combine (c :: ixs) (ixs ++ [L]))) = ixs.
Proof.
  induction ixs as [|i ixs IH]; intros c HL Hs; [reflexivity|].
  inversion Hs as [|? ? Hs' Hc]; subst. cbn [app] in Hs', Hc.
  inversion Hc as [|? ? Hci _]; subst.
  assert (HiL : i < L).
  { inversion Hs' as [|? ? _ Hi]; subst.
    apply Forall_app in Hi as [_ Hi]. inversion Hi; subst. assumption. }
  change (combine (c :: i :: ixs) ((i :: ixs) ++ [L]))
    with ((c, i) :: combine (i :: ixs) (ixs ++ [L])).
  rewrite map_cons. cbn [fst snd].
  specialize (IH i HL Hs').
  destruct (map (fun lh : nat * nat => slice base (fst lh) (snd lh))
                (combine (i :: ixs) (ixs ++ [L]))) as [|g' p] eqn:E.
  - destruct ixs; discriminate.
  - cbn [cut_positions]. rewrite slice_length by lia.
    replace (c + (i - c)) with i by lia. f_equal. exact IH.
Qed.

Lemma lex_lt_irrefl (xs : list nat) : ~ lex_lt xs xs.
Proof.
  induction xs as [|x xs IH]; intros H; inversion H; subst.
  - lia.
  - now apply IH.
Qed.

Lemma sorted_lex_NoDup (l : list (list nat)) :
  StronglySorted lex_lt l -> NoDup l.
Proof.
  induction 1 as [|x l _ IH Hx]; constructor; [|exact IH].
  intros Hin. rewrite Forall_forall in Hx.
  exact (lex_lt_irrefl x (Hx x Hin)).
Qed.

(** X11. On any non-empty sequence, the generator yields, each once, exactly the
    ways to write the sequence as a concatenation of [nbins] non-empty
    groups. *)
Theorem generate_bins_exhaustive (base : list Z) (nbins : Z) :
  base <> [] ->
  (1 <= nbins)%Z ->
  exists bs : list (list (list Z)),
    _generate_bins base nbins = Ok bs /\
    NoDup bs /\
    forall p,
      In p bs <->
      (Z.of_nat (length p) = nbins /\
       Forall (fun g => g <> []) p /\
       concat p = base).
Proof.
  intros Hne Hn.
  set (L := length base). set (k := Z.to_nat nbins - 1).
  assert (HL : 0 < L) by (unfold L; destruct base; [congruence | cbn; lia]).
  exists (map (split_at base) (combinations (seq 1 (L - 1)) k)).
  split; [apply generate_bins_unfold, Hn|]. split.
  - apply NoDup_map_NoDup_ForallPairs.
    + intros ixs ixs' Hi Hi' E.
      apply cut_tuple_combinations in Hi, Hi'.
      rewrite <- (cut_positions_split base L ixs 0 (Nat.le_refl _)
                    (cut_tuple_bounds L k ixs HL Hi)).
      rewrite <- (cut_positions_split base L ixs' 0 (Nat.le_refl _)
                    (cut_tuple_bounds L k ixs' HL Hi')).
      unfold split_at in E. fold L in E. now rewrite E.
    + apply sorted_lex_NoDup, combinations_lex, seq_sorted.
  - intros p. rewrite in_map_iff. split.
    + intros (ixs & <- & Hin). apply cut_tuple_combinations in Hin.
      destruct Hin as (Hlen & Hs & Hb).
      destruct (split_from base L ixs 0) as (Hl & Hcat & Hg).
      * constructor; [exact Hs|].
        eapply Forall_impl; [|exact Hb]. intros i Hi. cbv beta in Hi. lia.
      * constructor; [exact HL|].
        eapply Forall_impl; [|exact Hb]. intros i Hi. cbv beta in Hi. lia.
      * unfold split_at. fold L. split; [rewrite Hl, Hlen; unfold k; lia|].
        split; [|rewrite Hcat; apply slice_all].
        apply Forall_forall. intros g Hin.
        destruct (Hg g Hin) as (i & j & Hij & HjL & ->).
        intros E. apply (f_equal (@length Z)) in E.
        rewrite slice_length in E by exact HjL. cbn [length] in E. lia.
    + intros (Hlen & Hg & Hcat).
      assert (Hp : p <> []).
      { intros ->. cbn [length] in Hlen. lia. }
      exists (cut_positions 0 p).
      destruct (cut_positions_tuple p 0 Hp Hg) as (Hl & Hs & Hb).
      split.
      * pose proof (split_cut_positions p [] Hp) as E.
        cbn [length app Nat.add] in E. rewrite Hcat in E. exact E.
      * apply cut_tuple_combinations. split; [unfold k; lia|].
        split; [exact Hs|].
        eapply Forall_impl; [|exact Hb]. intros i Hi. cbv beta in Hi.
        rewrite Hcat in Hi. fold L in Hi. lia.
Qed.

Lemma generate_bins_exhaustive_witness :
  exists bs : list (list (list Z)),
    _generate_bins [7; 7; 9]%Z 2 = Ok bs /\
    NoDup bs /\
    forall p,
      In p bs <->
      (Z.of_nat (length p) = 2%Z /\
       Forall (fun g => g <> []) p /\
       concat p = [7; 7; 9]%Z).
Proof.
  apply (generate_bins_exhaustive [7; 7; 9]%Z 2); [discriminate | lia].
Defined.

(** ** The store: the input array is never written *)

Lemma bindM_Ok {A B : Type} (m : Store.M A) (k : A -> Store.M B)
    (s s' : Store.store) (x : A) :
  m s = (Ok x, s') -> Store.bindM m k s = k x s'.
Proof. intros H. unfold Store.bindM. now rewrite H. Qed.

Lemma bindM_Raise {A B : Type} (m : Store.M A) (k : A -> Store.M B)
    (s s' : Store.store) (e : exn) :
  m s = (Raise e, s') -> Store.bindM m k s = (Raise e, s').
Proof. intros H. unfold Store.bindM. now rewrite H. Qed.

Lemma read_values_at (s : Store.store) (l : Store.loc) (a : list value) :
  nth_error s l = Some (Store.Values a) -> Store.read_values l s = (Ok a, s).
Proof. intros H. unfold Store.read_values. now rewrite H. Qed.

Lemma read_labels_at (s : Store.store) (l : Store.loc) (b : list label) :
  nth_error s l = Some (Store.Labels b) -> Store.read_labels l s = (Ok b, s).
Proof. intros H. unfold Store.read_labels. now rewrite H. Qed.

Lemma read_mask_at (s : Store.store) (l : Store.loc) (m : list bool) :
  nth_error s l = Some (Store.Mask m) -> Store.read_mask l s = (Ok m, s).
Proof. intros H. unfold Store.read_mask. now rewrite H. Qed.

Lemma alloc_run (o : Store.obj) (s : Store.store) :
  Store.alloc o s = (Ok (length s), s ++ [o]).
Proof. reflexivity. Qed.

Lemma nth_error_grow {A : Type} (s ext : list A) (l : nat) (x : A) :
  nth_error s l = Some x -> nth_error (s ++ ext) l = Some x.
Proof.
  intros H. rewrite nth_error_app1; [exact H | exact (nth_error_lt s l x H)].
Qed.

Lemma nth_error_first_new {A : Type} (s rest : list A) (x : A) :
  nth_error (s ++ x :: rest) (length s) = Some x.
Proof. rewrite nth_error_app2, Nat.sub_diag by lia. reflexivity. Qed.

Lemma update_first_new (s rest : Store.store) (o o' : Store.obj) :
  Store.update (s ++ o :: rest) (length s) o' = s ++ o' :: rest.
Proof.
  induction s as [|x s IH]; [reflexivity|].
  cbn [app length Store.update]. now rewrite IH.
Qed.

(** One assignment [b[a == some_number] = ii]: [b] is overwritten, a mask is
    appended, the rest of the store is as before. *)
Lemma setitem_eq_run (s rest : Store.store) (la : Store.loc) (a : list value)
    (b : list label) (some_number : Z) (ii : nat) :
  nth_error s la = Some (Store.Values a) ->
  Store.setitem_eq (length s) la some_number ii (s ++ Store.Labels b :: rest) =
  (Ok tt,
   s ++ Store.Labels (assign_where b (map (fun x => np_eq x some_number) a) ii)
     :: rest ++ [Store.Mask (map (fun x => np_eq x some_number) a)]).
Proof.
  intros Ha. unfold Store.setitem_eq.
  rewrite (bindM_Ok _ _ _ _ _ (read_values_at _ _ _ (nth_error_grow _ _ _ _ Ha))).
  rewrite (bindM_Ok _ _ _ _ _ (alloc_run _ _)).
  rewrite (bindM_Ok _ _ _ _ _ (read_mask_at _ _ _ (nth_error_first_new _ _ _))).
  rewrite <- app_assoc. cbn [app].
  rewrite (bindM_Ok _ _ _ _ _ (read_labels_at _ _ _ (nth_error_first_new _ _ _))).
  unfold Store.write. now rewrite update_first_new.
Qed.

Lemma for_each_numbers_run (s : Store.store) (la : Store.loc) (a : list value)
    (ii : nat) (some_bin : list Z) :
  nth_error s la = Some (Store.Values a) ->
  forall (b : list label) (rest : Store.store),
  exists rest',
    Store.for_each some_bin
      (fun some_number => Store.setitem_eq (length s) la some_number ii)
      (s ++ Store.Labels b :: rest) =
    (Ok tt,
     s ++ Store.Labels
            (fold_left
               (fun b some_number =>
                  assign_where b (map (fun x => np_eq x some_number) a) ii)
               some_bin b)
       :: rest').
Proof.
  intros Ha. induction some_bin as [|n ns IH]; intros b rest.
  - exists rest. reflexivity.
  - cbn [Store.for_each fold_left].
    rewrite (bindM_Ok _ _ _ _ _ (setitem_eq_run s rest la a b n ii Ha)).
    apply IH.
Qed.

Lemma for_each_groups_run (s : Store.store) (la : Store.loc) (a : list value)
    (ibs : list (nat * list Z)) :
  nth_error s la = Some (Store.Values a) ->
  forall (b : list label) (rest : Store.store),
  exists rest',
    Store.for_each ibs
      (fun ib : nat * list Z =>
         Store.for_each (snd ib)
           (fun some_number =>
              Store.setitem_eq (length s) la some_number (fst ib)))
      (s ++ Store.Labels b :: rest) =
    (Ok tt,
     s ++ Store.Labels
            (fold_left
               (fun b (ib : nat * list Z) =>
                  fold_left
                    (fun b some_number =>
                       assign_where b (map (fun x => np_eq x some_number) a)
                                    (fst ib))
                    (snd ib) b)
               ibs b)
       :: rest').
Proof.
  intros Ha. induction ibs as [|ib ibs IH]; intros b rest.
  - exists rest. reflexivity.
  - cbn [Store.for_each fold_left].
    destruct (for_each_numbers_run s la a (fst ib) (snd ib) Ha b rest)
      as (rest1 & E1).
    rewrite (bindM_Ok _ _ _ _ _ E1). apply IH.
Qed.

(** [_apply_binning] on the store: new objects only, the last of which
    holds the labels the function computes. *)
Lemma apply_binning_run (s : Store.store) (la : Store.loc) (a : list value)
    (binning : list (list Z)) :
  nth_error s la = Some (Store.Values a) ->
  exists ext l,
    Store._apply_binning la binning s = (Ok l, s ++ ext) /\
    length s <= l /\
    nth_error (s ++ ext) l = Some (Store.Labels (_apply_binning a binning)).
Proof.
  intros Ha. unfold Store._apply_binning.
  rewrite (bindM_Ok _ _ _ _ _ (read_values_at _ _ _ Ha)).
  rewrite (bindM_Ok _ _ _ _ _ (alloc_run _ _)).
  destruct (for_each_groups_run s la a (enumerate binning) Ha
              (full_like_nan a) []) as (rest & E).
  rewrite (bindM_Ok _ _ _ _ _ E).
  fold (_apply_binning a binning).
  rewrite (bindM_Ok _ _ _ _ _ (read_labels_at _ _ _ (nth_error_first_new _ _ _))).
  unfold Store.alloc.
  exists (Store.Labels (_apply_binning a binning) :: rest ++
          [Store.Labels (_apply_binning a binning)]).
  exists (length (s ++ Store.Labels (_apply_binning a binning) :: rest)).
  split; [now rewrite <- app_assoc|]. split.
  - rewrite length_app. lia.
  - change (s ++ Store.Labels (_apply_binning a binning) :: rest ++
            [Store.Labels (_apply_binning a binning)])
      with (s ++ (Store.Labels (_apply_binning a binning) :: rest) ++
            [Store.Labels (_apply_binning a binning)]).
    rewrite app_assoc. apply nth_error_first_new.
Qed.

Lemma evaluate_binning_run (s : Store.store) (la : Store.loc) (a : list value)
    (binning : list (list Z)) :
  nth_error s la = Some (Store.Values a) ->
  exists ext,
    Store._evaluate_binning la binning s =
    (Ok (_evaluate_binning a binning), s ++ ext).
Proof.
  intros Ha. unfold Store._evaluate_binning.
  destruct (apply_binning_run s la a binning Ha) as (ext & l & E & _ & Hl).
  rewrite (bindM_Ok _ _ _ _ _ E).
  rewrite (bindM_Ok _ _ _ _ _ (read_labels_at _ _ _ Hl)).
  exists ext. reflexivity.
Qed.

Lemma search_run (la : Store.loc) (a : list value)
    (binnings : list (list (list Z))) :
  forall (s : Store.store) (st : float * option (list (list Z))),
    nth_error s la = Some (Store.Values a) ->
    exists ext,
      Store.for_fold binnings
        (fun (st : float * option (list (list Z))) binning =>
           Store.bindM (Store._evaluate_binning la binning)
             (fun h =>
                Store.ret (if fgt h (fst st) then (h, Some binning) else st)))
        st s =
      (Ok (fold_left (search_step a) binnings st), s ++ ext).
Proof.
  induction binnings as [|c cs IH]; intros s st Ha.
  - exists []. cbn [Store.for_fold fold_left]. unfold Store.ret.
    now rewrite app_nil_r.
  - cbn [Store.for_fold fold_left].
    destruct (evaluate_binning_run s la a c Ha) as (ext1 & E1).
    rewrite (bindM_Ok _ _ _ (s ++ ext1) (search_step a st c)).
    2:{ rewrite (bindM_Ok _ _ _ _ _ E1). reflexivity. }
    destruct (IH (s ++ ext1) (search_step a st c)
                 (nth_error_grow _ _ _ _ Ha)) as (ext2 & E2).
    exists (ext1 ++ ext2). rewrite E2. now rewrite app_assoc.
Qed.

Lemma lift_run {A : Type} (r : result A) (s : Store.store) :
  Store.lift r s = (r, s).
Proof. reflexivity. Qed.

(** [bin_sequence] on the store against [bin_sequence] on the contents. *)
Lemma bin_sequence_run (s : Store.store) (la : Store.loc) (a : list value)
    (nbins : Z) :
  nth_error s la = Some (Store.Values a) ->
  exists ext,
    match bin_sequence a nbins with
    | Ok b =>
        exists l,
          Store.bin_sequence la nbins s = (Ok l, s ++ ext) /\
          length s <= l /\
          nth_error (s ++ ext) l = Some (Store.Labels b)
    | Raise e => Store.bin_sequence la nbins s = (Raise e, s ++ ext)
    end.
Proof.
  intros Ha. unfold Store.bin_sequence, bin_sequence.
  rewrite (bindM_Ok _ _ _ _ _ (read_values_at _ _ _ Ha)).
  destruct (negb (forallb (fun x => _isinteger x || isnan x) a)).
  { exists []. now rewrite app_nil_r. }
  destruct (v <- nanmin a;; np_int v) as [amin|e].
  2:{ exists []. rewrite (bindM_Raise _ _ _ _ _ (lift_run _ _)).
      now rewrite app_nil_r. }
  rewrite (bindM_Ok _ _ _ _ _ (lift_run _ _)). cbn [bind].
  destruct (v <- nanmax a;; np_int v) as [amax|e].
  2:{ exists []. rewrite (bindM_Raise _ _ _ _ _ (lift_run _ _)).
      now rewrite app_nil_r. }
  rewrite (bindM_Ok _ _ _ _ _ (lift_run _ _)). cbn [bind].
  destruct (_generate_bins (py_range amin (amax + 1)) nbins) as [binnings|e].
  2:{ exists []. rewrite (bindM_Raise _ _ _ _ _ (lift_run _ _)).
      now rewrite app_nil_r. }
  rewrite (bindM_Ok _ _ _ _ _ (lift_run _ _)). cbn [bind].
  destruct (search_run la a binnings s (Num 0%R, None) Ha) as (ext1 & E1).
  rewrite (bindM_Ok _ _ _ _ _ E1).
  destruct (snd (fold_left (search_step a) binnings (Num 0%R, None)))
    as [best_binning|].
  - destruct (apply_binning_run (s ++ ext1) la a best_binning
                (nth_error_grow _ _ _ _ Ha)) as (ext2 & l & E2 & Hl & Hb).
    exists (ext1 ++ ext2), l. rewrite app_assoc.
    split; [exact E2|]. split; [|exact Hb].
    rewrite length_app in Hl. lia.
  - exists ext1. reflexivity.
Qed.

(** X12. The store after a call of [bin_sequence], returning or raising, is the
    store before the call with new objects appended: no object that existed
    is modified, the input array included.  When the location passed holds
    an array of values, the call returns exactly when [bin_sequence] on the
    contents does, the result is a new object that holds the labels, and the
    exceptions are the same. *)
Theorem bin_sequence_store_frame (s : Store.store) (la : Store.loc)
    (nbins : Z) :
  exists ext,
    snd (Store.bin_sequence la nbins s) = s ++ ext /\
    forall a,
      nth_error s la = Some (Store.Values a) ->
      match fst (Store.bin_sequence la nbins s), bin_sequence a nbins with
      | Ok l, Ok b =>
          length s <= l /\ nth_error (s ++ ext) l = Some (Store.Labels b)
      | Raise e, Raise e' => e = e'
      | _, _ => False
      end.
Proof.
  destruct (nth_error s la) as [[a | b | m]|] eqn:Ha.
  - destruct (bin_sequence_run s la a nbins Ha) as (ext & H).
    exists ext. destruct (bin_sequence a nbins) as [b|e] eqn:Eb.
    + destruct H as (l & -> & Hl & Hb). split; [reflexivity|].
      intros a' [= <-]. rewrite Eb. cbn [fst]. split; assumption.
    + rewrite H. split; [reflexivity|].
      intros a' [= <-]. rewrite Eb. reflexivity.
  - exists []. unfold Store.bin_sequence, Store.bindM, Store.read_values.
    rewrite Ha. cbn [snd]. split; [now rewrite app_nil_r | discriminate].
  - exists []. unfold Store.bin_sequence, Store.bindM, Store.read_values.
    rewrite Ha. cbn [snd]. split; [now rewrite app_nil_r | discriminate].
  - exists []. unfold Store.bin_sequence, Store.bindM, Store.read_values.
    rewrite Ha. cbn [snd]. split; [now rewrite app_nil_r | discriminate].
Qed.

(** C10. [bin_sequence] and its helpers never write to the input array.
    Whatever the store held before a call of [bin_sequence],
    [_apply_binning] or [_evaluate_binning], it holds at the same location
    after the call, whether the call returns or raises; in particular the
    input array holds the values it held.  When [bin_sequence] returns, the
    result is at a location that did not exist before the call, and it
    holds the labels of the value-level function. *)
Theorem bin_sequence_keeps_input (s : Store.store) (la : Store.loc)
    (a : list value) (nbins : Z) (binning : list (list Z)) :
  nth_error s la = Some (Store.Values a) ->
  nth_error (snd (Store.bin_sequence la nbins s)) la = Some (Store.Values a) /\
  (forall l o,
      nth_error s l = Some o ->
      nth_error (snd (Store.bin_sequence la nbins s)) l = Some o /\
      nth_error (snd (Store._apply_binning la binning s)) l = Some o /\
      nth_error (snd (Store._evaluate_binning la binning s)) l = Some o) /\
  (forall l,
      fst (Store.bin_sequence la nbins s) = Ok l ->
      length s <= l /\
      exists b,
        bin_sequence a nbins = Ok b /\
        nth_error (snd (Store.bin_sequence la nbins s)) l =
          Some (Store.Labels b)).
Proof.
  intros Ha.
  destruct (bin_sequence_run s la a nbins Ha) as (ext & Hrun).
  assert (Hs : snd (Store.bin_sequence la nbins s) = s ++ ext).
  { destruct (bin_sequence a nbins) as [b|e].
    - destruct Hrun as (l & -> & _). reflexivity.
    - now rewrite Hrun. }
  split; [rewrite Hs; apply nth_error_grow, Ha|]. split.
  - intros l o Hl. split; [rewrite Hs; apply nth_error_grow, Hl|].
    destruct (apply_binning_run s la a binning Ha) as (ext1 & l1 & -> & _).
    destruct (evaluate_binning_run s la a binning Ha) as (ext2 & ->).
    cbn [snd]. split; apply nth_error_grow, Hl.
  - intros l Hl. destruct (bin_sequence a nbins) as [b|e].
    + destruct Hrun as (l' & E & Hle & Hb). rewrite E in Hl |- *.
      cbn [fst snd] in *. injection Hl as <-.
      split; [exact Hle|]. exists b. split; [reflexivity | exact Hb].
    + rewrite Hrun in Hl. discriminate.
Qed.

Lemma bin_sequence_keeps_input_witness :
  nth_error (snd (Store.bin_sequence 0 2 [Store.Values example_input])) 0 =
  Some (Store.Values example_input).
Proof.
  exact (proj1 (bin_sequence_keeps_input [Store.Values example_input] 0
                  example_input 2 [] eq_refl)).
Defined.

(** ** The order of the elements does not matter *)

Lemma non_nan_perm (b b' : list label) :
  Permutation b b' -> Permutation (non_nan b) (non_nan b').
Proof.
  induction 1 as [|x l l' _ IH|x y l|l l' l'' _ IH1 _ IH2].
  - constructor.
  - unfold non_nan. cbn [flat_map]. apply Permutation_app_head, IH.
  - unfold non_nan. cbn [flat_map]. rewrite !app_assoc.
    apply Permutation_app_tail, Permutation_app_comm.
  - exact (Permutation_trans IH1 IH2).
Qed.

Lemma list_max_perm (l l' : list nat) :
  Permutation l l' -> list_max l = list_max l'.
Proof.
  induction 1 as [|x l l' _ IH|x y l|l l' l'' _ IH1 _ IH2].
  - reflexivity.
  - change (Nat.max x (list_max l) = Nat.max x (list_max l')). now rewrite IH.
  - change (Nat.max y (Nat.max x (list_max l)) =
            Nat.max x (Nat.max y (list_max l))). lia.
  - now rewrite IH1.
Qed.

Lemma count_occ_perm (l l' : list nat) (k : nat) :
  Permutation l l' -> count_occ Nat.eq_dec l k = count_occ Nat.eq_dec l' k.
Proof.
  induction 1 as [|x l l' _ IH|x y l|l l' l'' _ IH1 _ IH2].
  - reflexivity.
  - cbn [count_occ]. now rewrite IH.
  - cbn [count_occ]. destruct (Nat.eq_dec y k), (Nat.eq_dec x k); reflexivity.
  - now rewrite IH1.
Qed.

Lemma bincount_perm (l l' : list nat) :
  Permutation l l' -> bincount l = bincount l'.
Proof.
  intros H. destruct l as [|x l].
  - apply Permutation_nil in H. now subst.
  - destruct l' as [|x' l'].
    + apply Permutation_sym, Permutation_nil in H. discriminate.
    + unfold bincount. rewrite (list_max_perm _ _ H).
      apply map_ext. intros k. apply count_occ_perm, H.
Qed.

(** X13. The entropy depends on the labels only through their occupancies: it is
    the same for any rearrangement of the array. *)
Theorem get_h_permutation (b b' : list label) :
  Permutation b b' -> _get_h b = _get_h b'.
Proof.
  intros H. unfold _get_h. cbv zeta.
  now rewrite (bincount_perm _ _ (non_nan_perm _ _ H)).
Qed.

Lemma get_h_permutation_witness :
  _get_h [Some 0; None; Some 1; Some 1] = _get_h [Some 1; Some 0; Some 1; None].
Proof.
  apply get_h_permutation.
  apply (Permutation_trans (l' := [Some 0; Some 1; None; Some 1])).
  - constructor. apply perm_swap.
  - apply (Permutation_trans (l' := [Some 1; Some 0; None; Some 1])).
    + apply perm_swap.
    + do 2 constructor. apply perm_swap.
Defined.

Lemma checked_perm (a a' : list value) :
  Permutation a a' -> checked a = checked a'.
Proof.
  unfold checked.
  induction 1 as [|x l l' _ IH|x y l|l l' l'' _ IH1 _ IH2]; cbn [forallb].
  - reflexivity.
  - now rewrite IH.
  - rewrite !andb_assoc. f_equal. apply andb_comm.
  - now rewrite IH1.
Qed.

Lemma evaluate_binning_perm (a a' : list value) (binning : list (list Z)) :
  Permutation a a' ->
  _evaluate_binning a binning = _evaluate_binning a' binning.
Proof.
  intros H. unfold _evaluate_binning, _get_h. cbv zeta.
  rewrite !apply_binning_map.
  now rewrite (bincount_perm _ _
                 (non_nan_perm _ _ (Permutation_map (label_of binning) H))).
Qed.

Lemma search_perm (a a' : list value) (binnings : list (list (list Z))) :
  Permutation a a' ->
  forall st,
    fold_left (search_step a) binnings st =
    fold_left (search_step a') binnings st.
Proof.
  intros H. induction binnings as [|c cs IH]; intros st; [reflexivity|].
  cbn [fold_left]. unfold search_step at 2 4. cbv zeta.
  rewrite (evaluate_binning_perm a a' c H). apply IH.
Qed.

(** X14. [bin_sequence] on a rearrangement of the input: the same exception, or
    the same binning applied to the rearranged input. *)
Theorem bin_sequence_permutation (a a' : list value) (nbins : Z) :
  Permutation a a' ->
  (exists e, bin_sequence a nbins = Raise e /\
             bin_sequence a' nbins = Raise e) \/
  (exists binning,
      bin_sequence a nbins = Ok (_apply_binning a binning) /\
      bin_sequence a' nbins = Ok (_apply_binning a' binning)).
Proof.
  intros H. pose proof (checked_perm a a' H) as Hcc.
  destruct (checked a) eqn:Hc.
  2:{ left. exists AssertionError.
      split; apply bin_sequence_unchecked; congruence. }
  symmetry in Hcc.
  destruct (nan_or_number a) as [Hex | Hnan].
  2:{ left. exists ValueError.
      split; apply bin_sequence_no_number; [exact Hnan|].
      intros x Hx. apply Hnan.
      exact (Permutation_in x (Permutation_sym H) Hx). }
  assert (Hex' : exists x, In x a' /\ isnan x = false).
  { destruct Hex as (x & Hx & Hn). exists x.
    split; [exact (Permutation_in x H Hx) | exact Hn]. }
  destruct (value_range a Hc Hex)
    as (amin & amax & Hmin & Hmax & Hr & (p0 & Hp0 & Hlo) & (p1 & Hp1 & Hhi)).
  destruct (value_range a' Hcc Hex')
    as (amin' & amax' & Hmin' & Hmax' & Hr'
        & (q0 & Hq0 & Hlo') & (q1 & Hq1 & Hhi')).
  assert (Emin : amin' = amin).
  { pose proof (Hr' p0 (Permutation_in _ H Hp0)).
    pose proof (Hr q0 (Permutation_in _ (Permutation_sym H) Hq0)). lia. }
  assert (Emax : amax' = amax).
  { pose proof (Hr' p1 (Permutation_in _ H Hp1)).
    pose proof (Hr q1 (Permutation_in _ (Permutation_sym H) Hq1)). lia. }
  clear Hlo Hhi Hlo' Hhi'. subst amin' amax'.
  rewrite (bin_sequence_checked a nbins amin amax Hc Hmin Hmax).
  rewrite (bin_sequence_checked a' nbins amin amax Hcc Hmin' Hmax').
  destruct (_generate_bins (py_range amin (amax + 1)) nbins) as [binnings|e].
  2:{ left. exists e. split; reflexivity. }
  cbn [bind]. unfold search.
  rewrite <- (search_perm a a' binnings H).
  destruct (snd (fold_left (search_step a) binnings (Num 0%R, None)))
    as [best|].
  - right. exists best. split; reflexivity.
  - left. exists UnboundLocalError. split; reflexivity.
Qed.

Lemma bin_sequence_permutation_witness :
  (exists e, bin_sequence [int 1; int 0; int 1] 2 = Raise e /\
             bin_sequence [int 0; int 1; int 1] 2 = Raise e) \/
  (exists binning,
      bin_sequence [int 1; int 0; int 1] 2 =
        Ok (_apply_binning [int 1; int 0; int 1] binning) /\
      bin_sequence [int 0; int 1; int 1] 2 =
        Ok (_apply_binning [int 0; int 1; int 1] binning)).
Proof.
  apply bin_sequence_permutation. apply perm_swap.
Defined.

(** ** Missing elements do not take part in the search *)

Lemma checked_filter (a : list value) :
  checked (filter (fun x => negb (isnan x)) a) = checked a.
Proof.
  unfold checked. induction a as [|x a IH]; [reflexivity|].
  cbn [filter forallb]. destruct x as [q|s|]; cbn [isnan negb forallb].
  - now rewrite IH.
  - now rewrite IH.
  - rewrite IH. now rewrite orb_true_r.
Qed.

Lemma non_nan_filter (binning : list (list Z)) (a : list value) :
  non_nan (map (label_of binning) (filter (fun x => negb (isnan x)) a)) =
  non_nan (map (label_of binning) a).
Proof.
  induction a as [|x a IH]; [reflexivity|].
  cbn [filter map]. destruct x as [q|s|]; cbn [isnan negb map].
  - unfold non_nan in *. cbn [flat_map]. now rewrite IH.
  - unfold non_nan in *. cbn [flat_map]. now rewrite IH.
  - rewrite label_of_nan. exact IH.
Qed.

Lemma evaluate_binning_filter (a : list value) (binning : list (list Z)) :
  _evaluate_binning (filter (fun x => negb (isnan x)) a) binning =
  _evaluate_binning a binning.
Proof.
  unfold _evaluate_binning, _get_h. cbv zeta.
  now rewrite !apply_binning_map, non_nan_filter.
Qed.

Lemma search_filter (a : list value) (binnings : list (list (list Z))) :
  forall st,
    fold_left (search_step (filter (fun x => negb (isnan x)) a)) binnings st =
    fold_left (search_step a) binnings st.
Proof.
  induction binnings as [|c cs IH]; intros st; [reflexivity|].
  cbn [fold_left]. rewrite IH. f_equal.
  unfold search_step. cbv zeta. now rewrite evaluate_binning_filter.
Qed.

(** X15. Dropping the NaN elements of the input changes nothing to what
    [bin_sequence] decides: the same exception, or the same partition. *)
Theorem bin_sequence_ignores_nan (a : list value) (nbins : Z) :
  (exists e,
      bin_sequence a nbins = Raise e /\
      bin_sequence (filter (fun x => negb (isnan x)) a) nbins = Raise e) \/
  (exists binning,
      bin_sequence a nbins = Ok (_apply_binning a binning) /\
      bin_sequence (filter (fun x => negb (isnan x)) a) nbins =
        Ok (_apply_binning (filter (fun x => negb (isnan x)) a) binning)).
Proof.
  set (a' := filter (fun x => negb (isnan x)) a).
  pose proof (checked_filter a) as Hcc. fold a' in Hcc.
  assert (Hin : forall x, In x a' <-> In x a /\ isnan x = false).
  { intros x. unfold a'. rewrite filter_In.
    destruct (isnan x); cbn [negb]; intuition congruence. }
  destruct (checked a) eqn:Hc.
  2:{ left. exists AssertionError.
      split; apply bin_sequence_unchecked; assumption. }
  destruct (nan_or_number a) as [Hex | Hnan].
  2:{ left. exists ValueError.
      split; apply bin_sequence_no_number; [exact Hnan|].
      intros x Hx. apply Hnan, Hin, Hx. }
  assert (Hex' : exists x, In x a' /\ isnan x = false).
  { destruct Hex as (x & Hx & Hn). exists x.
    split; [apply Hin; split; assumption | exact Hn]. }
  assert (HNum : forall q, In (Num q) a' <-> In (Num q) a).
  { intros q. rewrite Hin. cbn [isnan]. intuition. }
  destruct (value_range a Hc Hex)
    as (amin & amax & Hmin & Hmax & Hr & (p0 & Hp0 & Hlo) & (p1 & Hp1 & Hhi)).
  destruct (value_range a' Hcc Hex')
    as (amin' & amax' & Hmin' & Hmax' & Hr'
        & (q0 & Hq0 & Hlo') & (q1 & Hq1 & Hhi')).
  assert (Emin : amin' = amin).
  { pose proof (Hr' p0 (proj2 (HNum p0) Hp0)).
    pose proof (Hr q0 (proj1 (HNum q0) Hq0)). lia. }
  assert (Emax : amax' = amax).
  { pose proof (Hr' p1 (proj2 (HNum p1) Hp1)).
    pose proof (Hr q1 (proj1 (HNum q1) Hq1)). lia. }
  clear Hlo Hhi Hlo' Hhi'. subst amin' amax'.
  rewrite (bin_sequence_checked a nbins amin amax Hc Hmin Hmax).
  rewrite (bin_sequence_checked a' nbins amin amax Hcc Hmin' Hmax').
  destruct (_generate_bins (py_range amin (amax + 1)) nbins) as [binnings|e].
  2:{ left. exists e. split; reflexivity. }
  cbn [bind]. unfold search, a'. rewrite search_filter.
  destruct (snd (fold_left (search_step a) binnings (Num 0%R, None)))
    as [best|].
  - right. exists best. split; reflexivity.
  - left. exists UnboundLocalError. split; reflexivity.
Qed.

(** ** When the search succeeds *)


Lemma Forall2_In_r {A B : Type} (P : A -> B -> Prop) (l : list A)
    (l' : list B) (y : B) :
  Forall2 P l l' -> In y l' -> exists x, In x l /\ P x y.
Proof.
  induction 1 as [|x y' l l' Hxy _ IH]; intros Hy; [destruct Hy|].
  destruct Hy as [-> | Hy].
  - exists x. split; [now left | exact Hxy].
  - destruct (IH Hy) as (x' & Hx' & Hp). exists x'. split; [now right | exact Hp].
Qed.









(** ** [bin_array] *)

Lemma bin_sequence_length (a : list value) (nbins : Z) (b : list label) :
  bin_sequence a nbins = Ok b -> length b = length a.
Proof.
  intros H.
  destruct (bin_sequence_Ok_inv a nbins b H) as (? & ? & ? & _ & _ & _ & _ & _ & ->).
  apply length_map.
Qed.

(** X17. With [axis=None] all the elements are binned together: the result has
    the shape of [A] and, in row-major order, the elements [bin_sequence]
    returns for the flattened array; [reshape] never fails, so the
    exceptions are those of [bin_sequence]. *)
Theorem bin_array_flat (A : array2 value) (nbins : Z) :
  well_shaped A ->
  bin_array A nbins None =
  (b <- bin_sequence (elems A) nbins ;;
   Ok {| nrows := nrows A; ncols := ncols A; elems := b |}) /\
  forall B, bin_array A nbins None = Ok B ->
            well_shaped B /\ nrows B = nrows A /\ ncols B = ncols A.
Proof.
  intros Hw.
  assert (E : bin_array A nbins None =
              (b <- bin_sequence (elems A) nbins ;;
               Ok {| nrows := nrows A; ncols := ncols A; elems := b |})).
  { unfold bin_array, ravel.
    destruct (bin_sequence (elems A) nbins) as [b|e] eqn:Eb; [|reflexivity].
    cbn [bind]. unfold reshape. cbn [fst snd].
    rewrite (bin_sequence_length _ _ _ Eb), Hw, Nat.eqb_refl. reflexivity. }
  split; [exact E|]. intros B HB. rewrite E in HB.
  apply bind_inv in HB as (b & Hb & [= <-]).
  unfold well_shaped. cbn [nrows ncols elems].
  rewrite (bin_sequence_length _ _ _ Hb). auto.
Qed.

Lemma bin_array_flat_witness :
  bin_array {| nrows := 2; ncols := 5; elems := example_input |} 2 None =
  Ok {| nrows := 2; ncols := 5;
        elems := [Some 0; Some 0; Some 0; Some 0;
                  Some 1; Some 1; Some 1; Some 1; Some 1; Some 1] |}.
Proof.
  rewrite (proj1 (bin_array_flat
                    {| nrows := 2; ncols := 5; elems := example_input |} 2
                    eq_refl)).
  cbn [elems nrows ncols]. rewrite example_run. reflexivity.
Defined.

Lemma slice_skip {T : Type} (pre l : list T) (i j : nat) :
  slice (pre ++ l) (length pre + i) (length pre + j) = slice l i j.
Proof.
  unfold slice. rewrite skipn_app, skipn_all2 by lia. cbn [app].
  f_equal; [lia | f_equal; lia].
Qed.

(** Chunk [i] of a concatenation of lists of length [M]. *)
Lemma slice_concat {T : Type} (M : nat) (rs : list (list T)) :
  Forall (fun r => length r = M) rs ->
  forall i r, nth_error rs i = Some r ->
              slice (concat rs) (i * M) (i * M + M) = r.
Proof.
  induction 1 as [|r0 rs Hr0 _ IH]; intros i r Hi; [destruct i; discriminate|].
  destruct i as [|i]; cbn [nth_error] in Hi; cbn [concat].
  - injection Hi as <-. cbn [Nat.mul Nat.add]. rewrite <- Hr0.
    exact (slice_prefix [] r0 (concat rs)).
  - replace (S i * M) with (length r0 + i * M) by (rewrite Hr0; lia).
    rewrite <- Nat.add_assoc, slice_skip. apply IH, Hi.
Qed.

Lemma row_length {T : Type} (A : array2 T) (i : nat) :
  well_shaped A -> i < nrows A -> length (row A i) = ncols A.
Proof.
  intros Hw Hi. unfold row. rewrite slice_length; [lia|].
  rewrite Hw. replace (i * ncols A + ncols A) with (S i * ncols A) by lia.
  apply Nat.mul_le_mono_r. lia.
Qed.

Lemma store_slice_same {U : Type} (n : nat) (res : list U) :
  length res = n -> store_slice n res = Ok res.
Proof. intros H. unfold store_slice. now rewrite H, Nat.eqb_refl. Qed.

(** The loop over the slices when [func1d] keeps the length [n]: all the
    results in order, or the exception of the first slice that raises. *)
Lemma apply_rest_spec {T U : Type} (func1d : list T -> result (list U))
    (n : nat) (slices : list (list T)) :
  (forall s r, In s slices -> func1d s = Ok r -> length r = n) ->
  match apply_rest func1d n slices with
  | Ok rs => Forall2 (fun s r => func1d s = Ok r) slices rs
  | Raise e =>
      exists pre s post,
        slices = pre ++ s :: post /\
        func1d s = Raise e /\
        Forall (fun s' => exists r, func1d s' = Ok r) pre
  end.
Proof.
  induction slices as [|s slices IH]; intros Hlen; cbn [apply_rest].
  - constructor.
  - destruct (func1d s) as [r|e] eqn:Es; cbn [bind].
    + rewrite (store_slice_same n r (Hlen s r (or_introl eq_refl) Es)).
      cbn [bind].
      specialize (IH (fun s' r' Hs' => Hlen s' r' (or_intror Hs'))).
      destruct (apply_rest func1d n slices) as [rs|e]; cbn [bind].
      * constructor; assumption.
      * destruct IH as (pre & s' & post & -> & Hs' & Hpre).
        exists (s :: pre), s', post. split; [reflexivity|].
        split; [exact Hs'|]. constructor; [eauto | exact Hpre].
    + exists [], s, slices. split; [reflexivity|]. split; [exact Es|].
      constructor.
Qed.

Lemma Forall2_nth_error {A B : Type} (P : A -> B -> Prop) (l : list A)
    (l' : list B) :
  Forall2 P l l' ->
  forall i x, nth_error l i = Some x ->
              exists y, nth_error l' i = Some y /\ P x y.
Proof.
  induction 1 as [|x0 y0 l l' H0 _ IH]; intros i x Hi;
    [destruct i; discriminate|].
  destruct i as [|i]; cbn [nth_error] in *.
  - injection Hi as <-. eauto.
  - apply IH, Hi.
Qed.

Lemma rows_nth_error {T : Type} (A : array2 T) (i : nat) :
  i < nrows A -> nth_error (rows A) i = Some (row A i).
Proof.
  intros Hi. unfold rows. rewrite nth_error_map.
  rewrite (nth_error_nth' _ 0) by (rewrite length_seq; exact Hi).
  now rewrite seq_nth.
Qed.

(** The two outcomes of [np.apply_along_axis] when [func1d] returns arrays
    of one length [len]: the buffer of all the results, transposed back when
    the slices are the columns, or the exception of the first slice that
    raises. *)
Lemma apply_along_axis_spec {T U : Type} (func1d : list T -> result (list U))
    (axis : Z) (A : array2 T) (len : nat) :
  (-2 <= axis < 2)%Z ->
  let along_rows := ((axis =? 1) || (axis =? -1))%Z in
  let slices := if along_rows then rows A else columns A in
  (forall s r, In s slices -> func1d s = Ok r -> length r = len) ->
  match np_apply_along_axis func1d axis A with
  | Ok B =>
      exists rs,
        Forall2 (fun s r => func1d s = Ok r) slices rs /\
        B = (if along_rows
             then {| nrows := length slices; ncols := len;
                     elems := concat rs |}
             else transpose {| nrows := length slices; ncols := len;
                               elems := concat rs |})
  | Raise e =>
      (slices = [] /\ e = ValueError) \/
      exists pre s post,
        slices = pre ++ s :: post /\
        func1d s = Raise e /\
        Forall (fun s' => exists r, func1d s' = Ok r) pre
  end.
Proof.
  intros Hax along_rows slices Hlen. unfold np_apply_along_axis.
  replace ((axis <? -2) || (2 <=? axis))%Z with false.
  2:{ symmetry. apply orb_false_iff. split; [apply Z.ltb_ge | apply Z.leb_gt]; lia. }
  cbv zeta. fold along_rows. fold slices.
  destruct slices as [|s0 slices'] eqn:Es.
  - left. split; reflexivity.
  - destruct (func1d s0) as [res0|e] eqn:E0; cbn [bind].
    2:{ right. exists [], s0, slices'. split; [reflexivity|].
        split; [exact E0 | constructor]. }
    assert (Hl0 : length res0 = len) by (apply (Hlen s0); [now left | exact E0]).
    pose proof (apply_rest_spec func1d (length res0) slices') as Hrest.
    destruct (apply_rest func1d (length res0) slices') as [rs|e]; cbn [bind].
    + exists (res0 :: rs). split.
      * constructor; [exact E0|]. apply Hrest.
        intros s r Hs Hr. rewrite Hl0. apply (Hlen s); [now right | exact Hr].
      * now rewrite Hl0.
    + right. destruct Hrest as (pre & s & post & -> & Hs & Hpre).
      { intros s r Hs Hr. rewrite Hl0. apply (Hlen s); [now right | exact Hr]. }
      exists (s0 :: pre), s, post. split; [reflexivity|].
      split; [exact Hs|]. constructor; [eauto | exact Hpre].
Qed.

Lemma rows_length_all {T : Type} (A : array2 T) :
  well_shaped A -> forall s, In s (rows A) -> length s = ncols A.
Proof.
  intros Hw s Hs. unfold rows in Hs. apply in_map_iff in Hs as (i & <- & Hi).
  apply in_seq in Hi. apply row_length; [exact Hw | lia].
Qed.

Lemma rows_count {T : Type} (A : array2 T) : length (rows A) = nrows A.
Proof. unfold rows. now rewrite length_map, length_seq. Qed.

(** The two outcomes of [bin_array] along the rows of a well-shaped
    array. *)
Lemma bin_array_rows_spec (A : array2 value) (nbins : Z) :
  well_shaped A ->
  match bin_array A nbins (Some 1%Z) with
  | Ok B =>
      nrows B = nrows A /\ ncols B = ncols A /\
      exists rs, elems B = concat rs /\
                 Forall2 (fun s r => bin_sequence s nbins = Ok r) (rows A) rs
  | Raise e =>
      (nrows A = 0 /\ e = ValueError) \/
      exists pre s post,
        rows A = pre ++ s :: post /\
        bin_sequence s nbins = Raise e /\
        Forall (fun s' => exists r, bin_sequence s' nbins = Ok r) pre
  end.
Proof.
  intros Hw. unfold bin_array.
  pose proof (apply_along_axis_spec (fun a => bin_sequence a nbins) 1 A
                (ncols A) ltac:(lia)) as H.
  cbv zeta in H. cbn [Z.eqb Pos.eqb orb] in H.
  specialize (H (fun s r Hs Hr =>
                   eq_trans (bin_sequence_length _ _ _ Hr)
                            (rows_length_all A Hw s Hs))).
  destruct (np_apply_along_axis (fun a => bin_sequence a nbins) 1 A) as [B|e].
  - destruct H as (rs & Hall & ->). cbn [nrows ncols elems].
    split; [apply rows_count|]. split; [reflexivity|]. now exists rs.
  - destruct H as [[H ->] | H]; [|now right].
    left. split; [|reflexivity]. now rewrite <- rows_count, H.
Qed.

Lemma length_concat_uniform {T : Type} (M : nat) (rs : list (list T)) :
  Forall (fun r => length r = M) rs -> length (concat rs) = length rs * M.
Proof.
  induction 1 as [|r rs Hr _ IH]; [reflexivity|].
  cbn [concat length]. rewrite length_app, IH, Hr. lia.
Qed.

Lemma binned_rows_length (A : array2 value) (nbins : Z)
    (rs : list (list label)) :
  well_shaped A ->
  Forall2 (fun s r => bin_sequence s nbins = Ok r) (rows A) rs ->
  Forall (fun r => length r = ncols A) rs.
Proof.
  intros Hw H. apply Forall_forall. intros r Hr.
  destruct (Forall2_In_r _ _ _ _ H Hr) as (s & Hs & Hsr).
  rewrite (bin_sequence_length _ _ _ Hsr).
  unfold rows in Hs. apply in_map_iff in Hs as (i & <- & Hi).
  apply in_seq in Hi. apply row_length; [exact Hw | lia].
Qed.

(** X18. Along [axis=1] the rows are binned one by one, each on its own: when
    [bin_array] returns, the result has the shape of [A] and its row [i] is
    what [bin_sequence] returns for row [i] of [A]. *)
Theorem bin_array_rows (A : array2 value) (nbins : Z) (B : array2 label) :
  well_shaped A ->
  bin_array A nbins (Some 1%Z) = Ok B ->
  nrows B = nrows A /\ ncols B = ncols A /\ well_shaped B /\
  forall i, i < nrows A -> bin_sequence (row A i) nbins = Ok (row B i).
Proof.
  intros Hw HB. pose proof (bin_array_rows_spec A nbins Hw) as H.
  rewrite HB in H. destruct H as (Hn & Hm & rs & Hrs & Hall).
  pose proof (binned_rows_length A nbins rs Hw Hall) as Hlen.
  assert (Hnrs : length rs = nrows A).
  { rewrite <- (Forall2_length Hall). unfold rows.
    now rewrite length_map, length_seq. }
  split; [exact Hn|]. split; [exact Hm|]. split.
  - unfold well_shaped.
    now rewrite Hrs, (length_concat_uniform _ _ Hlen), Hnrs, Hn, Hm.
  - intros i Hi.
    destruct (Forall2_nth_error _ _ _ Hall i _ (rows_nth_error A i Hi))
      as (r & Hr & Hbin).
    rewrite Hbin. f_equal. unfold row. rewrite Hrs, Hm.
    symmetry. exact (slice_concat (ncols A) rs Hlen i r Hr).
Qed.

Lemma bin_array_rows_witness :
  exists B,
    bin_array {| nrows := 1; ncols := 10; elems := example_input |} 2
              (Some 1%Z) = Ok B /\
    bin_sequence
      (row {| nrows := 1; ncols := 10; elems := example_input |} 0) 2 =
    Ok (row B 0).
Proof.
  assert (Hw : well_shaped {| nrows := 1; ncols := 10; elems := example_input |})
    by reflexivity.
  assert (E : rows {| nrows := 1; ncols := 10; elems := example_input |} =
              [example_input]) by reflexivity.
  destruct (bin_array {| nrows := 1; ncols := 10; elems := example_input |} 2
                      (Some 1%Z)) as [B|e] eqn:HB.
  - exists B. split; [reflexivity|].
    apply (bin_array_rows _ 2 B Hw HB). cbn [nrows]. lia.
  - exfalso. pose proof (bin_array_rows_spec _ 2 Hw) as H.
    rewrite HB in H. destruct H as [[H _] | (pre & s & post & Hs & He & _)].
    + discriminate.
    + rewrite E in Hs. destruct pre as [|? [|? ?]]; try discriminate.
      injection Hs as <- _. rewrite example_run in He. discriminate.
Defined.

(** X19. Along [axis=1], when [bin_array] raises, either the array has no row
    ([ValueError]), or the exception is the one [bin_sequence] raises for
    the first row it cannot bin. *)
Theorem bin_array_rows_error (A : array2 value) (nbins : Z) (e : exn) :
  well_shaped A ->
  bin_array A nbins (Some 1%Z) = Raise e ->
  (nrows A = 0 /\ e = ValueError) \/
  exists i,
    i < nrows A /\
    bin_sequence (row A i) nbins = Raise e /\
    forall i', i' < i -> exists b, bin_sequence (row A i') nbins = Ok b.
Proof.
  intros Hw HB. pose proof (bin_array_rows_spec A nbins Hw) as H.
  rewrite HB in H. destruct H as [H | (pre & s & post & Hs & He & Hpre)];
    [now left | right].
  assert (Hnr : length (rows A) = nrows A).
  { unfold rows. now rewrite length_map, length_seq. }
  assert (Hi : length pre < nrows A).
  { rewrite <- Hnr, Hs, length_app. cbn [length]. lia. }
  exists (length pre). split; [exact Hi|]. split.
  - pose proof (rows_nth_error A _ Hi) as Hr.
    rewrite Hs, nth_error_app2, Nat.sub_diag in Hr by lia.
    injection Hr as Hr. now rewrite <- Hr.
  - intros i' Hi'.
    pose proof (rows_nth_error A i' ltac:(lia)) as Hr.
    rewrite Hs, nth_error_app1 in Hr by exact Hi'.
    rewrite Forall_forall in Hpre. apply Hpre.
    exact (nth_error_In _ _ Hr).
Qed.

Lemma bin_array_rows_error_witness :
  (nrows {| nrows := 1; ncols := 3; elems := [int 0; int 0; int 0] |} = 0 /\
   UnboundLocalError = ValueError) \/
  exists i,
    i < nrows {| nrows := 1; ncols := 3; elems := [int 0; int 0; int 0] |} /\
    bin_sequence
      (row {| nrows := 1; ncols := 3; elems := [int 0; int 0; int 0] |} i) 2 =
      Raise UnboundLocalError /\
    forall i', i' < i ->
      exists b,
        bin_sequence
          (row {| nrows := 1; ncols := 3; elems := [int 0; int 0; int 0] |} i')
          2 = Ok b.
Proof.
  apply bin_array_rows_error; [reflexivity|].
  unfold bin_array, np_apply_along_axis.
  cbn [Z.ltb Z.leb Z.compare orb Z.eqb Pos.eqb]. cbv iota.
  change (rows {| nrows := 1; ncols := 3; elems := [int 0; int 0; int 0] |})
    with [[int 0; int 0; int 0]].
  cbv iota beta.
  assert (E : bin_sequence [int 0; int 0; int 0] 2 = Raise UnboundLocalError).
  { apply (bin_sequence_infeasible _ 2 0 0); try reflexivity; lia. }
  now rewrite E.
Defined.

(** ** Columns and transposition *)

Lemma slice_head_part {T : Type} (c rest : list T) (u v : nat) :
  v <= length c -> slice (c ++ rest) u v = slice c u v.
Proof.
  intros Hv. unfold slice. rewrite skipn_app, firstn_app.
  rewrite length_skipn. replace (v - u - (length c - u)) with 0 by lia.
  cbn [firstn]. apply app_nil_r.
Qed.

(** A slice inside chunk [i] of a concatenation of lists of length [M]. *)
Lemma slice_concat_in {T : Type} (M : nat) (cs : list (list T)) :
  Forall (fun c => length c = M) cs ->
  forall i c u v,
    nth_error cs i = Some c -> v <= M ->
    slice (concat cs) (i * M + u) (i * M + v) = slice c u v.
Proof.
  induction 1 as [|c0 cs Hc0 _ IH]; intros i c u v Hi Hv;
    [destruct i; discriminate|].
  destruct i as [|i]; cbn [nth_error] in Hi; cbn [concat].
  - injection Hi as <-. cbn [Nat.mul Nat.add]. apply slice_head_part. lia.
  - replace (S i * M + u) with (length c0 + (i * M + u)) by (rewrite Hc0; lia).
    replace (S i * M + v) with (length c0 + (i * M + v)) by (rewrite Hc0; lia).
    rewrite slice_skip. now apply IH.
Qed.

(** A slice is the concatenation of its one-element slices. *)
Lemma slice_singletons {T : Type} (l : list T) (a K : nat) :
  flat_map (fun i => slice l (a + i) (a + i + 1)) (seq 0 K) = slice l a (a + K).
Proof.
  induction K as [|K IH].
  - cbn [seq flat_map]. unfold slice. now rewrite Nat.add_0_r, Nat.sub_diag.
  - rewrite seq_S, flat_map_app, IH. cbn [flat_map Nat.add].
    rewrite app_nil_r. replace (a + K + 1) with (a + S K) by lia.
    apply slice_app. lia.
Qed.

Lemma cell_length {T : Type} (A : array2 T) (i j : nat) :
  well_shaped A -> i < nrows A -> j < ncols A ->
  length (slice (elems A) (i * ncols A + j) (i * ncols A + j + 1)) = 1.
Proof.
  intros Hw Hi Hj. rewrite slice_length; [lia|]. rewrite Hw.
  assert (S i * ncols A <= nrows A * ncols A) by (apply Nat.mul_le_mono_r; lia).
  lia.
Qed.

(** Element [i] of column [j] is the cell [(i, j)]. *)
Lemma column_cell {T : Type} (A : array2 T) (i j : nat) :
  well_shaped A -> i < nrows A -> j < ncols A ->
  slice (column A j) i (i + 1) =
  slice (elems A) (i * ncols A + j) (i * ncols A + j + 1).
Proof.
  intros Hw Hi Hj. unfold column. rewrite flat_map_concat_map.
  set (f := fun i0 => slice (elems A) (i0 * ncols A + j) (i0 * ncols A + j + 1)).
  assert (Hall : Forall (fun c => length c = 1) (map f (seq 0 (nrows A)))).
  { apply Forall_forall. intros c Hc. apply in_map_iff in Hc as (i0 & <- & Hi0).
    apply in_seq in Hi0. apply cell_length; [exact Hw | lia | exact Hj]. }
  assert (Hnth : nth_error (map f (seq 0 (nrows A))) i = Some (f i)).
  { rewrite nth_error_map.
    rewrite (nth_error_nth' _ 0) by (rewrite length_seq; exact Hi).
    now rewrite seq_nth. }
  pose proof (slice_concat_in 1 _ Hall i (f i) 0 1 Hnth (Nat.le_refl 1)) as E.
  rewrite Nat.mul_1_r, Nat.add_0_r in E. rewrite E.
  assert (Hl : length (f i) = 1) by (apply cell_length; assumption).
  change (slice (f i) 0 1 = f i).
  replace (slice (f i) 0 1) with (slice (f i) 0 (length (f i)))
    by now rewrite Hl.
  apply slice_all.
Qed.

Lemma column_length {T : Type} (A : array2 T) (j : nat) :
  well_shaped A -> j < ncols A -> length (column A j) = nrows A.
Proof.
  intros Hw Hj. unfold column. rewrite flat_map_concat_map.
  rewrite (length_concat_uniform 1).
  - rewrite length_map, length_seq. lia.
  - apply Forall_forall. intros c Hc. apply in_map_iff in Hc as (i & <- & Hi).
    apply in_seq in Hi. apply cell_length; [exact Hw | lia | exact Hj].
Qed.

Lemma columns_nth_error {T : Type} (A : array2 T) (j : nat) :
  j < ncols A -> nth_error (columns A) j = Some (column A j).
Proof.
  intros Hj. unfold columns. rewrite nth_error_map.
  rewrite (nth_error_nth' _ 0) by (rewrite length_seq; exact Hj).
  now rewrite seq_nth.
Qed.

(** Column [j] of the transposed array is row [j] of the array. *)
Lemma column_transpose {T : Type} (A : array2 T) (j : nat) :
  well_shaped A -> j < nrows A -> column (transpose A) j = row A j.
Proof.
  intros Hw Hj. unfold column at 1. cbn [transpose nrows ncols elems].
  assert (Hall : Forall (fun c => length c = nrows A) (columns A)).
  { apply Forall_forall. intros c Hc. unfold columns in Hc.
    apply in_map_iff in Hc as (i & <- & Hi). apply in_seq in Hi.
    apply column_length; [exact Hw | lia]. }
  unfold row. rewrite <- slice_singletons, !flat_map_concat_map. f_equal.
  apply map_ext_in. intros i Hi. apply in_seq in Hi.
  replace (i * nrows A + j + 1) with (i * nrows A + (j + 1)) by lia.
  rewrite (slice_concat_in (nrows A) _ Hall i (column A i))
    by (try apply columns_nth_error; lia).
  apply column_cell; [exact Hw | exact Hj | lia].
Qed.

Lemma columns_count {T : Type} (A : array2 T) : length (columns A) = ncols A.
Proof. unfold columns. now rewrite length_map, length_seq. Qed.

Lemma columns_length_all {T : Type} (A : array2 T) :
  well_shaped A -> forall s, In s (columns A) -> length s = nrows A.
Proof.
  intros Hw s Hs. unfold columns in Hs.
  apply in_map_iff in Hs as (j & <- & Hj). apply in_seq in Hj.
  apply column_length; [exact Hw | lia].
Qed.

Lemma transpose_well_shaped {T : Type} (A : array2 T) :
  well_shaped A -> well_shaped (transpose A).
Proof.
  intros Hw. unfold well_shaped. cbn [transpose nrows ncols elems].
  rewrite (length_concat_uniform (nrows A)).
  - now rewrite columns_count.
  - apply Forall_forall. apply columns_length_all, Hw.
Qed.

(** X20. Along [axis=0] the columns are binned one by one, each on its own: when
    [bin_array] returns, the result has the shape of [A] and its column [j]
    is what [bin_sequence] returns for column [j] of [A]. *)
Theorem bin_array_columns (A : array2 value) (nbins : Z) (B : array2 label) :
  well_shaped A ->
  bin_array A nbins (Some 0%Z) = Ok B ->
  nrows B = nrows A /\ ncols B = ncols A /\ well_shaped B /\
  forall j, j < ncols A -> bin_sequence (column A j) nbins = Ok (column B j).
Proof.
  intros Hw HB. unfold bin_array in HB.
  pose proof (apply_along_axis_spec (fun a => bin_sequence a nbins) 0 A
                (nrows A) ltac:(lia)) as H.
  cbv zeta in H. cbn [Z.eqb orb] in H.
  specialize (H (fun s r Hs Hr =>
                   eq_trans (bin_sequence_length _ _ _ Hr)
                            (columns_length_all A Hw s Hs))).
  rewrite HB in H. destruct H as (rs & Hall & ->).
  set (buff := {| nrows := length (columns A); ncols := nrows A;
                  elems := concat rs |}).
  assert (Hlen : Forall (fun r => length r = nrows A) rs).
  { apply Forall_forall. intros r Hr.
    destruct (Forall2_In_r _ _ _ _ Hall Hr) as (s & Hs & Hsr).
    rewrite (bin_sequence_length _ _ _ Hsr).
    exact (columns_length_all A Hw s Hs). }
  assert (Hwb : well_shaped buff).
  { unfold well_shaped, buff. cbn [nrows ncols elems].
    rewrite (length_concat_uniform _ _ Hlen).
    now rewrite <- (Forall2_length Hall). }
  split; [reflexivity|]. split; [apply columns_count|].
  split; [apply transpose_well_shaped, Hwb|].
  intros j Hj.
  destruct (Forall2_nth_error _ _ _ Hall j _ (columns_nth_error A j Hj))
    as (r & Hr & Hbin).
  rewrite Hbin. f_equal.
  rewrite (column_transpose buff j Hwb)
    by (unfold buff; cbn [nrows]; now rewrite columns_count).
  unfold row, buff. cbn [nrows ncols elems].
  symmetry. exact (slice_concat (nrows A) rs Hlen j r Hr).
Qed.

Lemma bin_array_columns_witness :
  exists B,
    bin_array {| nrows := 10; ncols := 1; elems := example_input |} 2
              (Some 0%Z) = Ok B /\
    bin_sequence
      (column {| nrows := 10; ncols := 1; elems := example_input |} 0) 2 =
    Ok (column B 0).
Proof.
  assert (Hw : well_shaped {| nrows := 10; ncols := 1; elems := example_input |})
    by reflexivity.
  assert (E : columns {| nrows := 10; ncols := 1; elems := example_input |} =
              [example_input]) by reflexivity.
  destruct (bin_array {| nrows := 10; ncols := 1; elems := example_input |} 2
                      (Some 0%Z)) as [B|e] eqn:HB.
  - exists B. split; [reflexivity|].
    apply (bin_array_columns _ 2 B Hw HB). cbn [ncols]. lia.
  - exfalso. unfold bin_array in HB.
    pose proof (apply_along_axis_spec (fun a => bin_sequence a 2) 0 _
                  10 ltac:(lia)
                  (fun s r Hs Hr =>
                     eq_trans (bin_sequence_length _ _ _ Hr)
                              (columns_length_all _ Hw s Hs))) as H.
    rewrite HB in H. cbn [Z.eqb orb] in H. rewrite E in H.
    destruct H as [[H _] | (pre & s & post & Hs & He & _)].
    + discriminate.
    + destruct pre as [|? [|? ?]]; try discriminate.
      injection Hs as <- _. rewrite example_run in He. discriminate.
Defined.

(** X21. An array of one row: binning along the rows and binning all the
    elements together are the same. *)
Theorem bin_array_single_row (A : array2 value) (nbins : Z) :
  well_shaped A ->
  nrows A = 1 ->
  bin_array A nbins (Some 1%Z) = bin_array A nbins None.
Proof.
  intros Hw H1. unfold well_shaped in Hw. rewrite H1, Nat.mul_1_l in Hw.
  unfold bin_array, np_apply_along_axis, ravel.
  cbn [Z.ltb Z.leb Z.compare orb Z.eqb Pos.eqb]. cbv iota.
  unfold rows. rewrite H1. cbn [seq map].
  unfold row. cbn [Nat.mul Nat.add]. rewrite <- Hw, slice_all.
  destruct (bin_sequence (elems A) nbins) as [b|e] eqn:Eb; [|reflexivity].
  cbn [bind apply_rest concat length]. unfold reshape. cbn [fst snd].
  rewrite Nat.mul_1_l, (bin_sequence_length _ _ _ Eb), Nat.eqb_refl.
  now rewrite app_nil_r.
Qed.

Lemma bin_array_single_row_witness :
  bin_array {| nrows := 1; ncols := 10; elems := example_input |} 2 (Some 1%Z) =
  bin_array {| nrows := 1; ncols := 10; elems := example_input |} 2 None.
Proof.
  apply bin_array_single_row; reflexivity.
Defined.

(** ** Entropy zero *)

Lemma non_nan_zeros (b : list label) :
  (forall k, In (Some k) b -> k = 0) ->
  non_nan b = repeat 0 (length (non_nan b)).
Proof.
  intros H. apply Forall_eq_repeat, Forall_forall. intros k Hk.
  symmetry. apply H, non_nan_In, Hk.
Qed.

(** X22. The entropy is [0] exactly when no label other than [0] occurs: one
    occupied bin, or no number at all. *)
Theorem get_h_zero_iff (b : list label) :
  _get_h b = Num 0%R <-> forall k, In (Some k) b -> k = 0.
Proof.
  split.
  - intros H k Hk.
    destruct (Nat.eq_dec k 0) as [-> | Hne]; [reflexivity | exfalso].
    assert (Hnn : non_nan b <> []).
    { intros E. apply non_nan_In in Hk. rewrite E in Hk. destruct Hk. }
    assert (Hmax : 1 <= list_max (non_nan b)).
    { apply non_nan_In, list_max_In in Hk. lia. }
    destruct (zero_or_positive (bincount (non_nan b))) as [H0 | Hpos].
    + rewrite (get_h_empty_group b H0) in H. discriminate.
    + rewrite (get_h_occupied b Hpos) in H. injection H as H.
      pose proof (entropy_of_counts_pos (bincount (non_nan b))) as Hgt.
      rewrite (bincount_length _ Hnn) in Hgt.
      specialize (Hgt ltac:(lia) Hpos). lra.
  - intros H. pose proof (non_nan_zeros b H) as E.
    destruct (length (non_nan b)) as [|m] eqn:El.
    + rewrite get_h_occupied by (rewrite E; constructor).
      rewrite E. cbn [repeat bincount]. unfold entropy_of_counts.
      cbn [map fold_left]. f_equal. lra.
    + rewrite get_h_occupied; rewrite E, bincount_zeros.
      * f_equal. apply entropy_single.
      * constructor; [lia | constructor].
Qed.

(** ** Binning twice *)

(** X23. Binning is idempotent: the labels [bin_sequence] returns, read as
    integers (NaN as NaN) and binned again with the same [nbins], come back
    unchanged. *)
Theorem bin_sequence_idempotent (a : list value) (nbins : Z) (b : list label) :
  bin_sequence a nbins = Ok b ->
  bin_sequence (map (value_of_label 0) b) nbins = Ok b.
Proof.
  intros H.
  destruct (last_bin_occurs a nbins b H) as (Hlast & h & Hh).
  destruct (bin_sequence_Ok_best a nbins b H)
    as (amin & amax & ixs & _ & Hc & _ & (q & Hq & _) & _ & Hn & Hcut & Hb & _).
  apply labels_one_bin_per_value.
  - destruct (Z.eq_dec nbins 1) as [-> | Hne]; [|lia].
    rewrite bin_sequence_one_bin in H; [discriminate | exact Hc|].
    exists (Num q). split; [exact Hq | reflexivity].
  - intros k Hk. rewrite Hb in Hk. apply in_map_iff in Hk as (x & Hx & _).
    apply label_of_bound in Hx. rewrite split_at_length in Hx.
    destruct Hcut as (Hlen & _). lia.
  - intros k Hk. apply non_nan_In in Hlast. apply (get_h_Num_In b h k Hh).
    + apply list_max_In in Hlast. lia.
    + intros E. rewrite E in Hlast. destruct Hlast.
Qed.

Lemma bin_sequence_idempotent_witness :
  bin_sequence
    (map (value_of_label 0)
         [Some 0; Some 0; Some 0; Some 0;
          Some 1; Some 1; Some 1; Some 1; Some 1; Some 1]) 2 =
  Ok [Some 0; Some 0; Some 0; Some 0;
      Some 1; Some 1; Some 1; Some 1; Some 1; Some 1].
Proof.
  exact (bin_sequence_idempotent example_input 2 _ example_run).
Defined.

(** ** Shifting the values *)

Lemma Qfloor_shift (q : Q) (c : Z) :
  Qfloor (q + inject_Z c) = (Qfloor q + c)%Z.
Proof.
  destruct q as [n d]. unfold Qfloor, Qplus, inject_Z. cbn [Qnum Qden].
  rewrite Z.mul_1_r, Pos.mul_1_r. apply Z.div_add. discriminate.
Qed.

Lemma integral_shift (q : Q) (c : Z) :
  (q == inject_Z (Qfloor q))%Q ->
  (q + inject_Z c == inject_Z (Qfloor (q + inject_Z c)))%Q.
Proof.
  intros H. rewrite Qfloor_shift, inject_Z_plus. now rewrite <- H.
Qed.

Lemma integral_unshift (q : Q) (c : Z) :
  (q + inject_Z c == inject_Z (Qfloor (q + inject_Z c)))%Q ->
  (q == inject_Z (Qfloor q))%Q.
Proof.
  intros H. rewrite Qfloor_shift, inject_Z_plus in H.
  apply (Qplus_inj_r _ _ (inject_Z c)). exact H.
Qed.

Lemma isinteger_shift (c : Z) (x : value) :
  _isinteger (shift c x) = _isinteger x.
Proof.
  destruct x as [q|s|]; try reflexivity. cbn [shift].
  destruct (_isinteger (Num q)) eqn:E.
  - apply isinteger_Num, integral_shift, isinteger_Num, E.
  - destruct (_isinteger (Num (q + inject_Z c)%Q)) eqn:E'; [|reflexivity].
    apply isinteger_Num, integral_unshift, isinteger_Num in E'. congruence.
Qed.

Lemma checked_shift (c : Z) (a : list value) :
  checked (map (shift c) a) = checked a.
Proof.
  unfold checked. induction a as [|x a IH]; [reflexivity|].
  cbn [map forallb]. rewrite IH, isinteger_shift.
  now destruct x.
Qed.

Lemma In_shift (c : Z) (a : list value) (q : Q) :
  In (Num q) a -> In (Num (q + inject_Z c)%Q) (map (shift c) a).
Proof. intros H. exact (in_map (shift c) a (Num q) H). Qed.

Lemma In_shift_inv (c : Z) (a : list value) (q' : Q) :
  In (Num q') (map (shift c) a) ->
  exists q, In (Num q) a /\ q' = (q + inject_Z c)%Q.
Proof.
  intros H. apply in_map_iff in H as ([q|s|] & E & Hq); try discriminate.
  exists q. split; [exact Hq | now injection E].
Qed.

(** The labels under a shifted partition of the shifted range. *)
Lemma apply_binning_shift (c lo hi : Z) (k : nat) (ixs : list nat)
    (a : list value) :
  checked a = true ->
  (forall q, In (Num q) a -> (lo <= Qfloor q < hi)%Z) ->
  cut_tuple (Z.to_nat (hi - lo)) k ixs ->
  _apply_binning (map (shift c) a)
                 (split_at (py_range (lo + c) (hi + c)) ixs) =
  _apply_binning a (split_at (py_range lo hi) ixs).
Proof.
  intros Hc Hr Hcut. rewrite !apply_binning_map, map_map.
  apply map_ext_in. intros x Hx.
  destruct (checked_In a x Hc Hx) as [-> | (q & -> & Hq)].
  - cbn [shift]. now rewrite !label_of_nan.
  - cbn [shift]. specialize (Hr q Hx).
    rewrite (label_of_split lo hi k ixs q Hcut Hq Hr).
    rewrite (label_of_split (lo + c) (hi + c) k ixs).
    + rewrite Qfloor_shift.
      replace (Qfloor q + c - (lo + c))%Z with (Qfloor q - lo)%Z by lia.
      reflexivity.
    + replace (hi + c - (lo + c))%Z with (hi - lo)%Z by lia. exact Hcut.
    + apply integral_shift, Hq.
    + rewrite Qfloor_shift. lia.
Qed.

Lemma search_shift (c lo hi : Z) (k : nat) (a : list value)
    (cuts : list (list nat)) :
  checked a = true ->
  (forall q, In (Num q) a -> (lo <= Qfloor q < hi)%Z) ->
  Forall (cut_tuple (Z.to_nat (hi - lo)) k) cuts ->
  forall (h : float) (o : option (list nat)),
    (forall ixs, o = Some ixs -> cut_tuple (Z.to_nat (hi - lo)) k ixs) ->
    exists (h' : float) (o' : option (list nat)),
      (forall ixs, o' = Some ixs -> cut_tuple (Z.to_nat (hi - lo)) k ixs) /\
      fold_left (search_step (map (shift c) a))
                (map (split_at (py_range (lo + c) (hi + c))) cuts)
                (h, option_map (split_at (py_range (lo + c) (hi + c))) o) =
        (h', option_map (split_at (py_range (lo + c) (hi + c))) o') /\
      fold_left (search_step a) (map (split_at (py_range lo hi)) cuts)
                (h, option_map (split_at (py_range lo hi)) o) =
        (h', option_map (split_at (py_range lo hi)) o').
Proof.
  intros Hc Hr. induction 1 as [|ixs cuts Hixs _ IH]; intros h o Ho.
  - exists h, o. cbn [map fold_left]. auto.
  - cbn [map fold_left]. unfold search_step at 2 4. cbv zeta. cbn [fst].
    unfold _evaluate_binning. cbv zeta.
    rewrite (apply_binning_shift c lo hi k ixs a Hc Hr Hixs).
    destruct (fgt (_get_h (_apply_binning a (split_at (py_range lo hi) ixs))) h).
    + apply (IH _ (Some ixs)). intros ? [= <-]. exact Hixs.
    + apply (IH h o Ho).
Qed.

(** X24. Adding the same integer to every element changes nothing: the same
    labels, or the same exception. *)
Theorem bin_sequence_shift (c : Z) (a : list value) (nbins : Z) :
  bin_sequence (map (shift c) a) nbins = bin_sequence a nbins.
Proof.
  pose proof (checked_shift c a) as Hcc.
  destruct (checked a) eqn:Hc.
  2:{ now rewrite !bin_sequence_unchecked. }
  destruct (nan_or_number a) as [Hex | Hnan].
  2:{ rewrite !bin_sequence_no_number; [reflexivity | exact Hnan|].
      intros x Hx. apply in_map_iff in Hx as (y & <- & Hy).
      specialize (Hnan y Hy). now destruct y. }
  assert (Hex' : exists x, In x (map (shift c) a) /\ isnan x = false).
  { destruct Hex as (x & Hx & Hn). exists (shift c x).
    split; [now apply in_map | now destruct x]. }
  destruct (value_range a Hc Hex)
    as (amin & amax & Hmin & Hmax & Hr & (p0 & Hp0 & Hlo) & (p1 & Hp1 & Hhi)).
  destruct (value_range _ Hcc Hex')
    as (amin' & amax' & Hmin' & Hmax' & Hr'
        & (q0 & Hq0 & Hlo') & (q1 & Hq1 & Hhi')).
  assert (Emin : amin' = (amin + c)%Z).
  { pose proof (Hr' _ (In_shift c a p0 Hp0)) as H1.
    rewrite Qfloor_shift in H1.
    destruct (In_shift_inv c a q0 Hq0) as (q & Hq & ->).
    rewrite Qfloor_shift in Hlo'. pose proof (Hr q Hq). lia. }
  assert (Emax : amax' = (amax + c)%Z).
  { pose proof (Hr' _ (In_shift c a p1 Hp1)) as H1.
    rewrite Qfloor_shift in H1.
    destruct (In_shift_inv c a q1 Hq1) as (q & Hq & ->).
    rewrite Qfloor_shift in Hhi'. pose proof (Hr q Hq). lia. }
  assert (Hle : (amin <= amax)%Z) by (pose proof (Hr p0 Hp0); lia).
  clear Hlo Hhi Hlo' Hhi' Hq0 Hq1. subst amin' amax'.
  destruct (Z.ltb_spec nbins 1) as [Hlt | Hge].
  { rewrite (bin_sequence_infeasible _ nbins _ _ Hcc Hmin' Hmax')
      by (try left; lia).
    rewrite (bin_sequence_infeasible _ nbins _ _ Hc Hmin Hmax)
      by (try left; lia).
    reflexivity. }
  rewrite (bin_sequence_checked _ nbins _ _ Hcc Hmin' Hmax').
  rewrite (bin_sequence_checked _ nbins _ _ Hc Hmin Hmax).
  rewrite !generate_bins_unfold by exact Hge. rewrite !py_range_length.
  replace (amax + c + 1)%Z with (amax + 1 + c)%Z by lia.
  replace (amax + 1 + c - (amin + c))%Z with (amax + 1 - amin)%Z by lia.
  cbn [bind].
  set (k := Z.to_nat nbins - 1).
  set (cuts := combinations (seq 1 (Z.to_nat (amax + 1 - amin) - 1)) k).
  assert (Hcuts : Forall (cut_tuple (Z.to_nat (amax + 1 - amin)) k) cuts).
  { apply Forall_forall. intros ixs Hixs.
    apply cut_tuple_combinations, Hixs. }
  assert (Hr1 : forall q, In (Num q) a -> (amin <= Qfloor q < amax + 1)%Z).
  { intros q Hq. specialize (Hr q Hq). lia. }
  destruct (search_shift c amin (amax + 1) k a cuts Hc Hr1 Hcuts
              (Num 0%R) None ltac:(discriminate))
    as (h' & o' & Ho' & E' & E).
  assert (E1 : search (map (shift c) a)
                 (map (split_at (py_range (amin + c) (amax + 1 + c))) cuts) =
               (h', option_map
                      (split_at (py_range (amin + c) (amax + 1 + c))) o'))
    by exact E'.
  assert (E2 : search a (map (split_at (py_range amin (amax + 1))) cuts) =
               (h', option_map (split_at (py_range amin (amax + 1))) o'))
    by exact E.
  rewrite E1, E2. cbn [snd].
  destruct o' as [ixs|]; cbn [option_map]; [|reflexivity].
  f_equal. apply (apply_binning_shift c amin (amax + 1) k ixs a Hc Hr1).
  now apply Ho'.
Qed.

(** ** The number of partitions *)

(** X25. On any sequence of length [L]: [nbins < 1] raises [ValueError] at the
    first step of the generator; otherwise there are [C(L - 1, nbins - 1)]
    partitions, hence none when [nbins > L >= 1]. *)
Theorem generate_bins_count (base : list Z) (nbins : Z) :
  ((nbins < 1)%Z -> _generate_bins base nbins = Raise ValueError) /\
  ((1 <= nbins)%Z ->
   exists bs,
     _generate_bins base nbins = Ok bs /\
     length bs = binomial (length base - 1) (Z.to_nat nbins - 1) /\
     (0 < length base < Z.to_nat nbins -> bs = [])).
Proof.
  split.
  - intros H. unfold _generate_bins, py_combinations. cbv zeta.
    destruct (Z.ltb_spec (nbins - 1) 0); [reflexivity | lia].
  - intros H. rewrite (generate_bins_unfold base nbins H).
    eexists. split; [reflexivity|]. split.
    + now rewrite length_map, combinations_length, length_seq.
    + intros Hl. rewrite combinations_too_many; [reflexivity|].
      rewrite length_seq. lia.
Qed.


